(** * ForgeCraft: the instruction-file merge engine, MCP discovery,
      settings merge, tag handling and the template renderer

    A shallow embedding of the TypeScript sources of forgecraft-mcp and
    the properties its specification states about them, followed by
    the file writers, the remote registry in detail, the
    configure_mcp handler, the project probes, the language detector
    and the router, with properties read off their code.

    Every JavaScript string (a text, a line, a tag, a server name, an
    object key) is the sequence of its UTF-16 code units.  Part I holds
    the definitions, Part II the lemmas and theorems about them. *)

From Stdlib Require Import NArith ZArith List String Ascii Bool Lia QArith Qcanon
  Sorted.
From stdpp Require Import base option list gmap strings pretty numbers.
Import ListNotations.

Set Warnings "-register-all".

Local Open Scope N_scope.
Local Open Scope list_scope.

(* ===================================================================== *)
(** ** JavaScript strings *)
(* ===================================================================== *)

Module JsString.

(** A string is its list of UTF-16 code units. *)
Abbreviation jsstring := (list N).

(** The code units of an ASCII literal. *)
Definition js (s : string) : jsstring :=
  map N_of_ascii (list_ascii_of_string s).

(** The line feed, ["\n"]. *)
Definition LF : N := 10.
Definition nl : jsstring := [LF].

(** ECMAScript [WhiteSpace] and [LineTerminator] code points, the ones
    [String.prototype.trim] strips.  All of them are in the basic plane,
    so a test on code units is exact. *)
Definition isWhiteSpace (c : N) : bool :=
  (c =? 9) || (c =? 10) || (c =? 11) || (c =? 12) || (c =? 13) ||
  (c =? 32) || (c =? 160) || (c =? 5760) ||
  ((8192 <=? c) && (c <=? 8202)) ||
  (c =? 8232) || (c =? 8233) || (c =? 8239) || (c =? 8287) ||
  (c =? 12288) || (c =? 65279).

Arguments isWhiteSpace : simpl never.

Fixpoint trimStart (s : jsstring) : jsstring :=
  match s with
  | [] => []
  | c :: r => if isWhiteSpace c then trimStart r else s
  end.

Definition trimEnd (s : jsstring) : jsstring := rev (trimStart (rev s)).

(** [s.trim()] *)
Definition trim (s : jsstring) : jsstring := trimEnd (trimStart s).

(** [s.startsWith(p)] *)
Fixpoint startsWith (s p : jsstring) : bool :=
  match p, s with
  | [], _ => true
  | a :: p', b :: s' => (a =? b) && startsWith s' p'
  | _ :: _, [] => false
  end.

(** [s.split("\n")]: never empty, the empty string gives one empty line. *)
Fixpoint splitLines (s : jsstring) : list jsstring :=
  match s with
  | [] => [[]]
  | c :: r =>
      if c =? LF then [] :: splitLines r
      else match splitLines r with
           | l :: ls => (c :: l) :: ls
           | [] => [[c]]
           end
  end.

(** [parts.join(sep)] *)
Fixpoint join (sep : jsstring) (parts : list jsstring) : jsstring :=
  match parts with
  | [] => []
  | [p] => p
  | p :: rest => p ++ sep ++ join sep rest
  end.

(** The text whose lines are the given ASCII literals. *)
Definition doc (ls : list string) : jsstring := join nl (map js ls).

End JsString.

(* ===================================================================== *)
(** ** shared/filesystem.ts: mergeInstructionFiles *)
(* ===================================================================== *)

Module Filesystem.
Import JsString.

(** [line.startsWith("## ") || line.startsWith("### ")] *)
Definition isHeading (line : jsstring) : bool :=
  startsWith line (js "## ") || startsWith line (js "### ").

(** The [Set] of trimmed heading lines of the generated text. *)
Definition generatedHeaders (generatedLines : list jsstring) : gset jsstring :=
  list_to_set (map trim (filter (fun l => isHeading l = true) generatedLines)).

(** [generatedHeaders.has(x)] *)
Definition has (hs : gset jsstring) (x : jsstring) : bool :=
  bool_decide (x ∈ hs).

(** The three variables the loop over the existing lines updates. *)
Record MergeState := mkMergeState {
  customSections : list jsstring;
  inCustomSection : bool;
  currentSection : list jsstring
}.

Definition initialState : MergeState := mkMergeState [] false [].

(** [customSections.push(currentSection.join("\n"))] under its guard. *)
Definition flush (st : MergeState) : list jsstring :=
  if inCustomSection st && negb (Nat.eqb (length (currentSection st)) 0)
  then customSections st ++ [join nl (currentSection st)]
  else customSections st.

(** One iteration of [for (const line of existingLines)]. *)
Definition mergeStep (hs : gset jsstring) (st : MergeState) (line : jsstring)
  : MergeState :=
  if isHeading line then
    let inCustom := negb (has hs (trim line)) in
    mkMergeState (flush st) inCustom (if inCustom then [line] else [])
  else if inCustomSection st then
    mkMergeState (customSections st) true (currentSection st ++ [line])
  else st.

(** The custom sections collected from the existing text: the loop,
    then the flush after it. *)
Definition collectCustomSections (existing generated : jsstring)
  : list jsstring :=
  let hs := generatedHeaders (splitLines generated) in
  flush (fold_left (mergeStep hs) (splitLines existing) initialState).

(** ["\n\n<!-- Custom Sections (preserved from previous file) -->\n\n"] *)
Definition separator : jsstring :=
  nl ++ nl ++ js "<!-- Custom Sections (preserved from previous file) -->"
     ++ nl ++ nl.

Definition mergeInstructionFiles (existing generated : jsstring) : jsstring :=
  let sections := collectCustomSections existing generated in
  if negb (Nat.eqb (length sections) 0)
  then generated ++ separator ++ join (nl ++ nl) sections
  else generated.

End Filesystem.


(* ===================================================================== *)
(** ** The merge engine as the specification words it *)
(* ===================================================================== *)

Module MergeSpec.
Import JsString Filesystem.

(** The lines up to the next heading line of either level. *)
Fixpoint bodyLines (ls : list jsstring) : list jsstring :=
  match ls with
  | [] => []
  | l :: rest => if isHeading l then [] else l :: bodyLines rest
  end.

(** Flat section spans: every heading line opens a span, which runs to
    the next heading line of either level or to the end of the text.
    Lines before the first heading belong to no span. *)
Fixpoint flatSections (ls : list jsstring) : list (jsstring * list jsstring) :=
  match ls with
  | [] => []
  | l :: rest =>
      if isHeading l then (l, bodyLines rest) :: flatSections rest
      else flatSections rest
  end.

(** A heading line matches when some heading line of the generated text
    is equal to it after trimming both. *)
Definition headingInGenerated (generated h : jsstring) : Prop :=
  exists g, In g (splitLines generated) /\ isHeading g = true /\ trim g = trim h.

(** A section is custom when its trimmed heading is not a trimmed
    heading of the generated text. *)
Definition isCustom (generated : jsstring) (sec : jsstring * list jsstring)
  : bool :=
  negb (has (generatedHeaders (splitLines generated)) (trim (fst sec))).

(** The text of a section: its heading line and its body lines. *)
Definition sectionText (sec : jsstring * list jsstring) : jsstring :=
  join nl (fst sec :: snd sec).

(** The custom sections of the existing text, in their order there. *)
Definition customSectionsOf (existing generated : jsstring) : list jsstring :=
  map sectionText
    (List.filter (isCustom generated) (flatSections (splitLines existing))).

(** Heading levels: 2 for ["## "], 3 for ["### "]. *)
Definition headingLevel (l : jsstring) : option nat :=
  if startsWith l (js "## ") then Some 2%nat
  else if startsWith l (js "### ") then Some 3%nat
  else None.

(** The lines up to the next heading of equal or higher level (a level
    number at most [k]), as the specification delimits a span. *)
Fixpoint nestedBody (k : nat) (ls : list jsstring) : list jsstring :=
  match ls with
  | [] => []
  | l :: rest =>
      match headingLevel l with
      | Some j => if Nat.leb j k then [] else l :: nestedBody k rest
      | None => l :: nestedBody k rest
      end
  end.

(** The span that begins at the first line of [ls], when that line is a
    heading: the heading and everything up to the next heading of equal
    or higher level. *)
Definition nestedSpan (ls : list jsstring) : option (list jsstring) :=
  match ls with
  | [] => None
  | l :: rest =>
      match headingLevel l with
      | Some k => Some (l :: nestedBody k rest)
      | None => None
      end
  end.

(** *** The invariant of the loop *)

(** While a custom section is open it holds at least its heading. *)
Definition openSectionNonEmpty (st : MergeState) : Prop :=
  inCustomSection st = true -> currentSection st <> [].

(** *** The sections to keep, told without the set of the loop *)

(** Some heading line of the generated text is equal to this line
    after trimming both: a search through the lines of the text. *)
Definition matchesGenerated (generated h : jsstring) : bool :=
  existsb (fun g => isHeading g && bool_decide (trim g = trim h))
          (splitLines generated).

(** The flat sections of the existing text whose heading line matches
    no heading line of the generated text, each as its text (heading
    line and body lines), in the order they have in the existing
    text. *)
Definition unmatchedSections (existing generated : jsstring)
  : list jsstring :=
  map sectionText
    (List.filter (fun sec => negb (matchesGenerated generated (fst sec)))
                 (flatSections (splitLines existing))).

End MergeSpec.

(* ===================================================================== *)
(** ** Errors and exceptions *)
(* ===================================================================== *)

Module Exn.
Import JsString.

(** What a [throw] carries: the project's [DiscoveryError] (message and
    URL), or any other error (TypeError, AbortError, a rejected fetch). *)
Inductive Thrown :=
  | DiscoveryError (message url : jsstring)
  | OtherError.

(** A computation that returns a value or throws. *)
Inductive Result (A : Type) :=
  | Ok (a : A)
  | Throw (e : Thrown).
Arguments Ok {A} a.
Arguments Throw {A} e.

(** Sequencing: a throw skips the rest.  With this instance the
    notation [x ← m; k] reads as [const x = await m; k]. *)
#[global] Instance Result_bind : MBind Result :=
  fun A B (k : A -> Result B) (m : Result A) =>
    match m with
    | Ok a => k a
    | Throw e => Throw e
    end.

(** [try { m } catch { handler }] *)
Definition tryCatch {A} (m : Result A) (handler : Thrown -> Result A)
  : Result A :=
  match m with
  | Ok a => Ok a
  | Throw e => handler e
  end.

End Exn.

(* ===================================================================== *)
(** ** registry/mcp-discovery.ts *)
(* ===================================================================== *)

Module McpDiscovery.
Import JsString Exn.

Abbreviation Tag := (list N).

(** [McpServerEntry], with the fields [entryToRecommendation] reads. *)
Record McpServerEntry := mkEntry {
  entry_name : jsstring;
  entry_description : jsstring;
  entry_command : jsstring;
  entry_args : list jsstring;
  entry_env : option (gmap jsstring jsstring);
  entry_tags : list Tag;
  entry_category : jsstring;
  entry_url : option jsstring;
  entry_tier : option jsstring
}.

Record McpServerRecommendation := mkRec {
  name : jsstring;
  description : jsstring;
  command : jsstring;
  args : list jsstring;
  env : option (gmap jsstring jsstring);
  relevantTags : list Tag;
  category : jsstring;
  url : option jsstring;
  source : jsstring;
  tier : option jsstring
}.

(** The part of a [TagTemplateSet] that discovery reads:
    [templateSet.mcpServers?.servers]. *)
Record TagTemplateSet := mkTemplateSet {
  mcpServers : option (list McpServerEntry)
}.

Record McpDiscoveryOptions := mkOptions {
  includeRemote : option bool;
  remoteRegistryUrl : option jsstring;
  remoteTimeoutMs : option N
}.

Definition DEFAULT_REMOTE_TIMEOUT_MS : N := 5000.

Definition entryToRecommendation (entry : McpServerEntry) (src : jsstring)
  : McpServerRecommendation :=
  {| name := entry_name entry;
     description := entry_description entry;
     command := entry_command entry;
     args := entry_args entry;
     env := entry_env entry;
     relevantTags := entry_tags entry;
     category := entry_category entry;
     url := entry_url entry;
     source := src;
     tier := entry_tier entry |}.

(** The [seen] set and the [results] array of the dedup loops. *)
Definition Acc : Type := gset jsstring * list McpServerRecommendation.

(** [if (!seen.has(x.name)) { seen.add(x.name); out.push(x); }] *)
Definition pushUnseen (acc : Acc) (server : McpServerRecommendation) : Acc :=
  if bool_decide (name server ∈ acc.1) then acc
  else ({[ name server ]} ∪ acc.1, acc.2 ++ [server]).

(** The inner loop of [loadLocalServers] over one tag's entries. *)
Definition pushEntries (acc : Acc) (entries : list McpServerEntry) : Acc :=
  fold_left (fun a e => pushUnseen a (entryToRecommendation e (js "built-in")))
            entries acc.

(** [loadLocalServers]: [templates] is what
    [loadAllTemplatesWithExtras] returned. *)
Definition loadLocalServers (templates : gmap Tag TagTemplateSet)
    (tags : list Tag) : list McpServerRecommendation :=
  (fold_left
     (fun acc tag =>
        match templates !! tag with
        | Some templateSet =>
            match mcpServers templateSet with
            | Some servers => pushEntries acc servers
            | None => acc
            end
        | None => acc
        end)
     tags (∅, [])).2.

(** *** The remote registry *)

(** The body of a response, when it is read at once and its entries
    are of their declared type: [response.json()] rejects, or it gives
    data whose [servers] is an array of entries or is not an array.
    [RemoteRegistry] below has the bodies that never come and the
    entries of any shape. *)
Inductive Body :=
  | BodyInvalid
  | BodyData (servers : option (list McpServerEntry)).

Record Response := mkResponse {
  ok : bool;
  status : N;
  body : Body
}.

(** What the registry at a URL does with a request: the connection
    fails, nothing ever comes back, or a response arrives after some
    milliseconds. *)
Inductive Remote :=
  | NetworkError
  | Hang
  | Respond (afterMs : N) (response : Response).

(** [fetch(url, { signal })] with [setTimeout(() => controller.abort(),
    timeoutMs)] armed: the promise rejects unless the response arrives
    before the timer fires. *)
Definition fetch (remote : Remote) (timeoutMs : N) : Result Response :=
  match remote with
  | NetworkError => Throw OtherError
  | Hang => Throw OtherError
  | Respond afterMs response =>
      if afterMs <? timeoutMs then Ok response else Throw OtherError
  end.

(** [response.json()] for such a body: it settles at once. *)
Definition responseJson (response : Response)
  : Result (option (list McpServerEntry)) :=
  match body response with
  | BodyInvalid => Throw OtherError
  | BodyData servers => Ok servers
  end.

(** [entry.tags.some((t) => tagSet.has(t))] *)
Definition overlaps (tags : list Tag) (entry : McpServerEntry) : bool :=
  existsb (fun t => bool_decide (t ∈ (list_to_set tags : gset Tag)))
          (entry_tags entry).

(** The [try] block of [fetchRemoteServers]. *)
Definition fetchRemoteServersTry (remote : Remote) (tags : list Tag)
    (registryUrl : jsstring) (timeoutMs : N)
  : Result (list McpServerRecommendation) :=
  response ← fetch remote timeoutMs;
  if negb (ok response) then
    Throw (DiscoveryError (js "Remote registry returned HTTP "
                             ++ js (pretty (status response))) registryUrl)
  else
    data ← responseJson response;
    match data with
    | None =>
        Throw (DiscoveryError
                 (js "Remote registry response missing 'servers' array")
                 registryUrl)
    | Some servers =>
        Ok (map (fun e => entryToRecommendation e (js "remote"))
                (List.filter (overlaps tags) servers))
    end.

(** [fetchRemoteServers]: both branches of the [catch] only log a
    warning and return the empty list. *)
Definition fetchRemoteServers (remote : Remote) (tags : list Tag)
    (registryUrl : jsstring) (timeoutMs : N)
  : Result (list McpServerRecommendation) :=
  tryCatch (fetchRemoteServersTry remote tags registryUrl timeoutMs)
           (fun error =>
              match error with
              | DiscoveryError _ _ => Ok []
              | OtherError => Ok []
              end).

Section Sorting.
(** [a.localeCompare(b)], which depends on the host's locale. *)
Variable localeCompare : jsstring -> jsstring -> Z.

(** The comparator given to [merged.sort]. *)
Definition compareServers (a b : McpServerRecommendation) : Z :=
  let tagDiff :=
    (Z.of_nat (length (relevantTags b))
     - Z.of_nat (length (relevantTags a)))%Z in
  if negb (tagDiff =? 0)%Z then tagDiff
  else localeCompare (name a) (name b).

(** Insertion into a sorted list, after the elements that do not
    compare greater: with [sortWith] a stable sort, as [Array.sort]. *)
Fixpoint insertSorted {A} (cmp : A -> A -> Z) (x : A) (l : list A) : list A :=
  match l with
  | [] => [x]
  | y :: r => if (cmp x y <=? 0)%Z then x :: l else y :: insertSorted cmp x r
  end.

Definition sortWith {A} (cmp : A -> A -> Z) (l : list A) : list A :=
  fold_right (insertSorted cmp) [] l.

(** [deduplicateServers]: local first, remote fills the gaps, then the
    sort. *)
Definition deduplicateServers (local remote : list McpServerRecommendation)
  : list McpServerRecommendation :=
  let afterLocal := fold_left pushUnseen local (∅, []) in
  let merged := fold_left pushUnseen remote afterLocal in
  sortWith compareServers merged.2.

(** [discoverServers].  [defaultRegistryUrl] is
    [DEFAULT_REMOTE_REGISTRY_URL], read from the environment;
    [network] says what the registry at each URL does. *)
Definition discoverServers (templates : gmap Tag TagTemplateSet)
    (defaultRegistryUrl : jsstring) (network : jsstring -> Remote)
    (tags : list Tag) (options : option McpDiscoveryOptions)
  : Result (list McpServerRecommendation) :=
  let localServers := loadLocalServers templates tags in
  remoteServers ←
    match options with
    | Some opts =>
        if default false (includeRemote opts) then
          let registryUrl :=
            default defaultRegistryUrl (remoteRegistryUrl opts) in
          if negb (Nat.eqb (length registryUrl) 0) then
            fetchRemoteServers (network registryUrl) tags registryUrl
              (default DEFAULT_REMOTE_TIMEOUT_MS (remoteTimeoutMs opts))
          else Ok []
        else Ok []
    | None => Ok []
    end;
  Ok (deduplicateServers localServers remoteServers).
End Sorting.

End McpDiscovery.

(* ===================================================================== *)
(** ** Discovery: what the properties speak of *)
(* ===================================================================== *)

Module DiscoverySpec.
Import JsString Exn McpDiscovery.

(** The [seen] set holds exactly the names of the servers pushed so
    far, and no name was pushed twice. *)
Definition accOk (acc : Acc) : Prop :=
  NoDup (map name acc.2) /\ forall n, n ∈ acc.1 <-> In n (map name acc.2).

(** A server that came from the templates. *)
Definition builtIn (r : McpServerRecommendation) : Prop :=
  source r = js "built-in".

(** The servers kept before the sort. *)
Definition merged (local remote : list McpServerRecommendation)
  : list McpServerRecommendation :=
  (fold_left pushUnseen remote (fold_left pushUnseen local (∅, []))).2.

(** The ways the remote registry fails: the connection fails, no
    response arrives before the timer fires, the status is not a
    success, the body cannot be read, or it has no [servers] array. *)
Definition remoteFails (remote : Remote) (timeoutMs : N) : Prop :=
  match remote with
  | NetworkError | Hang => True
  | Respond afterMs response =>
      (timeoutMs <= afterMs)%N \/ ok response = false
      \/ body response = BodyInvalid \/ body response = BodyData None
  end.

(** The remote servers a call has to merge in: with [includeRemote]
    and a registry URL that is not empty, what [fetchRemoteServers]
    returned for that URL and the timeout of the options (five seconds
    when they give none); otherwise none. *)
Definition requestedRemoteServers (defaultRegistryUrl : jsstring)
    (network : jsstring -> Remote) (tags : list Tag)
    (options : option McpDiscoveryOptions) : list McpServerRecommendation :=
  match options with
  | Some opts =>
      match includeRemote opts,
            default defaultRegistryUrl (remoteRegistryUrl opts) with
      | Some true, c :: url =>
          match fetchRemoteServers (network (c :: url)) tags (c :: url)
                  (default DEFAULT_REMOTE_TIMEOUT_MS (remoteTimeoutMs opts))
          with
          | Ok servers => servers
          | Throw _ => []
          end
      | _, _ => []
      end
  | None => []
  end.

End DiscoverySpec.

(* ===================================================================== *)
(** ** tools/generate-claude-md.ts, tools/scaffold.ts: the tag list *)
(* ===================================================================== *)

Module Handlers.
Import JsString.

Abbreviation Tag := (list N).

Definition UNIVERSAL : Tag := js "UNIVERSAL".

(** [args.tags.includes("UNIVERSAL") ? args.tags
      : ["UNIVERSAL", ...args.tags]], the first statement of
    [generateInstructionsHandler], of [scaffoldProjectHandler] and of
    [getDesignReferenceHandler]. *)
Definition handlerTags (argsTags : list Tag) : list Tag :=
  if bool_decide (UNIVERSAL ∈ argsTags) then argsTags
  else UNIVERSAL :: argsTags.

Section Pipeline.
(** The arguments other than [tags], and the response. *)
Context {Args Response : Type}.

(** Everything a handler does after its first statement: loading and
    composing the templates, detecting the context, rendering and
    writing.  It reads [tags], never [args.tags]. *)
Variable generate : list Tag -> Args -> Response.
Variable scaffold : list Tag -> Args -> Response.

Definition generateInstructionsHandler (argsTags : list Tag) (args : Args)
  : Response :=
  let tags := handlerTags argsTags in
  generate tags args.

Definition scaffoldProjectHandler (argsTags : list Tag) (args : Args)
  : Response :=
  let tags := handlerTags argsTags in
  scaffold tags args.
End Pipeline.

End Handlers.

(* ===================================================================== *)
(** ** registry/renderer.ts: the render context *)
(* ===================================================================== *)

Module Context.
Import JsString.

Abbreviation Tag := (list N).

(** Modelled from the spec: [RenderContext] is declared in
    registry/renderer.ts, which is not among the sources.  The fields
    are the ones [detectProjectContext] fills and the specification
    lists (project name, language, tags, optional framework, domain and
    sensitive-data flag, optional key/value overrides). *)
Record RenderContext := mkContext {
  projectName : jsstring;
  language : jsstring;
  tags : list Tag;
  repoUrl : option jsstring;
  framework : option jsstring;
  domain : option jsstring;
  sensitiveData : option jsstring;
  overrides : gmap jsstring jsstring
}.

End Context.

(* ===================================================================== *)
(** ** analyzers/project-context.ts *)
(* ===================================================================== *)

Module ProjectContext.
Import JsString Context.

Definition sensitiveTags : list Tag :=
  [js "HEALTHCARE"; js "HIPAA"; js "FINTECH"; js "SOC2"].

(** [tags.some((t) => sensitiveTags.includes(t)) ? "YES" : "NO"] *)
Definition detectSensitiveData (tags : list Tag) : jsstring :=
  if existsb (fun t => bool_decide (t ∈ sensitiveTags)) tags
  then js "YES" else js "NO".

Section Probes.
(** The two probes of the project directory: the git remote
    ([detectRepoUrl]) and the framework found in the package files
    ([detectFramework]). *)
Variable detectRepoUrl : jsstring -> jsstring.
Variable detectFramework : jsstring -> jsstring -> option jsstring.

Definition detectProjectContext (projectDir projectName language : jsstring)
    (tags : list Tag) (description : option jsstring) : RenderContext :=
  let repoUrl := detectRepoUrl projectDir in
  let framework := detectFramework projectDir language in
  let domain := description in
  let sensitiveData := detectSensitiveData tags in
  {| Context.projectName := projectName;
     Context.language := language;
     Context.tags := tags;
     Context.repoUrl := Some repoUrl;
     Context.framework := framework;
     Context.domain := domain;
     Context.sensitiveData := Some sensitiveData;
     Context.overrides := ∅ |}.
End Probes.

(** A tag list is sensitive when it holds one of the four tags. *)
Definition hasSensitiveTag (tags : list Tag) : Prop :=
  exists t, In t tags /\
    (t = js "HEALTHCARE" \/ t = js "HIPAA" \/ t = js "FINTECH" \/ t = js "SOC2").

End ProjectContext.

(* ===================================================================== *)
(** ** tools/configure-mcp.ts: merging with an existing settings.json *)
(* ===================================================================== *)

Module ConfigureMcp.
Import JsString Exn.

(** What [JSON.parse] returns.  A number is the rational its finite
    double is, so that equal numbers are the same value. *)
Inductive json :=
  | JNull
  | JBool (b : bool)
  | JNum (q : Qc)
  | JStr (s : jsstring)
  | JArr (xs : list json)
  | JObj (fields : gmap jsstring json).

(** The string at each index, ["0"], ["1"], ... *)
Definition indexed {A} (xs : list A) : gmap jsstring A :=
  list_to_map (imap (fun i x => (js (pretty i), x)) xs).

Definition isHighSurrogate (c : N) : bool := (55296 <=? c) && (c <=? 56319).
Definition isLowSurrogate (c : N) : bool := (56320 <=? c) && (c <=? 57343).

(** The strings a string iterates to: one per code point. *)
Fixpoint codePoints (s : jsstring) : list jsstring :=
  match s with
  | [] => []
  | a :: r =>
      match r with
      | b :: r' =>
          if isHighSurrogate a && isLowSurrogate b
          then [a; b] :: codePoints r'
          else [a] :: codePoints r
      | [] => [[a]]
      end
  end.

(** The own enumerable properties of a value, the ones an object spread
    [{...v}] copies: [undefined], [null], booleans and numbers have
    none, arrays have their indices and strings one index per code
    unit. *)
Definition ownProps (v : option json) : gmap jsstring json :=
  match v with
  | Some (JObj fields) => fields
  | Some (JArr xs) => indexed xs
  | Some (JStr s) => indexed (map (fun c => JStr [c]) s)
  | _ => ∅
  end.

(** [v[key]] for the keys read here (["permissions"], ["allow"],
    ["mcpServers"]), none of which is inherited or a length: reading a
    property of [null] throws. *)
Definition getProp (v : json) (key : jsstring) : Result (option json) :=
  match v with
  | JNull => Throw OtherError
  | _ => Ok (ownProps (Some v) !! key)
  end.

(** [v ?? d] *)
Definition nullish (v : option json) (d : json) : json :=
  match v with
  | None | Some JNull => d
  | Some x => x
  end.

(** The elements an array spread [[...v]] takes from a value: numbers,
    booleans, [null] and plain objects are not iterable. *)
Definition iterate (v : json) : Result (list json) :=
  match v with
  | JArr xs => Ok xs
  | JStr s => Ok (map JStr (codePoints s))
  | _ => Throw OtherError
  end.

(** SameValueZero, the equality of [Set]: by value on primitives, by
    reference on arrays and objects, and two of those in one parsed
    document are never the same reference. *)
Definition sameValueZero (a b : json) : bool :=
  match a, b with
  | JNull, JNull => true
  | JBool x, JBool y => Bool.eqb x y
  | JNum x, JNum y => bool_decide (x = y)
  | JStr x, JStr y => bool_decide (x = y)
  | _, _ => false
  end.

(** [set.add(x)] on the insertion-ordered elements of a [Set]. *)
Definition setAdd (elements : list json) (x : json) : list json :=
  if existsb (sameValueZero x) elements then elements else elements ++ [x].

(** [[...new Set(xs)]] *)
Definition dedupe (xs : list json) : list json := fold_left setAdd xs [].

Record McpServerConfig := mkConfig {
  command : jsstring;
  args : list jsstring;
  env : option (gmap jsstring jsstring)
}.

(** The JSON value of one entry of [mcpConfig]. *)
Definition configJson (c : McpServerConfig) : json :=
  let base : gmap jsstring json :=
    {[ js "command" := JStr (command c);
       js "args" := JArr (map JStr (args c)) ]} in
  JObj match env c with
       | Some e => <[ js "env" := JObj (JStr <$> e) ]> base
       | None => base
       end.

(** [settings]: [{ mcpServers: mcpConfig }], with [permissions] when
    there are rules. *)
Definition newSettings (mcpConfig : gmap jsstring McpServerConfig)
    (permissionRules : list jsstring) : gmap jsstring json :=
  let settings : gmap jsstring json :=
    {[ js "mcpServers" := JObj (configJson <$> mcpConfig) ]} in
  if negb (Nat.eqb (length permissionRules) 0)
  then <[ js "permissions" :=
            JObj {[ js "allow" := JArr (map JStr permissionRules) ]} ]> settings
  else settings.

(** The body of the [try]: [existing] is what [JSON.parse] returned. *)
Definition mergeTry (existing : json)
    (mcpConfig : gmap jsstring McpServerConfig)
    (permissionRules : list jsstring) : Result (gmap jsstring json) :=
  permissions ← getProp existing (js "permissions");
  let existingPerms := nullish permissions (JObj ∅) in
  allow ← getProp existingPerms (js "allow");
  existingAllow ← iterate (nullish allow (JArr []));
  let mergedAllow := dedupe (existingAllow ++ map JStr permissionRules) in
  servers ← getProp existing (js "mcpServers");
  Ok (<[ js "mcpServers" :=
           JObj ((configJson <$> mcpConfig)
                 ∪ ownProps (Some (nullish servers (JObj ∅)))) ]>
      (<[ js "permissions" :=
            JObj (<[ js "allow" := JArr mergedAllow ]>
                    (ownProps (Some existingPerms))) ]>
       (ownProps (Some existing)))).

(** The state of [.claude/settings.json]: missing, not parseable, or
    parsed. *)
Inductive SettingsFile :=
  | Missing
  | Unparseable
  | Parsed (existing : json).

(** [merged], the record written back to [.claude/settings.json]. *)
Definition mergedSettings (file : SettingsFile)
    (mcpConfig : gmap jsstring McpServerConfig)
    (permissionRules : list jsstring) : gmap jsstring json :=
  let settings := newSettings mcpConfig permissionRules in
  match file with
  | Missing => settings
  | Unparseable => settings
  | Parsed existing =>
      match mergeTry existing mcpConfig permissionRules with
      | Ok merged => merged
      | Throw _ => settings
      end
  end.

(** *** The parts of an existing settings record *)

(** The properties of the existing [permissions], none when it is
    missing or [null]. *)
Definition existingPermissions (existing : gmap jsstring json)
  : gmap jsstring json :=
  ownProps (Some (nullish (existing !! js "permissions") (JObj ∅))).

(** The existing servers, none when [mcpServers] is missing or [null]. *)
Definition existingServers (existing : gmap jsstring json)
  : gmap jsstring json :=
  ownProps (Some (nullish (existing !! js "mcpServers") (JObj ∅))).

(** [permissions.allow] is list-valued: it is the array of the strings
    [rules], or it is missing or [null] and [rules] is empty. *)
Definition existingRules (existing : gmap jsstring json)
    (rules : list jsstring) : Prop :=
  nullish (existingPermissions existing !! js "allow") (JArr [])
  = JArr (map JStr rules).

End ConfigureMcp.

(* ===================================================================== *)
(** ** registry/renderer.ts: renderTemplate *)
(* ===================================================================== *)

Module Renderer.
Import JsString Context.

(** Modelled from the spec: registry/renderer.ts, which defines
    [renderTemplate], is not among the sources; its tests are
    (tests/registry/renderer.test.ts).  The renderer below follows
    the specification of the Renderer (variable substitution and
    conditional blocks) and gives the result each of those tests expects. *)

(** *** Scanning primitives *)

(** Modelled from the spec: the rest of [s] after the prefix [p], when
    [s] starts with [p]. *)
Fixpoint stripPrefix (p s : jsstring) : option jsstring :=
  match p, s with
  | [], _ => Some s
  | a :: p', b :: s' => if a =? b then stripPrefix p' s' else None
  | _ :: _, [] => None
  end.

(** Modelled from the spec: the text before the first occurrence of
    [pat] in [s] and the text after it. *)
Fixpoint breakOn (pat s : jsstring) {struct s} : option (jsstring * jsstring) :=
  match stripPrefix pat s with
  | Some rest => Some ([], rest)
  | None =>
      match s with
      | [] => None
      | c :: r =>
          match breakOn pat r with
          | Some (before, after) => Some (c :: before, after)
          | None => None
          end
      end
  end.

(** Modelled from the spec: [s.includes(pat)]. *)
Definition includes (s pat : jsstring) : bool :=
  match breakOn pat s with Some _ => true | None => false end.

(** Modelled from the spec: the code units of a name, which are the
    letters, the digits, the underscore and the hyphen. *)
Definition isNameChar (c : N) : bool :=
  ((97 <=? c) && (c <=? 122)) || ((65 <=? c) && (c <=? 90)) ||
  ((48 <=? c) && (c <=? 57)) || (c =? 95) || (c =? 45).

Arguments isNameChar : simpl never.

(** Modelled from the spec: the longest prefix of name characters, and
    the rest. *)
Fixpoint spanName (s : jsstring) : jsstring * jsstring :=
  match s with
  | [] => ([], [])
  | c :: r =>
      if isNameChar c
      then let '(word, rest) := spanName r in (c :: word, rest)
      else ([], s)
  end.

(** Modelled from the spec: a global replace.  At each position either
    a match is replaced and skipped, or one code unit is copied.  [skip]
    counts the code units of the current match still to pass over. *)
Fixpoint replaceAll (matchAt : jsstring -> option (jsstring * nat))
    (s : jsstring) (skip : nat) : jsstring :=
  match s with
  | [] => []
  | c :: r =>
      match skip with
      | S k => replaceAll matchAt r k
      | O =>
          match matchAt s with
          | Some (replacement, len) =>
              replacement ++ replaceAll matchAt r (Nat.pred len)
          | None => c :: replaceAll matchAt r 0
          end
      end
  end.

(** *** Placeholders *)

(** Modelled from the spec: the word separators, underscore and
    hyphen. *)
Definition isSeparator (c : N) : bool := (c =? 95) || (c =? 45).

(** Modelled from the spec: the upper case of an ASCII letter. *)
Definition toUpper (c : N) : N :=
  if (97 <=? c) && (c <=? 122) then c - 32 else c.

(** Modelled from the spec: the word-separated spelling turned into
    the field-name casing; [project_name] and [project-name] become
    [projectName]. *)
Fixpoint toCamelCase (s : jsstring) : jsstring :=
  match s with
  | [] => []
  | c :: r =>
      if isSeparator c then
        match r with
        | d :: r' => toUpper d :: toCamelCase r'
        | [] => []
        end
      else c :: toCamelCase r
  end.

(** Modelled from the spec: tags render as a space-joined list of
    bracket-wrapped names. *)
Definition formatTags (ts : list Tag) : jsstring :=
  join (js " ") (map (fun t => js "`[" ++ t ++ js "]`") ts).

(** Modelled from the spec: the value of a context field, by its
    native name. *)
Definition ctxField (ctx : RenderContext) (field : jsstring)
  : option jsstring :=
  if bool_decide (field = js "projectName") then Some (projectName ctx)
  else if bool_decide (field = js "language") then Some (language ctx)
  else if bool_decide (field = js "tags") then Some (formatTags (tags ctx))
  else if bool_decide (field = js "repoUrl") then repoUrl ctx
  else if bool_decide (field = js "framework") then framework ctx
  else if bool_decide (field = js "domain") then domain ctx
  else if bool_decide (field = js "sensitiveData") then sensitiveData ctx
  else overrides ctx !! field.

(** Modelled from the spec: a name resolves in its native casing or in
    the word-separated casing, to the same field. *)
Definition resolve (ctx : RenderContext) (name : jsstring) : option jsstring :=
  match ctxField ctx name with
  | Some v => Some v
  | None => ctxField ctx (toCamelCase name)
  end.

(** Modelled from the spec: a placeholder at the head of [s], read as
    its name, its default when it has one, and the text after it.
    Whitespace inside the braces is skipped. *)
Definition parsePlaceholder (s : jsstring)
  : option (jsstring * option jsstring * jsstring) :=
  s1 ← stripPrefix (js "{{") s;
  let '(name, s2) := spanName (trimStart s1) in
  if Nat.eqb (length name) 0 then None
  else
    let s3 := trimStart s2 in
    match stripPrefix (js "}}") s3 with
    | Some rest => Some (name, None, rest)
    | None =>
        s4 ← stripPrefix (js "|") s3;
        s5 ← stripPrefix (js "default:") (trimStart s4);
        '(value, rest) ← breakOn (js "}}") s5;
        Some (name, Some (trim value), rest)
    end.

(** Modelled from the spec: the replacement of the placeholder at the
    head of [s] and its length: the resolved value; else the default;
    else the placeholder text itself. *)
Definition matchPlaceholder (ctx : RenderContext) (s : jsstring)
  : option (jsstring * nat) :=
  '(name, dflt, rest) ← parsePlaceholder s;
  let len := (length s - length rest)%nat in
  Some (match resolve ctx name with
        | Some v => v
        | None =>
            match dflt with
            | Some d => d
            | None => take len s
            end
        end, len).

(** Modelled from the spec: the substitution of every placeholder of a
    text. *)
Definition substituteVariables (ctx : RenderContext) (s : jsstring) : jsstring :=
  replaceAll (matchPlaceholder ctx) s 0.

(** *** Conditional blocks *)

(** Modelled from the spec: the fixed set of predicates; any other
    name is false. *)
Definition evalPredicate (ctx : RenderContext) (p : jsstring) : bool :=
  if bool_decide (p = js "language_is_typescript")
  then bool_decide (language ctx = js "typescript")
  else if bool_decide (p = js "language_is_python")
  then bool_decide (language ctx = js "python")
  else false.

(** Modelled from the spec: the opening marker [{{#if p}}] at the head
    of [s], read as its predicate and the text after it. *)
Definition parseOpen (s : jsstring) : option (jsstring * jsstring) :=
  s1 ← stripPrefix (js "{{#if") s;
  match s1 with
  | c :: _ =>
      if isWhiteSpace c then
        let '(p, s2) := spanName (trimStart s1) in
        if Nat.eqb (length p) 0 then None
        else rest ← stripPrefix (js "}}") (trimStart s2); Some (p, rest)
      else None
  | [] => None
  end.

(** Modelled from the spec: the closing marker [{{/if}}] at the head of
    [s]. *)
Definition parseClose (s : jsstring) : option jsstring :=
  stripPrefix (js "{{/if}}") s.

(** Modelled from the spec: one pass over the template with the stack
    of the open blocks' predicate values.  A marker is passed over; any
    other code unit is copied when every open block is true. *)
Fixpoint scanBlocks (ctx : RenderContext) (s : jsstring) (skip : nat)
    (stack : list bool) : jsstring :=
  match s with
  | [] => []
  | c :: r =>
      match skip with
      | S k => scanBlocks ctx r k stack
      | O =>
          match parseOpen s with
          | Some (p, rest) =>
              scanBlocks ctx r (Nat.pred (length s - length rest))
                         (evalPredicate ctx p :: stack)
          | None =>
              match parseClose s, stack with
              | Some rest, _ :: outer =>
                  scanBlocks ctx r (Nat.pred (length s - length rest)) outer
              | _, _ =>
                  (if forallb id stack then [c] else [])
                    ++ scanBlocks ctx r 0 stack
              end
          end
      end
  end.

(** Modelled from the spec: the evaluation of every block of a text. *)
Definition renderConditionals (ctx : RenderContext) (s : jsstring) : jsstring :=
  scanBlocks ctx s 0 [].

(** Modelled from the spec: [renderTemplate(template, context)], the
    conditional blocks first, then the placeholders. *)
Definition renderTemplate (ctx : RenderContext) (template : jsstring)
  : jsstring :=
  substituteVariables ctx (renderConditionals ctx template).

(** *** The template syntax *)

(** A name: one or more name characters. *)
Definition isName (name : jsstring) : Prop :=
  name <> [] /\ forallb isNameChar name = true.

(** Whitespace, possibly none. *)
Definition isBlank (ws : jsstring) : Prop :=
  forallb isWhiteSpace ws = true.

(** A default value as written: no brace in it, and no whitespace at
    either end. *)
Definition isPlainValue (d : jsstring) : Prop :=
  forallb (fun c => negb (c =? 123) && negb (c =? 125)) d = true
  /\ trim d = d.

(** [{{name}}], with whitespace inside the braces. *)
Definition placeholder (ws1 name ws2 : jsstring) : jsstring :=
  js "{{" ++ ws1 ++ name ++ ws2 ++ js "}}".

(** [{{name | default: value}}], with whitespace around each part. *)
Definition placeholderWithDefault (ws1 name ws2 ws3 ws4 d ws5 : jsstring)
  : jsstring :=
  js "{{" ++ ws1 ++ name ++ ws2 ++ js "|" ++ ws3 ++ js "default:"
    ++ ws4 ++ d ++ ws5 ++ js "}}".

(** [{{#if p}}]. *)
Definition openMarker (ws1 p ws2 : jsstring) : jsstring :=
  js "{{#if" ++ ws1 ++ p ++ ws2 ++ js "}}".

(** [{{/if}}]. *)
Definition closeMarker : jsstring := js "{{/if}}".

(** A text with no block marker in it: neither ["{{#"] nor ["{{/"]. *)
Definition hasNoMarker (s : jsstring) : Prop :=
  includes s (js "{{#") = false /\ includes s (js "{{/") = false.

(** The code unit that follows a name ends it. *)
Definition endsName (k : jsstring) : Prop :=
  match k with
  | [] => True
  | c :: _ => isNameChar c = false
  end.

(** No marker starts at any code unit of [t] when [rest] follows. *)
Definition markerFree (t rest : jsstring) : Prop :=
  forall a u, t = a ++ u -> u <> [] ->
    parseOpen (u ++ rest) = None /\ parseClose (u ++ rest) = None.

(** A text with no opening brace. *)
Definition noOpenBrace (s : jsstring) : Prop :=
  forallb (fun c => negb (c =? 123)) s = true.

End Renderer.

(* ===================================================================== *)
(** ** Sample inputs *)
(* ===================================================================== *)

Module Samples.
Import JsString.

(** The texts of the merge tests of tests/registry/renderer.test.ts. *)
Definition standardsOld : jsstring :=
  doc ["## Code Standards"; "Old content"]%string.
Definition standardsNew : jsstring :=
  doc ["## Code Standards"; "New content"]%string.
Definition withCustomRules : jsstring :=
  doc ["## Code Standards"; "Generated content"; "";
       "## My Custom Rules"; "Do not use var."; "Always use strict mode."]%string.
Definition standardsUpdated : jsstring :=
  doc ["## Code Standards"; "Updated generated content"]%string.

(** A custom section with a sub-heading that the generated text has
    too. *)
Definition customWithSub : jsstring :=
  doc ["## Custom"; "body"; "### Sub"; "subbody"]%string.
Definition generatedWithSub : jsstring :=
  doc ["## Gen"; "### Sub"; "x"]%string.

(** An existing settings.json: two rules, a [deny] list, one server
    and a key of the user's own. *)
Definition existingSettings : gmap jsstring ConfigureMcp.json :=
  {[ js "permissions" :=
       ConfigureMcp.JObj
         {[ js "allow" :=
              ConfigureMcp.JArr [ConfigureMcp.JStr (js "Bash(ls)");
                                 ConfigureMcp.JStr (js "mcp__context7__*")];
            js "deny" := ConfigureMcp.JArr [ConfigureMcp.JStr (js "Bash(rm)")] ]};
     js "mcpServers" :=
       ConfigureMcp.JObj
         {[ js "context7" := ConfigureMcp.JObj {[ js "command" := ConfigureMcp.JStr (js "old") ]};
            js "mine" := ConfigureMcp.JObj {[ js "command" := ConfigureMcp.JStr (js "node") ]} ]};
     js "theme" := ConfigureMcp.JStr (js "dark") ]}.

Definition context7Config : ConfigureMcp.McpServerConfig :=
  ConfigureMcp.mkConfig (js "npx") [js "-y"; js "context7"] None.

Definition newConfig : gmap jsstring ConfigureMcp.McpServerConfig :=
  {[ js "context7" := context7Config ]}.

Definition newRules : list jsstring := [js "mcp__context7__*"].

(** A settings.json whose [permissions.allow] is a number. *)
Definition oddSettings : gmap jsstring ConfigureMcp.json :=
  {[ js "permissions" :=
       ConfigureMcp.JObj {[ js "allow" := ConfigureMcp.JNum (Q2Qc (Qmake 5 1)) ]};
     js "theme" := ConfigureMcp.JStr (js "dark") ]}.

(** A template set with one server, a registry that answers 404, one
    that answers with a server of the same name and one of its own. *)
Definition forgecraft : McpDiscovery.McpServerEntry :=
  McpDiscovery.mkEntry (js "forgecraft") (js "Built in") (js "npx")
    [js "-y"; js "forgecraft-mcp"] None [js "UNIVERSAL"]
    (js "scaffolding") None None.
Definition remoteForgecraft : McpDiscovery.McpServerEntry :=
  McpDiscovery.mkEntry (js "forgecraft")
    (js "Remote version (should be skipped)") (js "npx")
    [js "-y"; js "forgecraft-mcp-remote"] None [js "UNIVERSAL"]
    (js "scaffolding") None None.
Definition remoteOnly : McpDiscovery.McpServerEntry :=
  McpDiscovery.mkEntry (js "remote-only-server") (js "Only in remote")
    (js "npx") [js "-y"; js "remote-only"] None [js "UNIVERSAL"]
    (js "general") None None.

Definition templates : gmap (list N) McpDiscovery.TagTemplateSet :=
  {[ js "UNIVERSAL" := McpDiscovery.mkTemplateSet (Some [forgecraft]) ]}.

Definition registryUrl : jsstring := js "https://example.com/registry.json".

Definition remoteOptions : McpDiscovery.McpDiscoveryOptions :=
  McpDiscovery.mkOptions (Some true) (Some registryUrl) None.

Definition notFound (_ : jsstring) : McpDiscovery.Remote :=
  McpDiscovery.Respond 20
    (McpDiscovery.mkResponse false 404 McpDiscovery.BodyInvalid).

Definition registry (_ : jsstring) : McpDiscovery.Remote :=
  McpDiscovery.Respond 20
    (McpDiscovery.mkResponse true 200
       (McpDiscovery.BodyData (Some [remoteForgecraft; remoteOnly]))).

(** The render context of the renderer tests, for a language. *)
Definition testContext (lang : string) : Context.RenderContext :=
  Context.mkContext (js "TestProject") (js lang) [js "UNIVERSAL"; js "API"]
    None None None None ∅.

(** A comparison of names by code units, for a locale. *)
Fixpoint compareUnits (a b : jsstring) : Z :=
  match a, b with
  | [], [] => 0
  | [], _ :: _ => -1
  | _ :: _, [] => 1
  | x :: a', y :: b' =>
      if (x <? y)%N then -1 else if (y <? x)%N then 1 else compareUnits a' b'
  end.

End Samples.

(* ===================================================================== *)
(** ** shared/filesystem.ts: the file writers *)
(* ===================================================================== *)

Module FileWrites.
Import JsString Filesystem.

(** The files of the disk: the content at each path.  Directories are
    not tracked: [mkdirSync(dirname(filePath), { recursive: true })]
    and the writes themselves are taken to succeed. *)
Abbreviation Files := (gmap (list N) (list N)).

(** ["created" | "skipped" | "overwritten"] *)
Inductive WriteResult :=
  | created
  | skipped
  | overwritten.

(** [existsSync(filePath)] *)
Definition existsSync (fs : Files) (filePath : jsstring) : bool :=
  bool_decide (is_Some (fs !! filePath)).

(** [writeFileSync(filePath, content, "utf-8")] *)
Definition writeFileSync (fs : Files) (filePath content : jsstring) : Files :=
  <[filePath := content]> fs.

(** [writeFileIfMissing(filePath, content, force)]: the disk after the
    call and the result. *)
Definition writeFileIfMissing (fs : Files) (filePath content : jsstring)
    (force : bool) : Files * WriteResult :=
  let fileExists := existsSync fs filePath in
  if fileExists && negb force then (fs, skipped)
  else (writeFileSync fs filePath content,
        if fileExists then overwritten else created).

(** The text that comes back from the disk: a file is written and read
    as UTF-8, which has no encoding for a surrogate without its
    partner, so every lone surrogate of the text comes back as
    U+FFFD. *)
Fixpoint toWellFormed (s : jsstring) : jsstring :=
  match s with
  | [] => []
  | a :: r =>
      if ConfigureMcp.isHighSurrogate a then
        match r with
        | b :: r' =>
            if ConfigureMcp.isLowSurrogate b
            then a :: b :: toWellFormed r'
            else 65533 :: toWellFormed r
        | [] => [65533]
        end
      else if ConfigureMcp.isLowSurrogate a then 65533 :: toWellFormed r
      else a :: toWellFormed r
  end.

(** [readFileSync(filePath, "utf-8")] of a file that exists: the disk
    holds for each file the text last written to it, or for a file
    that was there before a text with the file's bytes as its
    encoding. *)
Definition readFileSync (fs : Files) (filePath : jsstring)
  : option jsstring :=
  toWellFormed <$> fs !! filePath.

(** [writeInstructionFileWithMerge(filePath, content)] *)
Definition writeInstructionFileWithMerge (fs : Files)
    (filePath content : jsstring) : Files :=
  match readFileSync fs filePath with
  | Some existing =>
      writeFileSync fs filePath (mergeInstructionFiles existing content)
  | None => writeFileSync fs filePath content
  end.

(** A text without lone surrogates: code units that are no surrogates,
    and pairs of a high and a low surrogate. *)
Inductive wellFormed : jsstring -> Prop :=
  | wellFormed_nil : wellFormed []
  | wellFormed_unit (c : N) (s : jsstring) :
      ConfigureMcp.isHighSurrogate c = false ->
      ConfigureMcp.isLowSurrogate c = false ->
      wellFormed s -> wellFormed (c :: s)
  | wellFormed_pair (a b : N) (s : jsstring) :
      ConfigureMcp.isHighSurrogate a = true ->
      ConfigureMcp.isLowSurrogate b = true ->
      wellFormed s -> wellFormed (a :: b :: s).

End FileWrites.

(* ===================================================================== *)
(** ** tools/scaffold.ts: the tracked writes *)
(* ===================================================================== *)

Module Scaffold.
Import JsString FileWrites.

(** The disk and the two arrays [trackWrite] pushes to. *)
Record Tracked := mkTracked {
  files : Files;
  filesCreated : list jsstring;
  filesSkipped : list jsstring
}.

(** The arguments of one [trackWrite] call. *)
Record Write := mkWrite {
  relativePath : jsstring;
  filePath : jsstring;
  content : jsstring
}.

(** [trackWrite(relativePath, filePath, content)], with [args.force]. *)
Definition trackWrite (force : bool) (st : Tracked) (w : Write) : Tracked :=
  let (fs, result) :=
    writeFileIfMissing (files st) (filePath w) (content w) force in
  match result with
  | skipped => mkTracked fs (filesCreated st) (filesSkipped st ++ [relativePath w])
  | _ => mkTracked fs (filesCreated st ++ [relativePath w]) (filesSkipped st)
  end.

(** The [trackWrite] calls of [scaffoldProjectHandler], one after the
    other: the instruction files, [Status.md], the documents,
    [.env.example], the hooks, the skills and [.gitignore]. *)
Definition trackWrites (force : bool) (st : Tracked) (ws : list Write)
  : Tracked :=
  fold_left (trackWrite force) ws st.

End Scaffold.

(* ===================================================================== *)
(** ** The merge engine: what a second merge finds *)
(* ===================================================================== *)

Module RemergeSpec.
Import JsString Filesystem.

(** A line feed added to every text but the last. *)
Fixpoint lineFeedAfterAllButLast (texts : list jsstring) : list jsstring :=
  match texts with
  | [] => []
  | [t] => [t]
  | t :: rest => (t ++ nl) :: lineFeedAfterAllButLast rest
  end.

(** The separator comment, a line of its own. *)
Definition separatorComment : jsstring :=
  js "<!-- Custom Sections (preserved from previous file) -->".

(** A text without a line feed. *)
Definition oneLine (l : jsstring) : Prop := ~ In LF l.

(** A heading line and body lines, none of them a heading. *)
Definition isSection (sec : jsstring * list jsstring) : Prop :=
  isHeading (fst sec) = true /\
  Forall oneLine (fst sec :: snd sec) /\
  Forall (fun l => isHeading l = false) (snd sec).

(** The lines of sections written one after the other with an empty
    line between them. *)
Fixpoint sectionLines (secs : list (jsstring * list jsstring))
  : list jsstring :=
  match secs with
  | [] => [[]]
  | [sec] => fst sec :: snd sec
  | sec :: rest => (fst sec :: snd sec) ++ [] :: sectionLines rest
  end.

(** An empty line added to the body of every section but the last. *)
Fixpoint emptyLineAfterAllButLast (secs : list (jsstring * list jsstring))
  : list (jsstring * list jsstring) :=
  match secs with
  | [] => []
  | [sec] => [sec]
  | sec :: rest => (fst sec, snd sec ++ [[]]) :: emptyLineAfterAllButLast rest
  end.

End RemergeSpec.

(* ===================================================================== *)
(** ** More sample inputs *)
(* ===================================================================== *)

Module MoreSamples.
Import JsString.

(** A disk with one instruction file. *)
Definition disk : FileWrites.Files :=
  {[ js "CLAUDE.md" := Samples.withCustomRules ]}.

(** An existing file with a title, an introduction and two custom
    sections. *)
Definition titled : jsstring :=
  doc ["# My project"; ""; "An introduction."]%string.
Definition twoCustom : jsstring :=
  doc ["## Code Standards"; "Old"; "## Mine"; "a"; "## Also mine"; "b"]%string.

End MoreSamples.

(* ===================================================================== *)
(** ** Discovery: order, provenance and the registry's answer *)
(* ===================================================================== *)

Module DiscoveryOrder.
Import JsString Exn McpDiscovery.

(** A comparator that is a total preorder, as [localeCompare] is for
    any one locale: two strings compare one way or the other, and the
    comparison is transitive. *)
Definition consistentCompare {A} (cmp : A -> A -> Z) : Prop :=
  (forall a b, (cmp a b <= 0)%Z \/ (cmp b a <= 0)%Z) /\
  (forall a b c, (cmp a b <= 0)%Z -> (cmp b c <= 0)%Z -> (cmp a c <= 0)%Z).

(** The order of the result: more tags first, and among servers with
    the same number of tags the name that does not compare greater. *)
Definition comesBefore (localeCompare : jsstring -> jsstring -> Z)
    (a b : McpServerRecommendation) : Prop :=
  (length (relevantTags b) < length (relevantTags a))%nat \/
  (length (relevantTags a) = length (relevantTags b) /\
   (localeCompare (name a) (name b) <= 0)%Z).

(** The server entries of the requested tags, in the order
    [loadLocalServers] visits them. *)
Definition templateEntries (templates : gmap Tag TagTemplateSet)
    (tags : list Tag) : list McpServerEntry :=
  flat_map
    (fun tag =>
       match templates !! tag with
       | Some templateSet => default [] (mcpServers templateSet)
       | None => []
       end)
    tags.

(** The options with which [discoverServers] makes no request: none
    given, [includeRemote] not [true], or an empty registry URL. *)
Definition remoteDisabled (defaultRegistryUrl : jsstring)
    (options : option McpDiscoveryOptions) : Prop :=
  match options with
  | None => True
  | Some opts =>
      includeRemote opts <> Some true \/
      default defaultRegistryUrl (remoteRegistryUrl opts) = []
  end.

(** The registry answers in time, with a success status and a
    [servers] array. *)
Definition registryAnswers (remote : Remote) (timeoutMs : N)
    (servers : list McpServerEntry) : Prop :=
  exists afterMs response,
    remote = Respond afterMs response /\ (afterMs < timeoutMs)%N /\
    ok response = true /\ body response = BodyData (Some servers).

End DiscoveryOrder.

(* ===================================================================== *)
(** ** JavaScript objects used as records of servers *)
(* ===================================================================== *)

Module JsObject.
Import JsString.

(** The own properties of an object literal that is filled by
    assignments [o[key] = value]: key and value, in the order the keys
    were created. *)
Definition object (V : Type) : Type := list (jsstring * V).

Definition isDigit (c : N) : bool := (48 <=? c) && (c <=? 57).

Definition digitsValue (s : jsstring) : N :=
  fold_left (fun acc c => 10 * acc + (c - 48)) s 0.

(** An array index: the canonical decimal string of an integer from 0
    to 2^32 - 2.  [Object.keys] lists these keys first, in ascending
    order. *)
Definition arrayIndex (key : jsstring) : option N :=
  match key with
  | [] => None
  | c :: rest =>
      if forallb isDigit key && (negb (c =? 48) || Nat.eqb (length rest) 0)
         && (digitsValue key <? 4294967295)
      then Some (digitsValue key)
      else None
  end.

Definition isArrayIndex (key : jsstring) : bool :=
  bool_decide (is_Some (arrayIndex key)).

(** The own property [o[key]]. *)
Definition get {V} (o : object V) (key : jsstring) : option V :=
  snd <$> List.find (fun kv => bool_decide (fst kv = key)) o.

(** [o[key] = value], for a value that is an object.  An existing key
    keeps its place; a new key is created last.  The key ["__proto__"]
    creates no property: the assignment runs the setter that
    [Object.prototype] has for it and replaces the prototype. *)
Definition set {V} (o : object V) (key : jsstring) (value : V) : object V :=
  if bool_decide (key = js "__proto__") then o
  else if bool_decide (is_Some (get o key))
  then map (fun kv => if bool_decide (fst kv = key) then (key, value) else kv) o
  else o ++ [(key, value)].

(** The assignments [o[key] = value] for the pairs of a list, in
    order. *)
Definition assignAll {V} (o : object V) (kvs : list (jsstring * V))
  : object V :=
  fold_left (fun o kv => set o (fst kv) (snd kv)) kvs o.

(** The comparator of two array-index keys. *)
Definition compareIndex {V} (a b : jsstring * V) : Z :=
  (Z.of_N (default 0%N (arrayIndex (fst a)))
   - Z.of_N (default 0%N (arrayIndex (fst b))))%Z.

(** [Object.entries(o)]: the array indices in ascending order, then
    the other keys in creation order. *)
Definition entries {V} (o : object V) : list (jsstring * V) :=
  McpDiscovery.sortWith compareIndex
    (List.filter (fun kv => isArrayIndex (fst kv)) o)
  ++ List.filter (fun kv => negb (isArrayIndex (fst kv))) o.

(** [Object.keys(o)] *)
Definition keys {V} (o : object V) : list jsstring := map fst (entries o).

End JsObject.

(* ===================================================================== *)
(** ** tools/configure-mcp.ts: the servers, their rules and the limit *)
(* ===================================================================== *)

Module ConfigureMcpHandler.
Import JsString McpDiscovery JsObject.

(** What [TIER_PRIORITY[key]] reads: a number for the three own keys,
    [undefined] for a key the object does not have, and for a property
    name of [Object.prototype] the inherited function or object. *)
Inductive TierValue :=
  | Priority (n : Z)
  | Undefined
  | Inherited.

(** The property names every object inherits from [Object.prototype]. *)
Definition inheritedNames : list jsstring :=
  map js ["constructor"; "__defineGetter__"; "__defineSetter__";
          "hasOwnProperty"; "__lookupGetter__"; "__lookupSetter__";
          "isPrototypeOf"; "propertyIsEnumerable"; "toString"; "valueOf";
          "__proto__"; "toLocaleString"]%string.

Definition TIER_PRIORITY (key : jsstring) : TierValue :=
  if bool_decide (key = js "core") then Priority 0
  else if bool_decide (key = js "recommended") then Priority 1
  else if bool_decide (key = js "optional") then Priority 2
  else if bool_decide (key ∈ inheritedNames) then Inherited
  else Undefined.

(** [TIER_PRIORITY[r.tier ?? "recommended"] ?? 1] *)
Definition tierOf (r : McpServerRecommendation) : TierValue :=
  match TIER_PRIORITY (default (js "recommended") (tier r)) with
  | Undefined => Priority 1
  | v => v
  end.

(** The comparator of the sort, [aTier - bTier]: with a function or an
    object on either side the difference is [NaN], which the sort
    takes for zero. *)
Definition compareTiers (a b : McpServerRecommendation) : Z :=
  match tierOf a, tierOf b with
  | Priority x, Priority y => (x - y)%Z
  | _, _ => 0%Z
  end.

(** [filterByTierPriority] *)
Definition filterByTierPriority (recommendations : list McpServerRecommendation)
    (maxCount : nat) : list McpServerRecommendation :=
  take maxCount (sortWith compareTiers recommendations).

(** [if (args.max_servers && recommendations.length > args.max_servers)] *)
Definition limitServers (max_servers : option nat)
    (recommendations : list McpServerRecommendation)
  : list McpServerRecommendation :=
  match max_servers with
  | Some m =>
      if negb (Nat.eqb m 0) && (m <? length recommendations)%nat
      then filterByTierPriority recommendations m
      else recommendations
  | None => recommendations
  end.

(** A value of [servers]: the configuration with its [source] and
    [description]. *)
Record ServerInfo := mkInfo {
  config : ConfigureMcp.McpServerConfig;
  info_source : jsstring;
  info_description : option jsstring
}.

Definition recommendedServer (rec : McpServerRecommendation) : ServerInfo :=
  mkInfo (ConfigureMcp.mkConfig (command rec) (args rec) (env rec))
         (source rec) (Some (description rec)).

(** [{ ...config, source: "custom" }] *)
Definition customServer (c : ConfigureMcp.McpServerConfig) : ServerInfo :=
  mkInfo c (js "custom") None.

(** [servers]: the recommendations first, then the custom servers;
    [custom_servers] is [Object.entries(args.custom_servers)], empty
    when the argument is absent. *)
Definition configuredServers (recommendations : list McpServerRecommendation)
    (custom_servers : list (jsstring * ConfigureMcp.McpServerConfig))
  : object ServerInfo :=
  fold_left (fun servers nc => set servers (fst nc) (customServer (snd nc)))
    custom_servers
    (fold_left (fun servers rec => set servers (name rec) (recommendedServer rec))
       recommendations []).

(** [mcpConfig] *)
Definition mcpConfigOf (servers : object ServerInfo)
  : object ConfigureMcp.McpServerConfig :=
  fold_left (fun mcpConfig ni => set mcpConfig (fst ni) (config (snd ni)))
    (entries servers) [].

(** [`mcp__${serverName}__*`] *)
Definition permissionRule (serverName : jsstring) : jsstring :=
  js "mcp__" ++ serverName ++ js "__*".

(** [permissionRules] *)
Definition permissionRulesOf (auto_approve_tools : bool)
    (servers : object ServerInfo) : list jsstring :=
  if auto_approve_tools then map permissionRule (keys servers) else [].

(** The record written to [.claude/settings.json]: [recommendations]
    is what [discoverServers] returned. *)
Definition configureMcpSettings (recommendations : list McpServerRecommendation)
    (max_servers : option nat)
    (custom_servers : list (jsstring * ConfigureMcp.McpServerConfig))
    (auto_approve_tools : bool) (file : ConfigureMcp.SettingsFile)
  : gmap jsstring ConfigureMcp.json :=
  let servers :=
    configuredServers (limitServers max_servers recommendations)
      custom_servers in
  ConfigureMcp.mergedSettings file
    (list_to_map (mcpConfigOf servers))
    (permissionRulesOf auto_approve_tools servers).

(** The priority of a tier as a number, for tiers that are no
    inherited property names. *)
Definition tierPriority (r : McpServerRecommendation) : Z :=
  match tierOf r with
  | Priority n => n
  | _ => 1%Z
  end.

(** No tier is the name of a property of [Object.prototype]. *)
Definition ordinaryTiers (recommendations : list McpServerRecommendation)
  : Prop :=
  Forall (fun r => tierOf r <> Inherited) recommendations.

End ConfigureMcpHandler.

Module ConfigureSamples.
Import JsString.

(** Three recommendations, one of each tier, the core one last, and a
    custom server with the name of the core one. *)
Definition threeTiers : list McpDiscovery.McpServerRecommendation :=
  [McpDiscovery.mkRec (js "optional-one") (js "An optional server") (js "npx")
     [js "optional"] None [js "UNIVERSAL"] (js "general") None
     (js "built-in") (Some (js "optional"));
   McpDiscovery.mkRec (js "plain-one") (js "A server without a tier")
     (js "npx") [js "plain"] None [js "UNIVERSAL"] (js "general") None
     (js "built-in") None;
   McpDiscovery.mkRec (js "core-one") (js "A core server") (js "npx")
     [js "core"] None [js "UNIVERSAL"] (js "general") None
     (js "built-in") (Some (js "core"))].

Definition customServers : list (jsstring * ConfigureMcp.McpServerConfig) :=
  [(js "core-one", ConfigureMcp.mkConfig (js "node") [js "mine.js"] None)].

End ConfigureSamples.

(* ===================================================================== *)
(** ** analyzers/project-context.ts: the repository URL and the framework *)
(* ===================================================================== *)

Module ProjectProbes.
Import JsString Exn ConfigureMcp.

(** [s.endsWith(suffix)] *)
Definition endsWith (s suffix : jsstring) : bool :=
  startsWith (rev s) (rev suffix).

(** [s.replace(pattern, replacement)] for a string pattern and a
    replacement without [$]: the first occurrence is replaced. *)
Fixpoint replaceFirst (pattern replacement s : jsstring) : jsstring :=
  if startsWith s pattern then replacement ++ drop (length pattern) s
  else match s with
       | [] => []
       | c :: rest => c :: replaceFirst pattern replacement rest
       end.

(** [s.replace(/\.git$/, "")] *)
Definition stripGitSuffix (s : jsstring) : jsstring :=
  if endsWith s (js ".git") then take (length s - 4) s else s.

(** [detectRepoUrl]: [gitRemote] is what
    [execSync("git remote get-url origin", ...)] printed, or nothing
    when it threw. *)
Definition detectRepoUrl (gitRemote : option jsstring) : jsstring :=
  match gitRemote with
  | Some output =>
      let url := trim output in
      if startsWith url (js "git@")
      then stripGitSuffix
             (replaceFirst (js ":") (js "/")
                (replaceFirst (js "git@") (js "https://") url))
      else stripGitSuffix url
  | None => []
  end.

(** [TS_FRAMEWORK_PATTERNS] *)
Definition TS_FRAMEWORK_PATTERNS : list (list jsstring * jsstring) :=
  [([js "next"], js "Next.js");
   ([js "@remix-run/react"], js "Remix");
   ([js "nuxt"], js "Nuxt");
   ([js "@angular/core"], js "Angular");
   ([js "vue"], js "Vue");
   ([js "svelte"], js "Svelte");
   ([js "fastify"], js "Fastify");
   ([js "express"], js "Express");
   ([js "nestjs"; js "@nestjs/core"], js "NestJS");
   ([js "hono"], js "Hono");
   ([js "react"], js "React")].

(** The state of [package.json]: missing, not readable or not
    parseable, or parsed. *)
Inductive PackageFile :=
  | NoPackageFile
  | BadPackageFile
  | ParsedPackage (pkg : json).

(** [{ ...pkg["dependencies"], ...pkg["devDependencies"] }] *)
Definition allDeps (pkg : json) : Result (gmap jsstring json) :=
  dependencies ← getProp pkg (js "dependencies");
  devDependencies ← getProp pkg (js "devDependencies");
  Ok (ownProps devDependencies ∪ ownProps dependencies).

(** The loop over the patterns: the name of the first pattern one of
    whose packages is a key of [allDeps]. *)
Definition firstFramework (deps : gmap jsstring json) : option jsstring :=
  snd <$> List.find
            (fun pattern =>
               existsb (fun p => bool_decide (is_Some (deps !! p)))
                       (fst pattern))
            TS_FRAMEWORK_PATTERNS.

(** [detectTypeScriptFramework] *)
Definition detectTypeScriptFramework (file : PackageFile) : option jsstring :=
  match file with
  | NoPackageFile => None
  | BadPackageFile => None
  | ParsedPackage pkg =>
      match allDeps pkg with
      | Ok deps => firstFramework deps
      | Throw _ => None
      end
  end.

(** The packages of the patterns before the last one. *)
Definition otherFrameworkPackages : list jsstring :=
  flat_map fst (removelast TS_FRAMEWORK_PATTERNS).

End ProjectProbes.

(* ===================================================================== *)
(** ** analyzers/language-detector.ts *)
(* ===================================================================== *)

Module LanguageDetector.
Import JsString ProjectProbes.

Inductive SupportedLanguage :=
  | typescript
  | python.

Definition PYTHON_INDICATORS : list jsstring :=
  map js ["pyproject.toml"; "setup.py"; "setup.cfg"; "requirements.txt";
          "Pipfile"]%string.

Definition TYPESCRIPT_INDICATORS : list jsstring :=
  map js ["tsconfig.json"; "package.json"]%string.

(** The directory [src] of the project: missing, not readable, or its
    entries in the order [readdirSync] gives them. *)
Inductive SrcDir :=
  | NoSrc
  | SrcUnreadable
  | SrcEntries (entries : list jsstring).

(** What the detector looks at: which files exist in the project
    directory, and its [src] directory. *)
Record Project := mkProject {
  hasFile : jsstring -> bool;
  src : SrcDir
}.

(** The body of the loop over the entries: the two counters. *)
Definition countStep (counts : nat * nat) (name : jsstring) : nat * nat :=
  if endsWith name (js ".py") then (S (fst counts), snd counts)
  else if endsWith name (js ".ts") || endsWith name (js ".tsx")
          || endsWith name (js ".js") || endsWith name (js ".jsx")
  then (fst counts, S (snd counts))
  else counts.

(** [countSourceFiles] *)
Definition countSourceFiles (srcDir : SrcDir) : SupportedLanguage :=
  match srcDir with
  | NoSrc => typescript
  | SrcUnreadable => typescript
  | SrcEntries entries =>
      let limited := take 100 entries in
      let counts := fold_left countStep limited (0%nat, 0%nat) in
      if (snd counts <? fst counts)%nat then python else typescript
  end.

(** [detectLanguage] *)
Definition detectLanguage (project : Project) : SupportedLanguage :=
  let hasPython := existsb (hasFile project) PYTHON_INDICATORS in
  let hasTypeScript := existsb (hasFile project) TYPESCRIPT_INDICATORS in
  if hasPython && negb hasTypeScript then python
  else if hasTypeScript && negb hasPython then typescript
  else if hasPython && hasTypeScript then countSourceFiles (src project)
  else typescript.

(** The entries that count for a language: by their extension. *)
Definition isPythonFile (name : jsstring) : bool := endsWith name (js ".py").

Definition isTypeScriptFile (name : jsstring) : bool :=
  endsWith name (js ".ts") || endsWith name (js ".tsx")
  || endsWith name (js ".js") || endsWith name (js ".jsx").

End LanguageDetector.

Module ProbeSamples.
Import JsString ConfigureMcp.

(** An SSH remote as [git] prints it, and a [package.json] with Next.js
    and React. *)
Definition sshRemote : jsstring := js "github.com:test/project.git".

Definition nextAndReact : json :=
  JObj {[ js "dependencies" :=
            JObj {[ js "react" := JStr (js "^18.0.0");
                    js "next" := JStr (js "^14.0.0") ]} ]}.

(** A mixed project with more Python than TypeScript files in [src]. *)
Definition mixedProject : LanguageDetector.Project :=
  LanguageDetector.mkProject
    (fun f => bool_decide (f = js "package.json")
              || bool_decide (f = js "requirements.txt"))
    (LanguageDetector.SrcEntries
       [js "main.py"; js "utils.py"; js "helper.ts"]).

End ProbeSamples.

(* ===================================================================== *)
(** ** tools/configure-mcp.ts: settings that cannot be merged *)
(* ===================================================================== *)

Module SettingsSpec.
Import JsString Exn ConfigureMcp.

(** [existing.permissions?.allow] as the merge reads it:
    [(existing["permissions"] ?? {})["allow"]]. *)
Definition allowOf (existing : json) : option json :=
  ownProps (Some (nullish (ownProps (Some existing) !! js "permissions")
                          (JObj ∅)))
    !! js "allow".

(** The parsed settings with which the merge throws: [null] itself, or
    an [allow] that is a boolean, a number or an object, none of which
    can be spread into an array. *)
Definition unmergeable (existing : json) : Prop :=
  existing = JNull \/
  match allowOf existing with
  | Some (JBool _) | Some (JNum _) | Some (JObj _) => True
  | _ => False
  end.

End SettingsSpec.

(* ===================================================================== *)
(** ** tools/forgecraft-router.ts *)
(* ===================================================================== *)

Module Router.
Import JsString.

Abbreviation Tag := (list N).

(** [Action], the values of [ACTIONS]. *)
Inductive Action :=
  | act_refresh
  | act_scaffold
  | act_generate
  | act_audit
  | act_review
  | act_list
  | act_classify
  | act_add_hook
  | act_add_module
  | act_configure_mcp
  | act_get_reference
  | act_convert.

(** The string of an action, as the error messages spell it. *)
Definition actionName (a : Action) : jsstring :=
  match a with
  | act_refresh => js "refresh"
  | act_scaffold => js "scaffold"
  | act_generate => js "generate"
  | act_audit => js "audit"
  | act_review => js "review"
  | act_list => js "list"
  | act_classify => js "classify"
  | act_add_hook => js "add_hook"
  | act_add_module => js "add_module"
  | act_configure_mcp => js "configure_mcp"
  | act_get_reference => js "get_reference"
  | act_convert => js "convert"
  end.

(** [ForgecraftArgs]: every parameter but [action] is optional. *)
Record ForgecraftArgs := mkArgs {
  action : Action;
  project_dir : option jsstring;
  tags : option (list Tag);
  project_name : option jsstring;
  output_targets : option (list jsstring);
  tier : option jsstring;
  resource : option jsstring;
  name : option jsstring;
  language : option jsstring;
  description : option jsstring;
  dry_run : option bool;
  force : option bool;
  apply : option bool;
  merge : option bool;
  scope : option jsstring;
  scan_depth : option jsstring;
  tag : option Tag;
  add_tags : option (list Tag);
  remove_tags : option (list Tag);
  include_anti_patterns : option bool;
  custom_servers : option (list (jsstring * ConfigureMcp.McpServerConfig));
  auto_approve_tools : option bool;
  include_remote : option bool;
  remote_registry_url : option jsstring;
  max_servers : option nat
}.

(** The handler the router hands over to, with the arguments it
    builds. *)
Inductive Call :=
  | listTagsHandler
  | listHooksHandler (tags : option (list Tag))
  | listSkillsHandler (tags : option (list Tag))
  | getNfrTemplateHandler (tags : list Tag)
  | getDesignReferenceHandler (tags : list Tag)
  | classifyProjectHandler (project_dir description : option jsstring)
  | refreshProjectHandler (project_dir : jsstring) (apply : bool)
      (tier : option jsstring) (add_tags remove_tags : option (list Tag))
      (output_targets : option (list jsstring))
  | scaffoldProjectHandler (tags : list Tag)
      (project_dir project_name language : jsstring) (dry_run force : bool)
      (output_targets : list jsstring)
  | generateInstructionsHandler (tags : list Tag)
      (project_dir : option jsstring) (project_name : jsstring)
      (output_targets : list jsstring) (merge_with_existing : bool)
  | auditProjectHandler (tags : list Tag) (project_dir : jsstring)
      (include_anti_patterns : bool)
  | reviewProjectHandler (tags : list Tag) (scope : jsstring)
  | addHookHandler (hook project_dir : jsstring) (tag : option Tag)
  | addModuleHandler (module_name project_dir : jsstring) (tags : list Tag)
      (language : jsstring)
  | configureMcpHandler (tags : list Tag) (project_dir : jsstring)
      (custom_servers :
         option (list (jsstring * ConfigureMcp.McpServerConfig)))
      (auto_approve_tools include_remote : bool)
      (remote_registry_url : option jsstring) (max_servers : option nat)
  | convertExistingHandler (tags : list Tag) (project_dir : jsstring)
      (scan_depth : jsstring).

(** What the router does: it throws an [Error] with a message, returns
    an error result with a text, or returns what a handler returns. *)
Inductive Outcome :=
  | Throws (message : jsstring)
  | ErrorResult (text : jsstring)
  | Delegates (call : Call).

(** A step that gives a value or throws. *)
Definition Required (A : Type) : Type := jsstring + A.

(** The message of [requireParam]. *)
Definition missingParameter (paramName action : jsstring) : jsstring :=
  js "Missing required parameter '" ++ paramName ++ js "' for action '"
    ++ action ++ js "'.".

(** [requireParam] for a parameter that is no array. *)
Definition requireParam {A} (value : option A) (paramName action : jsstring)
  : Required A :=
  match value with
  | Some v => inr v
  | None => inl (missingParameter paramName action)
  end.

(** [requireParam] for an array: an empty one is missing too. *)
Definition requireArray {A} (value : option (list A))
    (paramName action : jsstring) : Required (list A) :=
  match value with
  | Some (x :: xs) => inr (x :: xs)
  | Some [] | None => inl (missingParameter paramName action)
  end.

(** The arguments are evaluated in order: the first [throw] ends the
    call. *)
Definition andThen {A} (r : Required A) (k : A -> Outcome) : Outcome :=
  match r with
  | inl message => Throws message
  | inr v => k v
  end.

(** [errorResult] *)
Definition errorResult (message : jsstring) : Outcome :=
  ErrorResult (js "Error: " ++ message).

(** [dispatchList] *)
Definition dispatchList (args : ForgecraftArgs) : Outcome :=
  let resource := default (js "tags") (resource args) in
  if bool_decide (resource = js "tags") then Delegates listTagsHandler
  else if bool_decide (resource = js "hooks")
  then Delegates (listHooksHandler (tags args))
  else if bool_decide (resource = js "skills")
  then Delegates (listSkillsHandler (tags args))
  else errorResult (js "Invalid resource '" ++ resource
                      ++ js "' for list action. Use: tags, hooks, or skills.").

(** [dispatchGetReference] *)
Definition dispatchGetReference (args : ForgecraftArgs) : Outcome :=
  let resource := default (js "design_patterns") (resource args) in
  andThen (requireArray (tags args) (js "tags") (js "get_reference"))
    (fun tags =>
       if bool_decide (resource = js "nfr")
       then Delegates (getNfrTemplateHandler tags)
       else if bool_decide (resource = js "design_patterns")
       then Delegates (getDesignReferenceHandler tags)
       else errorResult
              (js "Invalid resource '" ++ resource
                 ++ js "' for get_reference action. Use: nfr or design_patterns.")).

(** [forgecraftHandler] *)
Definition forgecraftHandler (args : ForgecraftArgs) : Outcome :=
  match action args with
  | act_list => dispatchList args
  | act_get_reference => dispatchGetReference args
  | act_classify =>
      Delegates (classifyProjectHandler (project_dir args) (description args))
  | act_refresh =>
      andThen (requireParam (project_dir args) (js "project_dir") (js "refresh"))
        (fun dir =>
           Delegates (refreshProjectHandler dir (default false (apply args))
                        (tier args) (add_tags args) (remove_tags args)
                        (output_targets args)))
  | act_scaffold =>
      andThen (requireArray (tags args) (js "tags") (js "scaffold"))
        (fun tags =>
      andThen (requireParam (project_dir args) (js "project_dir") (js "scaffold"))
        (fun dir =>
           Delegates (scaffoldProjectHandler tags dir
                        (default (js "My Project") (project_name args))
                        (default (js "typescript") (language args))
                        (default false (dry_run args))
                        (default false (force args))
                        (default [js "claude"] (output_targets args)))))
  | act_generate =>
      andThen (requireArray (tags args) (js "tags") (js "generate"))
        (fun tags =>
           Delegates (generateInstructionsHandler tags (project_dir args)
                        (default (js "My Project") (project_name args))
                        (default [js "claude"] (output_targets args))
                        (default true (merge args))))
  | act_audit =>
      andThen (requireArray (tags args) (js "tags") (js "audit"))
        (fun tags =>
      andThen (requireParam (project_dir args) (js "project_dir") (js "audit"))
        (fun dir =>
           Delegates (auditProjectHandler tags dir
                        (default true (include_anti_patterns args)))))
  | act_review =>
      andThen (requireArray (tags args) (js "tags") (js "review"))
        (fun tags =>
           Delegates (reviewProjectHandler tags
                        (default (js "comprehensive") (scope args))))
  | act_add_hook =>
      andThen (requireParam (name args) (js "name") (js "add_hook"))
        (fun hook =>
      andThen (requireParam (project_dir args) (js "project_dir") (js "add_hook"))
        (fun dir => Delegates (addHookHandler hook dir (tag args))))
  | act_add_module =>
      andThen (requireParam (name args) (js "name") (js "add_module"))
        (fun module_name =>
      andThen (requireParam (project_dir args) (js "project_dir")
                 (js "add_module"))
        (fun dir =>
           Delegates (addModuleHandler module_name dir
                        (default [js "UNIVERSAL"] (tags args))
                        (default (js "typescript") (language args)))))
  | act_configure_mcp =>
      andThen (requireArray (tags args) (js "tags") (js "configure_mcp"))
        (fun tags =>
      andThen (requireParam (project_dir args) (js "project_dir")
                 (js "configure_mcp"))
        (fun dir =>
           Delegates (configureMcpHandler tags dir (custom_servers args)
                        (default true (auto_approve_tools args))
                        (default false (include_remote args))
                        (remote_registry_url args) (max_servers args))))
  | act_convert =>
      andThen (requireArray (tags args) (js "tags") (js "convert"))
        (fun tags =>
      andThen (requireParam (project_dir args) (js "project_dir") (js "convert"))
        (fun dir =>
           Delegates (convertExistingHandler tags dir
                        (default (js "quick") (scan_depth args)))))
  end.

(** The actions that do not run without tags. *)
Definition needsTags (a : Action) : bool :=
  match a with
  | act_scaffold | act_generate | act_audit | act_review
  | act_configure_mcp | act_get_reference | act_convert => true
  | _ => false
  end.

(** The tags are absent or an empty array. *)
Definition noTags (args : ForgecraftArgs) : Prop :=
  tags args = None \/ tags args = Some [].

(** The tags a handler is called with, against the caller's
    [args.tags]: the handlers of the seven actions that need tags get
    the caller's tags, which are not empty; [addModuleHandler] gets
    [args.tags ?? ["UNIVERSAL"]], the caller's tags when there are any,
    an empty array included; [listHooksHandler] and [listSkillsHandler]
    get [args.tags] as it is, absent or empty included; the other
    handlers take no tags. *)
Definition tagsAsGiven (argsTags : option (list Tag)) (call : Call) : Prop :=
  match call with
  | getNfrTemplateHandler tags | getDesignReferenceHandler tags
  | scaffoldProjectHandler tags _ _ _ _ _ _
  | generateInstructionsHandler tags _ _ _ _
  | auditProjectHandler tags _ _ | reviewProjectHandler tags _
  | configureMcpHandler tags _ _ _ _ _ _
  | convertExistingHandler tags _ _ => argsTags = Some tags /\ tags <> []
  | addModuleHandler _ _ tags _ =>
      tags = match argsTags with
             | Some given => given
             | None => [js "UNIVERSAL"]
             end
  | listHooksHandler tags | listSkillsHandler tags => tags = argsTags
  | listTagsHandler | classifyProjectHandler _ _
  | refreshProjectHandler _ _ _ _ _ _ | addHookHandler _ _ _ => True
  end.

End Router.

Module RouterSamples.
Import JsString Router.

(** A call with only its action. *)
Definition onlyAction (a : Action) : ForgecraftArgs :=
  mkArgs a None None None None None None None None None None None None None
    None None None None None None None None None None None.

(** An [add_module] call with [tags: []]. *)
Definition emptyTagsModule : ForgecraftArgs :=
  mkArgs act_add_module (Some (js "/project")) (Some []) None None None None
    (Some (js "auth")) None None None None None None None None None None
    None None None None None None None.

End RouterSamples.

(* ===================================================================== *)
(** ** registry/mcp-discovery.ts: the remote fetch in detail *)
(* ===================================================================== *)

Module RemoteRegistry.
Import JsString Exn McpDiscovery ConfigureMcp.

(** A promise: fulfilled, rejected, or never settled. *)
Inductive Async (A : Type) :=
  | Fulfilled (a : A)
  | Rejected (e : Thrown)
  | Pending.
Arguments Fulfilled {A} a.
Arguments Rejected {A} e.
Arguments Pending {A}.

(** [const x = await m; k]: a rejection skips the rest, and so does a
    promise that never settles. *)
#[global] Instance Async_bind : MBind Async :=
  fun A B (k : A -> Async B) (m : Async A) =>
    match m with
    | Fulfilled a => k a
    | Rejected e => Rejected e
    | Pending => Pending
    end.

(** A synchronous step inside an [async] function. *)
Definition settled {A} (r : Result A) : Async A :=
  match r with
  | Ok a => Fulfilled a
  | Throw e => Rejected e
  end.

(** [try { await m } catch (error) { handler }]: a promise that never
    settles is not caught. *)
Definition catchAsync {A} (m : Async A) (handler : Thrown -> Async A)
  : Async A :=
  match m with
  | Rejected e => handler e
  | Fulfilled a => Fulfilled a
  | Pending => Pending
  end.

(** What reading the body of a response does: it never ends, it
    rejects (the connection breaks, the text is no JSON), or it gives
    the parsed value, whatever that is. *)
Inductive BodyRead :=
  | BodyNever
  | BodyRejects
  | BodyParses (data : json).

(** A response as its headers give it, and its body. *)
Record RawResponse := mkRawResponse {
  raw_ok : bool;
  raw_status : N;
  raw_body : BodyRead
}.

(** What the registry at a URL does with a request: the connection
    fails, no headers ever come, or the headers arrive after some
    milliseconds. *)
Inductive Registry :=
  | Unreachable
  | Silent
  | Answers (afterMs : N) (response : RawResponse).

(** [await fetch(registryUrl, { signal })] with the timer
    [setTimeout(() => controller.abort(), timeoutMs)] armed: the
    promise settles with the headers, or rejects when the connection
    fails or the timer fires first. *)
Definition fetchUnderTimer (registry : Registry) (timeoutMs : N)
  : Async RawResponse :=
  match registry with
  | Unreachable => Rejected OtherError
  | Silent => Rejected OtherError
  | Answers afterMs response =>
      if afterMs <? timeoutMs then Fulfilled response else Rejected OtherError
  end.

(** [await response.json()], which runs after [clearTimeout(timeoutId)]:
    nothing aborts it any more. *)
Definition readJson (response : RawResponse) : Async json :=
  match raw_body response with
  | BodyNever => Pending
  | BodyRejects => Rejected OtherError
  | BodyParses data => Fulfilled data
  end.

(** [data.servers] when [Array.isArray] holds of it: reading a property
    of [null] throws. *)
Definition serversOf (data : json) : Result (option (list json)) :=
  servers ← getProp data (js "servers");
  Ok match servers with
     | Some (JArr entries) => Some entries
     | _ => None
     end.

(** [tagSet.has(t)] for an element of a parsed array: only a string can
    be a member of a set of strings. *)
Definition isRequestedTag (tags : list Tag) (t : json) : bool :=
  match t with
  | JStr s => bool_decide (s ∈ (list_to_set tags : gset Tag))
  | _ => false
  end.

(** [entry.tags.some((t) => tagSet.has(t))] on a parsed value: it
    throws a [TypeError] when the entry is [null] and when [entry.tags]
    is anything but an array (missing, [null], a string, a number, an
    object), which has no method [some]. *)
Definition entryMatches (tags : list Tag) (entry : json) : Result bool :=
  entryTags ← getProp entry (js "tags");
  match entryTags with
  | Some (JArr ts) => Ok (existsb (isRequestedTag tags) ts)
  | _ => Throw OtherError
  end.

(** [data.servers.filter(...)]: the callback runs on every entry in
    order, and the first throw ends the filter. *)
Fixpoint filterEntries (tags : list Tag) (entries : list json)
  : Result (list json) :=
  match entries with
  | [] => Ok []
  | entry :: rest =>
      keep ← entryMatches tags entry;
      kept ← filterEntries tags rest;
      Ok (if keep : bool then entry :: kept else kept)
  end.

(** The [try] block of [fetchRemoteServers].  An element of the result
    stands for [entryToRecommendation(entry, "remote")], which copies
    the fields of the entry whatever they hold. *)
Definition fetchRemoteServersTry (registry : Registry) (tags : list Tag)
    (registryUrl : jsstring) (timeoutMs : N) : Async (list json) :=
  response ← fetchUnderTimer registry timeoutMs;
  if negb (raw_ok response) then
    Rejected (DiscoveryError (js "Remote registry returned HTTP "
                                ++ js (pretty (raw_status response)))
                registryUrl)
  else
    data ← readJson response;
    settled
      (servers ← serversOf data;
       match servers with
       | None =>
           Throw (DiscoveryError
                    (js "Remote registry response missing 'servers' array")
                    registryUrl)
       | Some entries => filterEntries tags entries
       end).

(** [fetchRemoteServers]: both branches of the [catch] log a warning
    and return the empty list. *)
Definition fetchRemoteServers (registry : Registry) (tags : list Tag)
    (registryUrl : jsstring) (timeoutMs : N) : Async (list json) :=
  catchAsync (fetchRemoteServersTry registry tags registryUrl timeoutMs)
             (fun error =>
                match error with
                | DiscoveryError _ _ => Fulfilled []
                | OtherError => Fulfilled []
                end).

(** *** Entries of the declared type *)

Definition asString (v : option json) : option jsstring :=
  match v with
  | Some (JStr s) => Some s
  | _ => None
  end.

Definition asStrings (v : option json) : option (list jsstring) :=
  match v with
  | Some (JArr xs) => mapM (fun x => asString (Some x)) xs
  | _ => None
  end.

Definition asOptionalString (v : option json) : option (option jsstring) :=
  match v with
  | None => Some None
  | Some (JStr s) => Some (Some s)
  | _ => None
  end.

Definition asOptionalEnv (v : option json)
  : option (option (gmap jsstring jsstring)) :=
  match v with
  | None => Some None
  | Some (JObj fields) =>
      if forallb (fun kv => bool_decide (is_Some (asString (Some (snd kv)))))
                 (map_to_list fields)
      then Some (Some (omap (fun x => asString (Some x)) fields))
      else None
  | _ => None
  end.

(** A parsed value that is a [McpServerEntry]: an object whose [name],
    [description], [command] and [category] are strings, whose [args]
    and [tags] are arrays of strings, and whose [env], [url] and
    [tier], when present, are a record of strings and strings. *)
Definition decodeEntry (entry : json) : option McpServerEntry :=
  match entry with
  | JObj fields =>
      name ← asString (fields !! js "name");
      description ← asString (fields !! js "description");
      command ← asString (fields !! js "command");
      args ← asStrings (fields !! js "args");
      env ← asOptionalEnv (fields !! js "env");
      tags ← asStrings (fields !! js "tags");
      category ← asString (fields !! js "category");
      url ← asOptionalString (fields !! js "url");
      tier ← asOptionalString (fields !! js "tier");
      Some (mkEntry name description command args env tags category url tier)
  | _ => None
  end.

(** What a call of [discoverServers] comes to: it returns a list, it
    throws, it never returns, or it goes on with recommendations that
    are not of their declared type.  The last is where this model
    stops: [deduplicateServers] then puts values that are no strings
    into its set and calls [localeCompare] on them, for the pairs the
    engine's sort happens to compare. *)
Inductive Discovery :=
  | Returns (servers : list McpServerRecommendation)
  | Throws (e : Thrown)
  | NeverReturns
  | OutsideTypes (localServers : list McpServerRecommendation)
      (remoteEntries : list json).

Section Discover.
(** [a.localeCompare(b)], which depends on the host's locale. *)
Variable localeCompare : jsstring -> jsstring -> Z.

(** [discoverServers], with the registry in detail. *)
Definition discoverServers (templates : gmap Tag TagTemplateSet)
    (defaultRegistryUrl : jsstring) (network : jsstring -> Registry)
    (tags : list Tag) (options : option McpDiscoveryOptions) : Discovery :=
  let localServers := loadLocalServers templates tags in
  let remoteServers : Async (list json) :=
    match options with
    | Some opts =>
        if default false (includeRemote opts) then
          let registryUrl :=
            default defaultRegistryUrl (remoteRegistryUrl opts) in
          if negb (Nat.eqb (length registryUrl) 0) then
            fetchRemoteServers (network registryUrl) tags registryUrl
              (default DEFAULT_REMOTE_TIMEOUT_MS (remoteTimeoutMs opts))
          else Fulfilled []
        else Fulfilled []
    | None => Fulfilled []
    end in
  match remoteServers with
  | Fulfilled remoteEntries =>
      match mapM decodeEntry remoteEntries with
      | Some entries =>
          Returns (deduplicateServers localeCompare localServers
                     (map (fun e => entryToRecommendation e (js "remote"))
                          entries))
      | None => OutsideTypes localServers remoteEntries
      end
  | Rejected e => Throws e
  | Pending => NeverReturns
  end.
End Discover.

End RemoteRegistry.

(* ===================================================================== *)
(** ** The remote registry: what the properties speak of *)
(* ===================================================================== *)

Module RegistrySpec.
Import JsString McpDiscovery ConfigureMcp RemoteRegistry.

(** A parsed value with an array under a key. *)
Definition hasArray (v : json) (key : jsstring) : Prop :=
  exists fields xs, v = JObj fields /\ fields !! key = Some (JArr xs).

(** The ways the remote registry fails: the connection fails, no
    headers arrive before the timer fires, the status is not a success,
    the body is no JSON, it has no [servers] array, or an entry of that
    array has no [tags] array. *)
Inductive registryFails (timeoutMs : N) : Registry -> Prop :=
  | fails_unreachable : registryFails timeoutMs Unreachable
  | fails_silent : registryFails timeoutMs Silent
  | fails_late (afterMs : N) (response : RawResponse) :
      timeoutMs <= afterMs ->
      registryFails timeoutMs (Answers afterMs response)
  | fails_status (afterMs status : N) (read : BodyRead) :
      registryFails timeoutMs
        (Answers afterMs (mkRawResponse false status read))
  | fails_unreadable (afterMs status : N) :
      registryFails timeoutMs
        (Answers afterMs (mkRawResponse true status BodyRejects))
  | fails_no_servers (afterMs status : N) (data : json) :
      ~ hasArray data (js "servers") ->
      registryFails timeoutMs
        (Answers afterMs (mkRawResponse true status (BodyParses data)))
  | fails_entry (afterMs status : N) (fields : gmap jsstring json)
      (entries : list json) (entry : json) :
      fields !! js "servers" = Some (JArr entries) ->
      In entry entries ->
      ~ hasArray entry (js "tags") ->
      registryFails timeoutMs
        (Answers afterMs
           (mkRawResponse true status (BodyParses (JObj fields)))).

(** The headers come before the timer fires and announce a success;
    the body never comes. *)
Definition bodyStalls (timeoutMs : N) (registry : Registry) : Prop :=
  exists afterMs status,
    registry = Answers afterMs (mkRawResponse true status BodyNever)
    /\ afterMs < timeoutMs.

(** The registry answers in time with a success status and a body whose
    [servers] array holds the given entries, each of the declared
    type. *)
Definition registryGives (timeoutMs : N) (registry : Registry)
    (entries : list McpServerEntry) : Prop :=
  exists afterMs status fields raw,
    registry
    = Answers afterMs (mkRawResponse true status (BodyParses (JObj fields)))
    /\ afterMs < timeoutMs
    /\ fields !! js "servers" = Some (JArr raw)
    /\ mapM decodeEntry raw = Some entries.

(** A registry behaves as a registry of the simpler model does when
    its body, if it is read, comes at once, and every entry of its
    [servers] array is of the declared type. *)
Inductive behavesAs : Registry -> Remote -> Prop :=
  | behaves_unreachable : behavesAs Unreachable NetworkError
  | behaves_silent : behavesAs Silent Hang
  | behaves_refused (afterMs status : N) (read : BodyRead) (content : Body) :
      behavesAs (Answers afterMs (mkRawResponse false status read))
                (Respond afterMs (mkResponse false status content))
  | behaves_unreadable (afterMs status : N) :
      behavesAs (Answers afterMs (mkRawResponse true status BodyRejects))
                (Respond afterMs (mkResponse true status BodyInvalid))
  | behaves_no_servers (afterMs status : N) (data : json) :
      ~ hasArray data (js "servers") ->
      behavesAs (Answers afterMs (mkRawResponse true status (BodyParses data)))
                (Respond afterMs (mkResponse true status (BodyData None)))
  | behaves_servers (afterMs status : N) (fields : gmap jsstring json)
      (raw : list json) (entries : list McpServerEntry) :
      fields !! js "servers" = Some (JArr raw) ->
      mapM decodeEntry raw = Some entries ->
      behavesAs (Answers afterMs
                   (mkRawResponse true status (BodyParses (JObj fields))))
                (Respond afterMs
                   (mkResponse true status (BodyData (Some entries)))).

End RegistrySpec.

Module RegistrySamples.
Import JsString ConfigureMcp RemoteRegistry.

(** A registry that sends its headers at once and never its body. *)
Definition stalled (_ : jsstring) : Registry :=
  Answers 20 (mkRawResponse true 200 BodyNever).


Definition remoteOnlyJson : json :=
  JObj {[ js "name" := JStr (js "remote-only-server");
          js "description" := JStr (js "Only in remote");
          js "command" := JStr (js "npx");
          js "args" := JArr [JStr (js "-y"); JStr (js "remote-only")];
          js "tags" := JArr [JStr (js "UNIVERSAL")];
          js "category" := JStr (js "general") ]}.

Definition noTagsJson : json :=
  JObj {[ js "name" := JStr (js "broken") ]}.

Definition noNameJson : json :=
  JObj {[ js "tags" := JArr [JStr (js "UNIVERSAL")] ]}.

Definition answering (entries : list json) (_ : jsstring) : Registry :=
  Answers 20
    (mkRawResponse true 200
       (BodyParses (JObj {[ js "servers" := JArr entries ]}))).

End RegistrySamples.

(* ===================================================================== *)
(** * Part II: lemmas and theorems *)
(* ===================================================================== *)

(* ===================================================================== *)
(** ** The merge engine *)
(* ===================================================================== *)

Module MergeFacts.
Import JsString Filesystem MergeSpec.

(** *** The set of generated headings *)

Lemma has_generatedHeaders (gl : list jsstring) (x : jsstring) :
  has (generatedHeaders gl) x = true <->
  exists g, In g gl /\ isHeading g = true /\ trim g = x.
Proof.
  unfold has, generatedHeaders.
  rewrite bool_decide_eq_true, elem_of_list_to_set, list_elem_of_In, in_map_iff.
  split.
  - intros (g & Hg & Hin). apply list_elem_of_In, list_elem_of_filter in Hin.
    destruct Hin as [Hh Hin]. exists g. rewrite <- list_elem_of_In. auto.
  - intros (g & Hin & Hh & Hg). exists g. split; [exact Hg|].
    apply list_elem_of_In, list_elem_of_filter. rewrite list_elem_of_In. auto.
Qed.

Lemma has_iff_headingInGenerated (generated h : jsstring) :
  has (generatedHeaders (splitLines generated)) (trim h) = true <->
  headingInGenerated generated h.
Proof. apply has_generatedHeaders. Qed.

(** *** The loop computes the flat sections *)

Lemma flush_open (st : MergeState) :
  openSectionNonEmpty st ->
  flush st =
    customSections st ++
    (if inCustomSection st then [join nl (currentSection st)] else []).
Proof.
  unfold openSectionNonEmpty, flush. intros Hne.
  destruct (inCustomSection st); simpl.
  - destruct (currentSection st); [now destruct Hne | reflexivity].
  - now rewrite app_nil_r.
Qed.

Lemma fold_mergeStep (hs : gset jsstring) (ls : list jsstring) :
  forall st, openSectionNonEmpty st ->
    flush (fold_left (mergeStep hs) ls st) =
      customSections st ++
      (if inCustomSection st
       then [join nl (currentSection st ++ bodyLines ls)] else []) ++
      map sectionText
        (List.filter (fun sec => negb (has hs (trim (fst sec))))
                     (flatSections ls)).
Proof.
  induction ls as [|l rest IH]; intros st Hst.
  - simpl. rewrite !app_nil_r. now apply flush_open.
  - simpl fold_left. unfold mergeStep at 2. simpl bodyLines. simpl flatSections.
    destruct (isHeading l) eqn:Hl.
    + rewrite IH.
      2:{ unfold openSectionNonEmpty; simpl.
          destruct (negb (has hs (trim l))); [discriminate | discriminate]. }
      cbn [customSections inCustomSection currentSection].
      rewrite (flush_open st Hst), app_nil_r. simpl List.filter.
      cbn [fst].
      destruct (negb (has hs (trim l))); simpl;
        rewrite <- !app_assoc; reflexivity.
    + destruct (inCustomSection st) eqn:Hin.
      * rewrite IH by (unfold openSectionNonEmpty; simpl; intros _;
                       now destruct (currentSection st)).
        cbn [customSections inCustomSection currentSection].
        now rewrite <- app_assoc.
      * rewrite IH by exact Hst. now rewrite Hin.
Qed.

(** The sections the loop collects are the custom flat sections. *)
Lemma collect_flat_sections (existing generated : jsstring) :
  collectCustomSections existing generated =
  customSectionsOf existing generated.
Proof.
  unfold collectCustomSections, customSectionsOf.
  rewrite fold_mergeStep by (unfold openSectionNonEmpty; discriminate).
  reflexivity.
Qed.

(** *** Headings and sections *)

Lemma flatSections_heading (ls : list jsstring) (h : jsstring)
    (b : list jsstring) :
  In (h, b) (flatSections ls) -> In h ls /\ isHeading h = true.
Proof.
  induction ls as [|l rest IH]; simpl; [tauto|].
  destruct (isHeading l) eqn:Hl.
  - intros [Heq | Hin].
    + inversion Heq; subst. auto.
    + destruct (IH Hin). auto.
  - intros Hin. destruct (IH Hin). auto.
Qed.

Lemma heading_has_section (ls : list jsstring) (h : jsstring) :
  In h ls -> isHeading h = true -> exists b, In (h, b) (flatSections ls).
Proof.
  induction ls as [|l rest IH]; simpl; [tauto|].
  intros [-> | Hin] Hh.
  - rewrite Hh. eexists. left. reflexivity.
  - destruct (IH Hin Hh) as [b Hb]. exists b.
    destruct (isHeading l); [right|]; exact Hb.
Qed.

Lemma filter_nil_iff {A} (f : A -> bool) (l : list A) :
  List.filter f l = [] <-> forall x, In x l -> f x = false.
Proof.
  induction l as [|a l IH]; simpl.
  - split; [intros _ x [] | reflexivity].
  - destruct (f a) eqn:Ha.
    + split; [discriminate|]. intros H. specialize (H a (or_introl eq_refl)).
      congruence.
    + rewrite IH. split.
      * intros H x [<- | Hx]; auto.
      * intros H x Hx. apply H. now right.
Qed.

(** No custom section exactly when every heading of the existing text
    is a heading of the generated text. *)
Lemma customSectionsOf_nil (existing generated : jsstring) :
  customSectionsOf existing generated = [] <->
  forall l, In l (splitLines existing) -> isHeading l = true ->
            headingInGenerated generated l.
Proof.
  unfold customSectionsOf.
  split.
  - intros Hnil l Hin Hl.
    apply map_eq_nil in Hnil. rewrite filter_nil_iff in Hnil.
    destruct (heading_has_section _ _ Hin Hl) as [b Hb].
    specialize (Hnil _ Hb). unfold isCustom in Hnil. simpl in Hnil.
    apply negb_false_iff in Hnil. now apply has_iff_headingInGenerated.
  - intros Hall.
    replace (List.filter (isCustom generated) (flatSections (splitLines existing)))
      with (@nil (jsstring * list jsstring)); [reflexivity|].
    symmetry. apply filter_nil_iff. intros [h b] Hin.
    destruct (flatSections_heading _ _ _ Hin) as [Hin' Hh].
    unfold isCustom. simpl. apply negb_false_iff.
    apply has_iff_headingInGenerated. auto.
Qed.

(** *** Where a span ends *)

Lemma bodyLines_app_heading (body rest : list jsstring) (h : jsstring) :
  isHeading h = true ->
  bodyLines (body ++ h :: rest) = bodyLines body.
Proof.
  intros Hh. induction body as [|l body IH]; simpl.
  - now rewrite Hh.
  - destruct (isHeading l); [reflexivity | now rewrite IH].
Qed.

Lemma bodyLines_plain (body : list jsstring) :
  Forall (fun l => isHeading l = false) body -> bodyLines body = body.
Proof.
  induction 1 as [|l body Hl _ IH]; simpl; [reflexivity|].
  now rewrite Hl, IH.
Qed.

Lemma flatSections_plain (body : list jsstring) :
  Forall (fun l => isHeading l = false) body -> flatSections body = [].
Proof.
  induction 1 as [|l body Hl _ IH]; simpl; [reflexivity|].
  now rewrite Hl.
Qed.

(** The spans before a heading line do not depend on what comes from
    that line on. *)
Lemma flatSections_app_heading (pre rest : list jsstring) (h : jsstring) :
  isHeading h = true ->
  flatSections (pre ++ h :: rest) = flatSections pre ++ flatSections (h :: rest).
Proof.
  intros Hh. induction pre as [|l pre IH]; [reflexivity|].
  change ((l :: pre) ++ h :: rest) with (l :: (pre ++ h :: rest)).
  cbn [flatSections]. destruct (isHeading l).
  - rewrite IH, (bodyLines_app_heading pre rest h Hh). reflexivity.
  - exact IH.
Qed.

(** *** The properties of the specification *)

(** The search through the lines decides as the set of the loop does. *)
Lemma matchesGenerated_has (generated h : jsstring) :
  matchesGenerated generated h
  = has (generatedHeaders (splitLines generated)) (trim h).
Proof.
  apply eq_true_iff_eq. rewrite has_generatedHeaders.
  unfold matchesGenerated. rewrite existsb_exists. split.
  - intros (g & Hin & Hg). apply andb_true_iff in Hg. destruct Hg as [Hh Ht].
    apply bool_decide_eq_true in Ht. eauto.
  - intros (g & Hin & Hh & Ht). exists g. split; [exact Hin|].
    apply andb_true_iff. split; [exact Hh|]. now apply bool_decide_eq_true.
Qed.

Lemma matchesGenerated_iff (generated h : jsstring) :
  matchesGenerated generated h = true <-> headingInGenerated generated h.
Proof.
  rewrite matchesGenerated_has. apply has_iff_headingInGenerated.
Qed.

Lemma unmatchedSections_custom (existing generated : jsstring) :
  unmatchedSections existing generated = customSectionsOf existing generated.
Proof.
  unfold unmatchedSections, customSectionsOf. f_equal.
  apply filter_ext. intros sec. unfold isCustom.
  now rewrite matchesGenerated_has.
Qed.

(** C1, as amended.  When the existing text has a second- or
    third-level heading line that, after trimming, is equal to no
    trimmed heading line of the generated text, the merge is the
    generated text, then the separator (an empty line, the comment
    line, an empty line), then the sections of the existing text whose
    heading line matches no heading line of the generated text (heading
    line and body each), joined by a blank line, in the order they have
    in the existing text; there is at least one.  Which sections those
    are is told by a search through the generated lines, not by the set
    the loop builds. *)
Theorem merge_appends_custom_sections (existing generated : jsstring) :
  (exists h, In h (splitLines existing) /\ isHeading h = true /\
             ~ headingInGenerated generated h) ->
  unmatchedSections existing generated <> []
  /\ mergeInstructionFiles existing generated =
       generated ++ separator
         ++ join (nl ++ nl) (unmatchedSections existing generated)
  /\ splitLines separator
     = [[]; [];
        js "<!-- Custom Sections (preserved from previous file) -->";
        []; []].
Proof.
  intros (h & Hin & Hh & Hnot). rewrite unmatchedSections_custom.
  assert (Hne : customSectionsOf existing generated <> []).
  { intros Hnil. apply Hnot.
    exact (proj1 (customSectionsOf_nil existing generated) Hnil h Hin Hh). }
  split; [exact Hne|]. split; [|vm_compute; reflexivity].
  unfold mergeInstructionFiles. rewrite collect_flat_sections.
  destruct (customSectionsOf existing generated); [now destruct Hne|].
  reflexivity.
Qed.

Lemma merge_appends_custom_sections_witness :
  unmatchedSections Samples.withCustomRules Samples.standardsUpdated <> []
  /\ mergeInstructionFiles Samples.withCustomRules Samples.standardsUpdated =
       Samples.standardsUpdated ++ separator
         ++ join (nl ++ nl)
              (unmatchedSections Samples.withCustomRules
                 Samples.standardsUpdated)
  /\ splitLines separator
     = [[]; [];
        js "<!-- Custom Sections (preserved from previous file) -->";
        []; []].
Proof.
  apply (merge_appends_custom_sections
           Samples.withCustomRules Samples.standardsUpdated).
  exists (js "## My Custom Rules").
  split; [vm_compute; tauto|].
  split; [reflexivity|].
  intros H. apply has_iff_headingInGenerated in H.
  vm_compute in H. discriminate H.
Defined.

(** C1 as the specification words it fails: the heading line
    ["## Rules "], with its trailing space, is a line of the existing
    text and no line of the generated text, yet the merge is the
    generated text alone, which is not the generated text followed by
    the separator and anything. *)
Lemma trailing_space_heading_is_not_custom :
  (exists h, In h (splitLines (doc ["## Rules "; "mine"]%string))
             /\ isHeading h = true
             /\ ~ In h (splitLines (doc ["## Rules"; "generated"]%string)))
  /\ forall sections,
       mergeInstructionFiles (doc ["## Rules "; "mine"]%string)
         (doc ["## Rules"; "generated"]%string)
       <> doc ["## Rules"; "generated"]%string ++ separator
            ++ join (nl ++ nl) sections.
Proof.
  split.
  - exists (js "## Rules "). split; [left; reflexivity|].
    split; [reflexivity|]. vm_compute. intros [H | [H | []]]; discriminate H.
  - intros sections.
    replace (mergeInstructionFiles (doc ["## Rules "; "mine"]%string)
               (doc ["## Rules"; "generated"]%string))
      with (doc ["## Rules"; "generated"]%string ++ [])
      by (vm_compute; reflexivity).
    intros H. apply app_inv_head in H. discriminate H.
Qed.

(** C2.  When every second- or third-level heading line of the
    existing text equals, after trimming, a heading line of the
    generated text, the merge is the generated text itself, with no
    separator; merging a text with itself gives it back. *)
Theorem merge_without_custom_sections (existing generated : jsstring) :
  (forall l, In l (splitLines existing) -> isHeading l = true ->
             headingInGenerated generated l) ->
  mergeInstructionFiles existing generated = generated
  /\ mergeInstructionFiles generated generated = generated.
Proof.
  assert (Hgen : forall e g,
             (forall l, In l (splitLines e) -> isHeading l = true ->
                        headingInGenerated g l) ->
             mergeInstructionFiles e g = g).
  { intros e g Hall. unfold mergeInstructionFiles.
    rewrite collect_flat_sections.
    now rewrite (proj2 (customSectionsOf_nil e g) Hall). }
  intros Hall. split; [now apply Hgen|].
  apply Hgen. intros l Hin Hl. exists l. auto.
Qed.

Lemma merge_without_custom_sections_witness :
  mergeInstructionFiles Samples.standardsOld Samples.standardsNew
    = Samples.standardsNew
  /\ mergeInstructionFiles Samples.standardsNew Samples.standardsNew
    = Samples.standardsNew.
Proof.
  refine (merge_without_custom_sections
            Samples.standardsOld Samples.standardsNew _).
  intros l Hin Hl. apply has_iff_headingInGenerated.
  vm_compute in Hin.
  destruct Hin as [<- | [<- | []]]; [reflexivity|].
  vm_compute in Hl. discriminate Hl.
Defined.

(** C3, as the code has it.  The sections the loop collects are the
    custom ones among the flat spans of the existing text: a span opens
    at every heading line of level two or three and runs to the next
    heading line of either level, or to the end.  So a sub-heading line
    after the body of a section closes that section and opens a span of
    its own.  A section is left out exactly when its heading line
    equals, after trimming, a heading line of the generated text; its
    body plays no part. *)
Theorem sections_are_flat_spans (existing generated : jsstring) :
  collectCustomSections existing generated =
    map sectionText
      (List.filter (isCustom generated) (flatSections (splitLines existing)))
  /\ (forall pre h body sub rest,
        isHeading h = true ->
        Forall (fun l => isHeading l = false) body ->
        isHeading sub = true ->
        flatSections (pre ++ h :: body ++ sub :: rest)
        = flatSections pre ++ (h, body) :: flatSections (sub :: rest))
  /\ (forall h body body',
        isCustom generated (h, body) = isCustom generated (h, body'))
  /\ (forall h body,
        isCustom generated (h, body) = false <->
        headingInGenerated generated h).
Proof.
  split; [apply collect_flat_sections|].
  split; [|split; [reflexivity|]].
  - intros pre h body sub rest Hh Hbody Hsub.
    rewrite (flatSections_app_heading pre _ h Hh).
    cbn [flatSections]. rewrite Hh.
    rewrite (bodyLines_app_heading body rest sub Hsub).
    rewrite (bodyLines_plain body Hbody).
    rewrite (flatSections_app_heading body rest sub Hsub).
    now rewrite (flatSections_plain body Hbody).
  - intros h body. unfold isCustom. simpl.
    rewrite negb_false_iff. apply has_iff_headingInGenerated.
Qed.

(** C3 fails as stated: the span that the specification gives the
    custom section ["## Custom"] runs over its ["### Sub"] sub-heading to
    the end of the text, but the code closes the section at the
    sub-heading, and drops the sub-heading and its body because the
    generated text has a ["### Sub"] line too. *)
Lemma subheading_leaves_custom_section :
  nestedSpan (splitLines Samples.customWithSub)
    = Some (map js ["## Custom"; "body"; "### Sub"; "subbody"]%string)
  /\ ~ headingInGenerated Samples.generatedWithSub (js "## Custom")
  /\ collectCustomSections Samples.customWithSub Samples.generatedWithSub
      = [doc ["## Custom"; "body"]%string]
  /\ mergeInstructionFiles Samples.customWithSub Samples.generatedWithSub
      <> Samples.generatedWithSub ++ separator
           ++ doc ["## Custom"; "body"; "### Sub"; "subbody"]%string.
Proof.
  split; [reflexivity|].
  split.
  { intros H. apply has_iff_headingInGenerated in H.
    vm_compute in H. discriminate H. }
  split; [vm_compute; reflexivity|].
  vm_compute. discriminate.
Qed.

(** A heading line with a trailing space matches the same heading
    without it: the comparison is on the trimmed lines. *)
Example merge_trailing_space :
  mergeInstructionFiles (doc ["## Rules "; "mine"]%string)
    (doc ["## Rules"; "generated"]%string)
  = doc ["## Rules"; "generated"]%string.
Proof. vm_compute. reflexivity. Qed.

(** The merge tests of the test suite. *)
Example merge_test_no_custom :
  mergeInstructionFiles Samples.standardsOld Samples.standardsNew
  = Samples.standardsNew.
Proof. vm_compute. reflexivity. Qed.

Example merge_test_preserves_custom :
  mergeInstructionFiles Samples.withCustomRules Samples.standardsUpdated
  = Samples.standardsUpdated ++ separator
      ++ doc ["## My Custom Rules"; "Do not use var.";
              "Always use strict mode."]%string.
Proof. vm_compute. reflexivity. Qed.

End MergeFacts.

(* ===================================================================== *)
(** ** The tag list of the handlers *)
(* ===================================================================== *)

Module HandlerFacts.
Import JsString Handlers.

(** Adding the universal tag in front changes nothing. *)
Lemma handlerTags_cons_universal (tags : list Tag) :
  UNIVERSAL ∉ tags ->
  handlerTags (UNIVERSAL :: tags) = handlerTags tags.
Proof.
  intros Hnot. unfold handlerTags.
  rewrite bool_decide_eq_true_2 by apply list_elem_of_here.
  now rewrite (bool_decide_eq_false_2 _ Hnot).
Qed.

(** The tag list a handler works with always holds the universal tag. *)
Lemma handlerTags_has_universal (tags : list Tag) :
  UNIVERSAL ∈ handlerTags tags.
Proof.
  unfold handlerTags. case_bool_decide; [assumption | apply list_elem_of_here].
Qed.

(** C8.  For a tag [X] other than the universal tag, a handler called
    with [[X]] hands the tag list [[UNIVERSAL; X]] to the rest of the
    pipeline: the universal tag is treated as present though the caller
    left it out.  Called with [[UNIVERSAL; X]] it hands over the same
    list, in which the universal tag occurs once: nothing is
    duplicated.  So the two calls give the same response, for
    [generateInstructionsHandler] and for [scaffoldProjectHandler],
    whatever the rest of the pipeline does with the list. *)
Theorem universal_always_present {Args Response : Type}
    (generate scaffold : list Tag -> Args -> Response)
    (X : Tag) (args : Args) :
  X <> UNIVERSAL ->
  handlerTags [X] = [UNIVERSAL; X]
  /\ handlerTags [UNIVERSAL; X] = [UNIVERSAL; X]
  /\ NoDup [UNIVERSAL; X]
  /\ generateInstructionsHandler generate [X] args
     = generate [UNIVERSAL; X] args
  /\ generateInstructionsHandler generate [UNIVERSAL; X] args
     = generate [UNIVERSAL; X] args
  /\ scaffoldProjectHandler scaffold [X] args
     = scaffold [UNIVERSAL; X] args
  /\ scaffoldProjectHandler scaffold [UNIVERSAL; X] args
     = scaffold [UNIVERSAL; X] args.
Proof.
  intros HX.
  assert (Hnot : UNIVERSAL ∉ [X]).
  { rewrite list_elem_of_singleton. congruence. }
  assert (H1 : handlerTags [X] = [UNIVERSAL; X]).
  { unfold handlerTags. now rewrite (bool_decide_eq_false_2 _ Hnot). }
  assert (H2 : handlerTags [UNIVERSAL; X] = [UNIVERSAL; X]).
  { now rewrite handlerTags_cons_universal. }
  split; [exact H1|]. split; [exact H2|]. split.
  - apply NoDup_cons_2; [exact Hnot | apply NoDup_singleton].
  - unfold generateInstructionsHandler, scaffoldProjectHandler.
    now rewrite H1, H2.
Qed.

Lemma universal_always_present_witness :
  handlerTags [js "API"] = [UNIVERSAL; js "API"]
  /\ handlerTags [UNIVERSAL; js "API"] = [UNIVERSAL; js "API"]
  /\ NoDup [UNIVERSAL; js "API"]
  /\ generateInstructionsHandler (fun tags (_ : unit) => tags) [js "API"] tt
     = (fun tags (_ : unit) => tags) [UNIVERSAL; js "API"] tt
  /\ generateInstructionsHandler (fun tags (_ : unit) => tags)
       [UNIVERSAL; js "API"] tt
     = (fun tags (_ : unit) => tags) [UNIVERSAL; js "API"] tt
  /\ scaffoldProjectHandler (fun tags (_ : unit) => rev tags) [js "API"] tt
     = (fun tags (_ : unit) => rev tags) [UNIVERSAL; js "API"] tt
  /\ scaffoldProjectHandler (fun tags (_ : unit) => rev tags)
       [UNIVERSAL; js "API"] tt
     = (fun tags (_ : unit) => rev tags) [UNIVERSAL; js "API"] tt.
Proof.
  apply (universal_always_present
           (fun tags (_ : unit) => tags) (fun tags (_ : unit) => rev tags)
           (js "API") tt).
  vm_compute. discriminate.
Defined.

End HandlerFacts.

(* ===================================================================== *)
(** ** The sensitive-data flag *)
(* ===================================================================== *)

Module ProjectContextFacts.
Import JsString Context ProjectContext.

Lemma elem_of_sensitiveTags (t : Tag) :
  t ∈ sensitiveTags <->
  (t = js "HEALTHCARE" \/ t = js "HIPAA" \/ t = js "FINTECH" \/ t = js "SOC2").
Proof.
  unfold sensitiveTags. rewrite !elem_of_cons, elem_of_nil. tauto.
Qed.

Lemma detectSensitiveData_cases (tags : list Tag) :
  (hasSensitiveTag tags /\ detectSensitiveData tags = js "YES")
  \/ (~ hasSensitiveTag tags /\ detectSensitiveData tags = js "NO").
Proof.
  unfold detectSensitiveData, hasSensitiveTag.
  destruct (existsb _ tags) eqn:He.
  - left. split; [|reflexivity].
    apply existsb_exists in He. destruct He as (t & Hin & Ht).
    apply bool_decide_eq_true in Ht. exists t.
    split; [exact Hin | now apply elem_of_sensitiveTags].
  - right. split; [|reflexivity].
    intros (t & Hin & Ht).
    assert (Hex : existsb (fun t => bool_decide (t ∈ sensitiveTags)) tags = true).
    { apply existsb_exists. exists t. split; [exact Hin|].
      apply bool_decide_eq_true. now apply elem_of_sensitiveTags. }
    congruence.
Qed.

(** C10.  Whatever the project directory holds, the context that
    [detectProjectContext] returns has [sensitiveData] equal to ["YES"]
    exactly when the tag list holds HEALTHCARE, HIPAA, FINTECH or SOC2,
    and equal to ["NO"] exactly when it holds none of them. *)
Theorem sensitiveData_iff_sensitive_tag
    (detectRepoUrl : jsstring -> jsstring)
    (detectFramework : jsstring -> jsstring -> option jsstring)
    (projectDir projectName language : jsstring) (tags : list Tag)
    (description : option jsstring) :
  (sensitiveData
     (detectProjectContext detectRepoUrl detectFramework
        projectDir projectName language tags description)
     = Some (js "YES") <-> hasSensitiveTag tags)
  /\ (sensitiveData
        (detectProjectContext detectRepoUrl detectFramework
           projectDir projectName language tags description)
        = Some (js "NO") <-> ~ hasSensitiveTag tags).
Proof.
  simpl.
  destruct (detectSensitiveData_cases tags) as [[Hs ->] | [Hs ->]].
  - split; split; intros H; try reflexivity; try exact Hs;
      try discriminate H; contradiction.
  - split; split; intros H; try reflexivity; try exact Hs;
      try discriminate H; contradiction.
Qed.

Example sensitive_hipaa :
  detectSensitiveData [js "UNIVERSAL"; js "HIPAA"] = js "YES".
Proof. reflexivity. Qed.

Example not_sensitive_api :
  detectSensitiveData [js "UNIVERSAL"; js "API"] = js "NO".
Proof. reflexivity. Qed.

End ProjectContextFacts.

(* ===================================================================== *)
(** ** MCP server discovery *)
(* ===================================================================== *)

Module McpDiscoveryFacts.
Import JsString Exn McpDiscovery DiscoverySpec.

(** *** The sort keeps the elements *)

Lemma insertSorted_perm {A} (cmp : A -> A -> Z) (x : A) (l : list A) :
  insertSorted cmp x l ≡ₚ x :: l.
Proof.
  induction l as [|y r IH]; simpl; [reflexivity|].
  destruct (cmp x y <=? 0)%Z; [reflexivity|].
  rewrite IH. apply perm_swap.
Qed.

Lemma sortWith_perm {A} (cmp : A -> A -> Z) (l : list A) :
  sortWith cmp l ≡ₚ l.
Proof.
  induction l as [|x r IH]; simpl; [reflexivity|].
  rewrite insertSorted_perm. now rewrite IH.
Qed.

(** *** The dedup loop *)

Lemma accOk_empty : accOk (∅, []).
Proof.
  split; [apply NoDup_nil_2|]. intros n. simpl. split; [|tauto].
  intros H. now apply not_elem_of_empty in H.
Qed.

Lemma fold_pushUnseen (l : list McpServerRecommendation) :
  forall acc, accOk acc ->
    accOk (fold_left pushUnseen l acc)
    /\ (forall n, n ∈ (fold_left pushUnseen l acc).1 <->
                  n ∈ acc.1 \/ In n (map name l))
    /\ exists extra,
         (fold_left pushUnseen l acc).2 = acc.2 ++ extra
         /\ forall r, In r extra -> In r l /\ name r ∉ acc.1.
Proof.
  induction l as [|x l IH]; intros acc Hok.
  - simpl. split; [exact Hok|]. split; [tauto|].
    exists []. rewrite app_nil_r. split; [reflexivity | intros r []].
  - simpl fold_left. unfold pushUnseen at 2 4 6.
    destruct (bool_decide (name x ∈ acc.1)) eqn:Hseen.
    + apply bool_decide_eq_true in Hseen.
      destruct (IH acc Hok) as (Hok' & Hnames & extra & Hres & Hextra).
      split; [exact Hok'|]. split.
      * intros n. rewrite Hnames. simpl. split; [tauto|].
        intros [H | [<- | H]]; auto.
      * exists extra. split; [exact Hres|].
        intros r Hr. destruct (Hextra r Hr). split; [now right | assumption].
    + apply bool_decide_eq_false in Hseen.
      destruct Hok as [Hnd Hset].
      assert (Hok1 : accOk ({[name x]} ∪ acc.1, acc.2 ++ [x])).
      { split; simpl.
        - rewrite map_app. simpl. apply list.NoDup_app. split; [exact Hnd|].
          split; [|apply NoDup_singleton].
          intros n Hn Hx. apply list_elem_of_singleton in Hx. subst n.
          apply Hseen, Hset. now apply list_elem_of_In.
        - intros n. rewrite map_app, in_app_iff, elem_of_union,
            elem_of_singleton, <- Hset. simpl. intuition. }
      destruct (IH _ Hok1) as (Hok' & Hnames & extra & Hres & Hextra).
      split; [exact Hok'|]. split.
      * intros n. rewrite Hnames. simpl.
        rewrite elem_of_union, elem_of_singleton. intuition.
      * exists (x :: extra). split.
        { rewrite Hres. simpl. now rewrite <- app_assoc. }
        intros r [<- | Hr]; [split; [now left | exact Hseen]|].
        destruct (Hextra r Hr) as [Hin Hnot]. split; [now right|].
        simpl in Hnot. rewrite elem_of_union in Hnot. tauto.
Qed.

(** A list without repeated names, none seen yet, is pushed whole. *)
Lemma fold_pushUnseen_fresh (l : list McpServerRecommendation) :
  forall acc,
    NoDup (map name l) -> (forall r, In r l -> name r ∉ acc.1) ->
    (fold_left pushUnseen l acc).2 = acc.2 ++ l.
Proof.
  induction l as [|x l IH]; intros acc Hnd Hfresh; simpl.
  - now rewrite app_nil_r.
  - simpl in Hnd. apply list.NoDup_cons in Hnd. destruct Hnd as [Hx Hnd].
    unfold pushUnseen at 2.
    rewrite bool_decide_eq_false_2 by (apply Hfresh; now left).
    rewrite IH; simpl.
    + now rewrite <- app_assoc.
    + exact Hnd.
    + intros r Hr. rewrite elem_of_union, elem_of_singleton.
      intros [Heq | Hin].
      * apply Hx. rewrite <- Heq. apply list_elem_of_In, in_map. exact Hr.
      * apply (Hfresh r); [now right | exact Hin].
Qed.

(** *** The local servers *)

Lemma pushEntries_fold (acc : Acc) (entries : list McpServerEntry) :
  pushEntries acc entries =
  fold_left pushUnseen
    (map (fun e => entryToRecommendation e (js "built-in")) entries) acc.
Proof.
  unfold pushEntries. revert acc.
  induction entries as [|e es IH]; intros acc; simpl; [reflexivity | apply IH].
Qed.

Lemma pushEntries_ok (acc : Acc) (entries : list McpServerEntry) :
  accOk acc -> Forall builtIn acc.2 ->
  accOk (pushEntries acc entries) /\ Forall builtIn (pushEntries acc entries).2.
Proof.
  intros Hok Hb. rewrite pushEntries_fold.
  destruct (fold_pushUnseen
              (map (fun e => entryToRecommendation e (js "built-in")) entries)
              acc Hok) as (Hok' & _ & extra & Hres & Hextra).
  split; [exact Hok'|]. rewrite Hres. apply Forall_app. split; [exact Hb|].
  apply List.Forall_forall. intros r Hr. destruct (Hextra r Hr) as [Hin _].
  apply in_map_iff in Hin. destruct Hin as (e & <- & _). reflexivity.
Qed.

Lemma loadLocalServers_ok (templates : gmap Tag TagTemplateSet)
    (tags : list Tag) :
  NoDup (map name (loadLocalServers templates tags))
  /\ Forall builtIn (loadLocalServers templates tags).
Proof.
  unfold loadLocalServers.
  assert (H : forall acc, accOk acc -> Forall builtIn acc.2 ->
    let acc' :=
      fold_left
        (fun acc tag =>
           match templates !! tag with
           | Some templateSet =>
               match mcpServers templateSet with
               | Some servers => pushEntries acc servers
               | None => acc
               end
           | None => acc
           end) tags acc in
    accOk acc' /\ Forall builtIn acc'.2).
  { induction tags as [|t ts IH]; intros acc Hok Hb; simpl; [auto|].
    destruct (templates !! t) as [ts'|]; [|now apply IH].
    destruct (mcpServers ts') as [servers|]; [|now apply IH].
    destruct (pushEntries_ok acc servers Hok Hb). now apply IH. }
  destruct (H (∅, []) accOk_empty (Forall_nil _)) as [[Hnd _] Hb].
  split; assumption.
Qed.

(** *** deduplicateServers *)

Section Dedup.
Variable localeCompare : jsstring -> jsstring -> Z.

Lemma deduplicateServers_perm (local remote : list McpServerRecommendation) :
  deduplicateServers localeCompare local remote ≡ₚ merged local remote.
Proof. unfold deduplicateServers. apply sortWith_perm. Qed.

Lemma merged_spec (local remote : list McpServerRecommendation) :
  NoDup (map name (merged local remote))
  /\ (forall r, In r (merged local remote) ->
        (In r local \/ In r remote)
        /\ (In (name r) (map name local) -> In r local))
  /\ (forall n, In n (map name local) \/ In n (map name remote) ->
        In n (map name (merged local remote))).
Proof.
  unfold merged.
  destruct (fold_pushUnseen local (∅, []) accOk_empty)
    as (Hok1 & Hnames1 & extra1 & Hres1 & Hextra1).
  destruct (fold_pushUnseen remote _ Hok1)
    as (Hok2 & Hnames2 & extra2 & Hres2 & Hextra2).
  simpl in Hres1.
  split; [apply Hok2|]. split.
  - intros r Hr. rewrite Hres2, Hres1 in Hr.
    apply in_app_iff in Hr. destruct Hr as [Hr | Hr].
    + destruct (Hextra1 r Hr) as [Hin _]. auto.
    + destruct (Hextra2 r Hr) as [Hin Hnot]. split; [auto|].
      intros Hname. exfalso. apply Hnot. apply Hnames1. now right.
  - intros n Hn. apply Hok2. apply Hnames2. rewrite Hnames1. tauto.
Qed.

Lemma merged_local_only (local : list McpServerRecommendation) :
  NoDup (map name local) -> merged local [] = local.
Proof.
  intros Hnd. unfold merged. simpl.
  rewrite fold_pushUnseen_fresh; [reflexivity | exact Hnd|].
  intros r _. simpl. apply not_elem_of_empty.
Qed.

(** *** The remote registry *)

Lemma fetchRemoteServers_returns (remote : Remote) (tags : list Tag)
    (registryUrl : jsstring) (timeoutMs : N) :
  exists servers,
    fetchRemoteServers remote tags registryUrl timeoutMs = Ok servers.
Proof.
  unfold fetchRemoteServers, tryCatch.
  destruct (fetchRemoteServersTry remote tags registryUrl timeoutMs)
    as [servers | [message url | ]]; eauto.
Qed.

Lemma fetchRemoteServers_failure (remote : Remote) (tags : list Tag)
    (registryUrl : jsstring) (timeoutMs : N) :
  remoteFails remote timeoutMs ->
  fetchRemoteServers remote tags registryUrl timeoutMs = Ok [].
Proof.
  unfold fetchRemoteServers, fetchRemoteServersTry, fetch, responseJson.
  destruct remote as [| | afterMs [isOk code content]]; simpl;
    [reflexivity | reflexivity |].
  intros Hfail. destruct (afterMs <? timeoutMs)%N eqn:Hlt; [|reflexivity].
  simpl. destruct isOk; [|reflexivity]. simpl.
  destruct content as [| [servers|]]; [reflexivity | | reflexivity].
  exfalso. apply N.ltb_lt in Hlt.
  destruct Hfail as [H | [H | [H | H]]]; [lia | discriminate H ..].
Qed.

(** [discoverServers] always returns the deduplicated local servers
    and some list of remote ones. *)
Lemma discoverServers_returns (templates : gmap Tag TagTemplateSet)
    (defaultRegistryUrl : jsstring) (network : jsstring -> Remote)
    (tags : list Tag) (options : option McpDiscoveryOptions) :
  exists remoteServers,
    discoverServers localeCompare templates defaultRegistryUrl network
      tags options
    = Ok (deduplicateServers localeCompare
            (loadLocalServers templates tags) remoteServers).
Proof.
  unfold discoverServers.
  destruct options as [opts|]; [|now exists []].
  destruct (default false (includeRemote opts)); [|now exists []].
  destruct (negb _); [|now exists []].
  destruct (fetchRemoteServers_returns
              (network (default defaultRegistryUrl (remoteRegistryUrl opts)))
              tags (default defaultRegistryUrl (remoteRegistryUrl opts))
              (default DEFAULT_REMOTE_TIMEOUT_MS (remoteTimeoutMs opts)))
    as [servers ->].
  now exists servers.
Qed.

(** With a registry whose body is read at once: when it fails (the
    connection fails, no response arrives before the abort timer fires,
    the status is not a success, the body cannot be read, or it has no
    [servers] array), the remote fetch returns the empty list instead
    of throwing, and [discoverServers] returns the local servers and
    nothing else, the sorted list of what the templates gave. *)
Lemma remote_failure_gives_local_servers
    (templates : gmap Tag TagTemplateSet) (defaultRegistryUrl : jsstring)
    (network : jsstring -> Remote) (tags : list Tag)
    (opts : McpDiscoveryOptions) :
  remoteFails
    (network (default defaultRegistryUrl (remoteRegistryUrl opts)))
    (default DEFAULT_REMOTE_TIMEOUT_MS (remoteTimeoutMs opts)) ->
  fetchRemoteServers
    (network (default defaultRegistryUrl (remoteRegistryUrl opts))) tags
    (default defaultRegistryUrl (remoteRegistryUrl opts))
    (default DEFAULT_REMOTE_TIMEOUT_MS (remoteTimeoutMs opts)) = Ok []
  /\ discoverServers localeCompare templates defaultRegistryUrl network
       tags (Some opts)
     = Ok (sortWith (compareServers localeCompare)
             (loadLocalServers templates tags))
  /\ sortWith (compareServers localeCompare)
       (loadLocalServers templates tags)
     ≡ₚ loadLocalServers templates tags
  /\ Forall builtIn
       (sortWith (compareServers localeCompare)
          (loadLocalServers templates tags)).
Proof.
  intros Hfail.
  pose proof (fetchRemoteServers_failure _ tags
                (default defaultRegistryUrl (remoteRegistryUrl opts))
                _ Hfail) as Hfetch.
  destruct (loadLocalServers_ok templates tags) as [Hnd Hb].
  split; [exact Hfetch|]. split; [|split].
  - unfold discoverServers. rewrite Hfetch.
    assert (Hlocal :
      deduplicateServers localeCompare (loadLocalServers templates tags) []
      = sortWith (compareServers localeCompare)
          (loadLocalServers templates tags)).
    { unfold deduplicateServers.
      change (fold_left pushUnseen []
                (fold_left pushUnseen (loadLocalServers templates tags)
                   (∅, []))).2
        with (merged (loadLocalServers templates tags) []).
      now rewrite merged_local_only. }
    destruct (default false (includeRemote opts));
      [destruct (negb _)|]; simpl; now rewrite Hlocal.
  - apply sortWith_perm.
  - rewrite sortWith_perm. exact Hb.
Qed.

Lemma same_name_same_server (l : list McpServerRecommendation)
    (a b : McpServerRecommendation) :
  NoDup (map name l) -> In a l -> In b l -> name a = name b -> a = b.
Proof.
  induction l as [|x l IH]; [intros _ []|].
  cbn [map]. intros Hnd. apply list.NoDup_cons in Hnd.
  destruct Hnd as [Hx Hnd].
  intros [-> | Ha] [-> | Hb] Heq; [reflexivity | | | now apply IH].
  - exfalso. apply Hx. rewrite Heq. apply list_elem_of_In.
    now apply (List.in_map name).
  - exfalso. apply Hx. rewrite <- Heq. apply list_elem_of_In.
    now apply (List.in_map name).
Qed.

(** What [discoverServers] returns: the deduplicated local servers and
    requested remote servers. *)
Lemma discoverServers_requested (templates : gmap Tag TagTemplateSet)
    (defaultRegistryUrl : jsstring) (network : jsstring -> Remote)
    (tags : list Tag) (options : option McpDiscoveryOptions) :
  discoverServers localeCompare templates defaultRegistryUrl network
    tags options
  = Ok (deduplicateServers localeCompare
          (loadLocalServers templates tags)
          (requestedRemoteServers defaultRegistryUrl network tags options)).
Proof.
  unfold discoverServers, requestedRemoteServers.
  destruct options as [opts|]; [|reflexivity].
  destruct (includeRemote opts) as [[|]|]; cbn [default]; try reflexivity.
  destruct (default defaultRegistryUrl (remoteRegistryUrl opts))
    as [|c url] eqn:Hurl; [reflexivity|].
  cbn [length Nat.eqb negb].
  destruct (fetchRemoteServers_returns (network (c :: url)) tags (c :: url)
              (default DEFAULT_REMOTE_TIMEOUT_MS (remoteTimeoutMs opts)))
    as [servers ->].
  reflexivity.
Qed.

(** With the registry in detail, a list that [discoverServers] returns
    is the deduplicated local servers and remote entries. *)
Lemma detailed_discovery_returns (templates : gmap Tag TagTemplateSet)
    (defaultRegistryUrl : jsstring)
    (network : jsstring -> RemoteRegistry.Registry)
    (tags : list Tag) (options : option McpDiscoveryOptions)
    (result : list McpServerRecommendation) :
  RemoteRegistry.discoverServers localeCompare templates defaultRegistryUrl
    network tags options
  = RemoteRegistry.Returns result ->
  exists entries,
    result = deduplicateServers localeCompare
               (loadLocalServers templates tags)
               (map (fun e => entryToRecommendation e (js "remote")) entries).
Proof.
  unfold RemoteRegistry.discoverServers. cbv zeta. intros H.
  match type of H with
  | match ?m with _ => _ end = _ => destruct m as [kept | e |]
  end; try discriminate H.
  destruct (mapM RemoteRegistry.decodeEntry kept) as [entries|];
    [|discriminate H].
  injection H as <-. now exists entries.
Qed.

(** C7.  The list [deduplicateServers] returns has no two servers of
    the same name; it is made of local and remote servers; a server in
    it whose name a local server has is a local server; every local
    name is in it, held by a local server; and every remote server
    whose name no local server has is represented by a remote server
    of that name.  [discoverServers] returns such a list for the local
    servers of the templates and the remote servers it requested: no
    name occurs twice, every local server is in it, the server of a
    local name is the local, built-in one, every other server is a
    requested remote server, and every requested remote server has its
    name in the list.  With the registry in detail, whenever
    [discoverServers] returns a list it is such a list too: no name
    occurs twice, every local server is in it, the server of a local
    name is the local, built-in one, and every other server is marked
    ["remote"]. *)
Theorem discovered_names_unique_local_first :
  (forall local remote : list McpServerRecommendation,
      NoDup (map name (deduplicateServers localeCompare local remote))
      /\ (forall r, In r (deduplicateServers localeCompare local remote) ->
            In r local \/ In r remote)
      /\ (forall r, In r (deduplicateServers localeCompare local remote) ->
            In (name r) (map name local) -> In r local)
      /\ (forall l, In l local ->
            exists r, In r (deduplicateServers localeCompare local remote)
                      /\ In r local /\ name r = name l)
      /\ (forall r, In r remote -> ~ In (name r) (map name local) ->
            exists r', In r' (deduplicateServers localeCompare local remote)
                       /\ In r' remote /\ name r' = name r))
  /\ (forall (templates : gmap Tag TagTemplateSet)
             (defaultRegistryUrl : jsstring) (network : jsstring -> Remote)
             (tags : list Tag) (options : option McpDiscoveryOptions),
        exists result,
          discoverServers localeCompare templates defaultRegistryUrl
            network tags options = Ok result
          /\ NoDup (map name result)
          /\ (forall l, In l (loadLocalServers templates tags) ->
                In l result)
          /\ (forall r, In r result ->
                In (name r) (map name (loadLocalServers templates tags)) ->
                In r (loadLocalServers templates tags)
                /\ source r = js "built-in")
          /\ (forall r, In r result ->
                In r (loadLocalServers templates tags)
                \/ In r (requestedRemoteServers defaultRegistryUrl network
                           tags options))
          /\ (forall r,
                In r (requestedRemoteServers defaultRegistryUrl network
                        tags options) ->
                In (name r) (map name result)))
  /\ (forall (templates : gmap Tag TagTemplateSet)
             (defaultRegistryUrl : jsstring)
             (network : jsstring -> RemoteRegistry.Registry)
             (tags : list Tag) (options : option McpDiscoveryOptions)
             (result : list McpServerRecommendation),
        RemoteRegistry.discoverServers localeCompare templates
          defaultRegistryUrl network tags options
        = RemoteRegistry.Returns result ->
        NoDup (map name result)
        /\ (forall l, In l (loadLocalServers templates tags) ->
              In l result)
        /\ (forall r, In r result ->
              In (name r) (map name (loadLocalServers templates tags)) ->
              In r (loadLocalServers templates tags)
              /\ source r = js "built-in")
        /\ (forall r, In r result ->
              In r (loadLocalServers templates tags)
              \/ source r = js "remote")).
Proof.
  assert (Hdedup : forall local remote : list McpServerRecommendation,
      NoDup (map name (deduplicateServers localeCompare local remote))
      /\ (forall r, In r (deduplicateServers localeCompare local remote) ->
            In r local \/ In r remote)
      /\ (forall r, In r (deduplicateServers localeCompare local remote) ->
            In (name r) (map name local) -> In r local)
      /\ (forall l, In l local ->
            exists r, In r (deduplicateServers localeCompare local remote)
                      /\ In r local /\ name r = name l)
      /\ (forall r, In r remote -> ~ In (name r) (map name local) ->
            exists r', In r' (deduplicateServers localeCompare local remote)
                       /\ In r' remote /\ name r' = name r)).
  { intros local remote.
    pose proof (deduplicateServers_perm local remote) as Hperm.
    destruct (merged_spec local remote) as (Hnd & Hin & Hnames).
    assert (Hback : forall r, In r (merged local remote) ->
                      In r (deduplicateServers localeCompare local remote))
      by (intros r; apply (Permutation_in _ (Permutation_sym Hperm))).
    split; [|split; [|split; [|split]]].
    - rewrite (Permutation_map name Hperm). exact Hnd.
    - intros r Hr. apply (Permutation_in _ Hperm) in Hr. now apply Hin.
    - intros r Hr Hname.
      apply (Permutation_in _ Hperm) in Hr. now apply Hin.
    - intros l Hl.
      assert (Hn : In (name l) (map name (merged local remote))).
      { apply Hnames. left. now apply (List.in_map name). }
      apply in_map_iff in Hn. destruct Hn as (r & Heq & Hr).
      exists r. split; [now apply Hback|]. split; [|exact Heq].
      apply Hin; [exact Hr|]. rewrite Heq. now apply (List.in_map name).
    - intros r Hr Hfresh.
      assert (Hn : In (name r) (map name (merged local remote))).
      { apply Hnames. right. now apply (List.in_map name). }
      apply in_map_iff in Hn. destruct Hn as (r' & Heq & Hr').
      exists r'. split; [now apply Hback|]. split; [|exact Heq].
      destruct (Hin r' Hr') as [[Hl | Hrem] _]; [|exact Hrem].
      exfalso. apply Hfresh. rewrite <- Heq. now apply (List.in_map name). }
  split; [exact Hdedup|]. split.
  - intros templates defaultRegistryUrl network tags options.
    eexists. split; [apply discoverServers_requested|].
    destruct (Hdedup (loadLocalServers templates tags)
                (requestedRemoteServers defaultRegistryUrl network tags
                   options))
      as (Hnd & Hfrom & Hlocal & Hkept & Hremote).
    destruct (loadLocalServers_ok templates tags) as [Hnames Hb].
    split; [exact Hnd|]. split; [|split; [|split]].
    + intros l Hl. destruct (Hkept l Hl) as (r & Hr & Hrl & Heq).
      now rewrite <- (same_name_same_server _ _ _ Hnames Hrl Hl Heq).
    + intros r Hr Hname. split; [now apply Hlocal|].
      rewrite List.Forall_forall in Hb. apply Hb. now apply Hlocal.
    + exact Hfrom.
    + intros r Hr.
      destruct (in_dec (list_eq_dec N.eq_dec) (name r)
                  (map name (loadLocalServers templates tags)))
        as [Hl | Hfresh].
      * apply in_map_iff in Hl. destruct Hl as (l & Heq & Hl).
        rewrite <- Heq. apply (List.in_map name). destruct (Hkept l Hl)
          as (r' & Hr' & Hrl & Heq').
        now rewrite <- (same_name_same_server _ _ _ Hnames Hrl Hl Heq').
      * destruct (Hremote r Hr Hfresh) as (r' & Hr' & _ & Heq).
        rewrite <- Heq. now apply (List.in_map name).
  - intros templates defaultRegistryUrl network tags options result Hret.
    destruct (detailed_discovery_returns templates defaultRegistryUrl
                network tags options result Hret) as (entries & ->).
    destruct (Hdedup (loadLocalServers templates tags)
                (map (fun e => entryToRecommendation e (js "remote"))
                   entries))
      as (Hnd & Hfrom & Hlocal & Hkept & _).
    destruct (loadLocalServers_ok templates tags) as [Hnames Hb].
    split; [exact Hnd|]. split; [|split].
    + intros l Hl. destruct (Hkept l Hl) as (r & Hr & Hrl & Heq).
      now rewrite <- (same_name_same_server _ _ _ Hnames Hrl Hl Heq).
    + intros r Hr Hname. split; [now apply Hlocal|].
      rewrite List.Forall_forall in Hb. apply Hb. now apply Hlocal.
    + intros r Hr. destruct (Hfrom r Hr) as [Hl | Hrem]; [now left|].
      right. apply in_map_iff in Hrem. now destruct Hrem as (e & <- & _).
Qed.
End Dedup.

(** The tests of the discovery test suite: a 404 leaves the built-in
    server alone; a registry with a server of the same name adds only
    its other server. *)
Example discover_not_found :
  discoverServers Samples.compareUnits Samples.templates [] Samples.notFound
    [js "UNIVERSAL"] (Some Samples.remoteOptions)
  = Ok [entryToRecommendation Samples.forgecraft (js "built-in")].
Proof. vm_compute. reflexivity. Qed.

Example discover_local_priority :
  discoverServers Samples.compareUnits Samples.templates [] Samples.registry
    [js "UNIVERSAL"] (Some Samples.remoteOptions)
  = Ok [entryToRecommendation Samples.forgecraft (js "built-in");
        entryToRecommendation Samples.remoteOnly (js "remote")].
Proof. vm_compute. reflexivity. Qed.

End McpDiscoveryFacts.

(* ===================================================================== *)
(** ** Merging the settings *)
(* ===================================================================== *)

Module ConfigureMcpFacts.
Import JsString Exn ConfigureMcp.

(** *** The set of rules *)

Lemma seen_string (x : jsstring) (acc : list jsstring) :
  existsb (sameValueZero (JStr x)) (map JStr acc) = true <-> In x acc.
Proof.
  rewrite existsb_exists. split.
  - intros (v & Hin & Heq). apply in_map_iff in Hin.
    destruct Hin as (y & <- & Hy). simpl in Heq.
    apply bool_decide_eq_true in Heq. now subst.
  - intros Hin. exists (JStr x). split; [now apply in_map|].
    simpl. now apply bool_decide_eq_true.
Qed.

Lemma fold_setAdd_strings (xs : list jsstring) :
  forall acc, NoDup acc ->
    exists ys,
      fold_left setAdd (map JStr xs) (map JStr acc) = map JStr ys
      /\ NoDup ys
      /\ forall r, In r ys <-> In r acc \/ In r xs.
Proof.
  induction xs as [|x xs IH]; intros acc Hnd; simpl.
  - exists acc. split; [reflexivity|]. split; [exact Hnd | tauto].
  - unfold setAdd at 2.
    destruct (existsb (sameValueZero (JStr x)) (map JStr acc)) eqn:Hseen.
    + apply seen_string in Hseen.
      destruct (IH acc Hnd) as (ys & Heq & Hnd' & Hin).
      exists ys. split; [exact Heq|]. split; [exact Hnd'|].
      intros r. rewrite Hin. split; [tauto|].
      intros [H | [<- | H]]; auto.
    + assert (Hnot : ~ In x acc).
      { intros Hin. apply seen_string in Hin. congruence. }
      assert (Hnd1 : NoDup (acc ++ [x])).
      { apply list.NoDup_app. split; [exact Hnd|]. split; [|apply NoDup_singleton].
        intros y Hy Hx. apply list_elem_of_singleton in Hx. subst y.
        apply Hnot. now apply list_elem_of_In. }
      destruct (IH (acc ++ [x]) Hnd1) as (ys & Heq & Hnd' & Hin).
      exists ys. rewrite map_app in Heq. split; [exact Heq|].
      split; [exact Hnd'|].
      intros r. rewrite Hin, in_app_iff. simpl. tauto.
Qed.

(** The rules written back: each rule once, the existing ones and the
    new ones and no other. *)
Lemma dedupe_strings (xs : list jsstring) :
  exists ys, dedupe (map JStr xs) = map JStr ys
             /\ NoDup ys /\ forall r, In r ys <-> In r xs.
Proof.
  destruct (fold_setAdd_strings xs [] (NoDup_nil_2 (A:=jsstring))) as (ys & Heq & Hnd & Hin).
  exists ys. split; [exact Heq|]. split; [exact Hnd|].
  intros r. rewrite Hin. simpl. tauto.
Qed.

(** *** The merged record *)

Lemma getProp_record (fields : gmap jsstring json) (key : jsstring) :
  getProp (JObj fields) key = Ok (fields !! key).
Proof. reflexivity. Qed.

Lemma getProp_nullish (v : option json) (key : jsstring) :
  getProp (nullish v (JObj ∅)) key
  = Ok (ownProps (Some (nullish v (JObj ∅))) !! key).
Proof. destruct v as [[]|]; reflexivity. Qed.

(** With a list-valued [permissions.allow] the merge goes through. *)
Lemma mergeTry_record (existing : gmap jsstring json)
    (mcpConfig : gmap jsstring McpServerConfig)
    (permissionRules rules : list jsstring) :
  existingRules existing rules ->
  mergeTry (JObj existing) mcpConfig permissionRules =
  Ok (<[ js "mcpServers" :=
           JObj ((configJson <$> mcpConfig) ∪ existingServers existing) ]>
      (<[ js "permissions" :=
            JObj (<[ js "allow" :=
                       JArr (dedupe (map JStr (rules ++ permissionRules))) ]>
                    (existingPermissions existing)) ]>
       existing)).
Proof.
  unfold existingRules, existingPermissions, existingServers, mergeTry.
  intros Hrules. rewrite !getProp_record. cbn [mbind Result_bind].
  rewrite getProp_nullish. cbn [mbind Result_bind].
  rewrite Hrules. simpl iterate. cbn [mbind Result_bind].
  rewrite map_app. reflexivity.
Qed.

Lemma settings_keys_differ : js "mcpServers" <> js "permissions".
Proof. intros H. vm_compute in H. discriminate H. Qed.

(** C9.  Merging new settings into an existing settings record whose
    [permissions.allow] is list-valued: every top-level key other than
    [permissions] and [mcpServers] keeps its existing value; under
    [mcpServers] every newly configured server has its new value and
    every other existing server is kept; under [permissions] every key
    other than [allow] is kept and [allow] holds each existing rule and
    each new rule once, and nothing else. *)
Theorem settings_merge_precedence (existing : gmap jsstring json)
    (mcpConfig : gmap jsstring McpServerConfig)
    (permissionRules rules : list jsstring) :
  existingRules existing rules ->
  (forall key, key <> js "permissions" -> key <> js "mcpServers" ->
      mergedSettings (Parsed (JObj existing)) mcpConfig permissionRules !! key
      = existing !! key)
  /\ (exists servers,
        mergedSettings (Parsed (JObj existing)) mcpConfig permissionRules
          !! js "mcpServers" = Some (JObj servers)
        /\ (forall n c, mcpConfig !! n = Some c ->
              servers !! n = Some (configJson c))
        /\ (forall n, mcpConfig !! n = None ->
              servers !! n = existingServers existing !! n))
  /\ (exists perms allow,
        mergedSettings (Parsed (JObj existing)) mcpConfig permissionRules
          !! js "permissions" = Some (JObj perms)
        /\ (forall key, key <> js "allow" ->
              perms !! key = existingPermissions existing !! key)
        /\ perms !! js "allow" = Some (JArr (map JStr allow))
        /\ NoDup allow
        /\ forall r, In r allow <-> In r rules \/ In r permissionRules).
Proof.
  intros Hrules. unfold mergedSettings.
  rewrite (mergeTry_record _ _ _ _ Hrules).
  split; [|split].
  - intros key Hp Hs. rewrite !lookup_insert_ne by congruence. reflexivity.
  - eexists. split; [apply lookup_insert_eq|]. split.
    + intros n c Hc. apply lookup_union_Some_l. now rewrite lookup_fmap, Hc.
    + intros n Hn. apply lookup_union_r. now rewrite lookup_fmap, Hn.
  - destruct (dedupe_strings (rules ++ permissionRules)) as (allow & Heq & Hnd & Hin).
    eexists. exists allow. split.
    { rewrite lookup_insert_ne by apply settings_keys_differ.
      apply lookup_insert_eq. }
    split; [|split; [|split]].
    + intros key Hk. now rewrite lookup_insert_ne by congruence.
    + rewrite lookup_insert_eq. now rewrite Heq.
    + exact Hnd.
    + intros r. rewrite Hin. apply in_app_iff.
Qed.

Lemma settings_merge_precedence_witness :
  (forall key, key <> js "permissions" -> key <> js "mcpServers" ->
      mergedSettings (Parsed (JObj Samples.existingSettings))
        Samples.newConfig Samples.newRules !! key
      = Samples.existingSettings !! key)
  /\ (exists servers,
        mergedSettings (Parsed (JObj Samples.existingSettings))
          Samples.newConfig Samples.newRules
          !! js "mcpServers" = Some (JObj servers)
        /\ (forall n c, Samples.newConfig !! n = Some c ->
              servers !! n = Some (configJson c))
        /\ (forall n, Samples.newConfig !! n = None ->
              servers !! n = existingServers Samples.existingSettings !! n))
  /\ (exists perms allow,
        mergedSettings (Parsed (JObj Samples.existingSettings))
          Samples.newConfig Samples.newRules
          !! js "permissions" = Some (JObj perms)
        /\ (forall key, key <> js "allow" ->
              perms !! key = existingPermissions Samples.existingSettings !! key)
        /\ perms !! js "allow" = Some (JArr (map JStr allow))
        /\ NoDup allow
        /\ forall r, In r allow <->
              In r [js "Bash(ls)"; js "mcp__context7__*"]
              \/ In r Samples.newRules).
Proof.
  apply (settings_merge_precedence Samples.existingSettings
           Samples.newConfig Samples.newRules
           [js "Bash(ls)"; js "mcp__context7__*"]).
  vm_compute. reflexivity.
Defined.

(** The sample merge, computed: the new [context7] replaces the old
    one, [mine] and [theme] stay, and the rule that is in both lists is
    written once. *)
Example merged_sample :
  mergedSettings (Parsed (JObj Samples.existingSettings))
    Samples.newConfig Samples.newRules
  = {[ js "permissions" :=
         JObj {[ js "allow" := JArr [JStr (js "Bash(ls)");
                                     JStr (js "mcp__context7__*")];
                 js "deny" := JArr [JStr (js "Bash(rm)")] ]};
       js "mcpServers" :=
         JObj {[ js "context7" := configJson Samples.context7Config;
                 js "mine" := JObj {[ js "command" := JStr (js "node") ]} ]};
       js "theme" := JStr (js "dark") ]}.
Proof. vm_compute. reflexivity. Qed.

(** When [permissions.allow] cannot be iterated the spread throws, the
    [catch] takes over and the new settings are written alone. *)
Lemma not_iterable_overwrites (existing : gmap jsstring json)
    (mcpConfig : gmap jsstring McpServerConfig)
    (permissionRules : list jsstring) (q : Qc) :
  existingPermissions existing !! js "allow" = Some (JNum q) ->
  mergedSettings (Parsed (JObj existing)) mcpConfig permissionRules
  = newSettings mcpConfig permissionRules.
Proof.
  unfold existingPermissions, mergedSettings, mergeTry. intros Hallow.
  rewrite !getProp_record. cbn [mbind Result_bind].
  rewrite getProp_nullish. cbn [mbind Result_bind].
  rewrite Hallow. reflexivity.
Qed.

Example odd_settings_overwritten :
  mergedSettings (Parsed (JObj Samples.oddSettings))
    Samples.newConfig Samples.newRules
  = newSettings Samples.newConfig Samples.newRules.
Proof. apply (not_iterable_overwrites _ _ _ (Q2Qc (Qmake 5 1))). reflexivity. Qed.

End ConfigureMcpFacts.

(* ===================================================================== *)
(** ** The template renderer *)
(* ===================================================================== *)

Module RendererFacts.
Import JsString Context Renderer.

(** Boolean tests on code units, read as arithmetic. *)
Ltac units :=
  repeat match goal with
         | H : _ = true |- _ =>
             first [ apply andb_true_iff in H; destruct H
                   | apply orb_true_iff in H; destruct H
                   | apply N.eqb_eq in H
                   | apply N.leb_le in H
                   | apply negb_true_iff in H ]
         | H : _ = false |- _ =>
             first [ apply orb_false_iff in H; destruct H
                   | apply N.eqb_neq in H
                   | apply N.leb_gt in H ]
         end.

(** *** Prefixes *)

Lemma stripPrefix_app (p s : jsstring) : stripPrefix p (p ++ s) = Some s.
Proof.
  induction p as [|a p IH]; simpl; [now destruct s|].
  now rewrite N.eqb_refl.
Qed.

Lemma stripPrefix_head (a b : N) (p s : jsstring) :
  a <> b -> stripPrefix (a :: p) (b :: s) = None.
Proof. intros H. simpl. now rewrite (proj2 (N.eqb_neq a b) H). Qed.

Lemma stripPrefix_same (a : N) (p s : jsstring) :
  stripPrefix (a :: p) (a :: s) = stripPrefix p s.
Proof. simpl. now rewrite N.eqb_refl. Qed.

Lemma stripPrefix_Some (p s rest : jsstring) :
  stripPrefix p s = Some rest -> s = p ++ rest.
Proof.
  revert s. induction p as [|a p IH]; intros s; simpl.
  - destruct s; intros [= <-]; reflexivity.
  - destruct s as [|b s]; [discriminate|].
    destruct (a =? b) eqn:Hab; [|discriminate].
    apply N.eqb_eq in Hab. subst b. intros H. now rewrite (IH _ H).
Qed.

(** *** Whitespace and names *)

Lemma nameChar_not_white (c : N) : isNameChar c = true -> isWhiteSpace c = false.
Proof.
  unfold isNameChar, isWhiteSpace. intros H.
  apply not_true_iff_false. intros H'.
  units; lia.
Qed.

Lemma trimStart_blank (ws s : jsstring) :
  isBlank ws -> trimStart (ws ++ s) = trimStart s.
Proof.
  unfold isBlank. induction ws as [|c ws IH]; simpl; [reflexivity|].
  intros H. apply andb_true_iff in H. destruct H as [-> H]. now apply IH.
Qed.

Lemma trimStart_stop (c : N) (s : jsstring) :
  isWhiteSpace c = false -> trimStart (c :: s) = c :: s.
Proof. intros H. simpl. now rewrite H. Qed.

Lemma trimStart_name (name s : jsstring) :
  isName name -> trimStart (name ++ s) = name ++ s.
Proof.
  intros [Hne Hall]. destruct name as [|c name]; [now destruct Hne|].
  simpl in Hall. apply andb_true_iff in Hall. destruct Hall as [Hc _].
  apply trimStart_stop. now apply nameChar_not_white.
Qed.

Lemma spanName_app (name k : jsstring) :
  forallb isNameChar name = true -> endsName k ->
  spanName (name ++ k) = (name, k).
Proof.
  intros Hall Hk. induction name as [|c name IH]; simpl.
  - destruct k as [|d k]; [reflexivity|]. simpl in Hk. cbn [spanName].
    now rewrite Hk.
  - simpl in Hall. apply andb_true_iff in Hall. destruct Hall as [-> Hall].
    now rewrite (IH Hall).
Qed.

Lemma endsName_blank (ws k : jsstring) :
  isBlank ws -> endsName k -> endsName (ws ++ k).
Proof.
  unfold isBlank. destruct ws as [|c ws]; simpl; [tauto|].
  intros H _. apply andb_true_iff in H. destruct H as [Hc _].
  apply not_true_iff_false. intros Hn.
  apply nameChar_not_white in Hn. congruence.
Qed.

(** *** Searching *)

Lemma breakOn_first (a : N) (pat v post : jsstring) :
  forallb (fun c => negb (c =? a)) v = true ->
  breakOn (a :: pat) (v ++ (a :: pat) ++ post) = Some (v, post).
Proof.
  induction v as [|c v IH]; intros Hv.
  - change ([] ++ (a :: pat) ++ post) with ((a :: pat) ++ post).
    assert (H := stripPrefix_app (a :: pat) post).
    destruct ((a :: pat) ++ post) eqn:E; [discriminate E|].
    unfold breakOn. now rewrite H.
  - simpl in Hv. apply andb_true_iff in Hv. destruct Hv as [Hc Hv].
    apply negb_true_iff, N.eqb_neq in Hc.
    change ((c :: v) ++ (a :: pat) ++ post)
      with (c :: (v ++ (a :: pat) ++ post)).
    cbn [breakOn]. rewrite stripPrefix_head by congruence.
    now rewrite (IH Hv).
Qed.

(** *** Trimming *)

Lemma trimStart_all_blank (ws : jsstring) : isBlank ws -> trimStart ws = [].
Proof.
  intros H. rewrite <- (app_nil_r ws). now rewrite trimStart_blank.
Qed.

Lemma trimStart_app_blank (d b : jsstring) :
  isBlank b ->
  (trimStart (d ++ b) = trimStart d ++ b /\ trimStart d <> [])
  \/ (trimStart (d ++ b) = [] /\ trimStart d = []).
Proof.
  intros Hb. induction d as [|c d IH].
  - right. split; [now apply trimStart_all_blank | reflexivity].
  - cbn [app trimStart]. destruct (isWhiteSpace c); [exact IH|].
    left. split; [reflexivity | discriminate].
Qed.

Lemma isBlank_rev (ws : jsstring) : isBlank ws -> isBlank (rev ws).
Proof.
  unfold isBlank. rewrite !forallb_forall. intros H c Hc.
  apply H. now apply in_rev.
Qed.

(** Whitespace around a text does not change what [trim] gives. *)
Lemma trim_pad (a d b : jsstring) :
  isBlank a -> isBlank b -> trim (a ++ d ++ b) = trim d.
Proof.
  intros Ha Hb. unfold trim, trimEnd. rewrite (trimStart_blank a) by exact Ha.
  destruct (trimStart_app_blank d b Hb) as [[-> _] | [-> ->]]; [|reflexivity].
  rewrite rev_app_distr. now rewrite trimStart_blank by now apply isBlank_rev.
Qed.

(** *** Reading a placeholder *)

Lemma length_name (name : jsstring) :
  isName name -> Nat.eqb (length name) 0 = false.
Proof. intros [Hne _]. destruct name; [now destruct Hne | reflexivity]. Qed.

Lemma parsePlaceholder_plain (ws1 name ws2 post : jsstring) :
  isBlank ws1 -> isName name -> isBlank ws2 ->
  parsePlaceholder (placeholder ws1 name ws2 ++ post) = Some (name, None, post).
Proof.
  intros H1 Hn H2. unfold parsePlaceholder, placeholder.
  rewrite <- !app_assoc, stripPrefix_app. cbn [mbind option_bind].
  rewrite (trimStart_blank ws1) by exact H1.
  rewrite (trimStart_name name) by exact Hn.
  rewrite spanName_app;
    [| apply Hn | apply endsName_blank; [exact H2 | reflexivity]].
  rewrite (length_name name Hn).
  rewrite (trimStart_blank ws2) by exact H2.
  change (js "}}" ++ post) with (125 :: 125 :: post) at 1.
  rewrite trimStart_stop by reflexivity.
  change (125 :: 125 :: post) with (js "}}" ++ post).
  now rewrite stripPrefix_app.
Qed.

Lemma blank_no_brace (ws : jsstring) :
  isBlank ws -> forallb (fun c => negb (c =? 125)) ws = true.
Proof.
  unfold isBlank. rewrite !forallb_forall. intros H c Hc.
  specialize (H c Hc). apply negb_true_iff, N.eqb_neq. intros ->.
  discriminate H.
Qed.

Lemma plain_no_brace (d : jsstring) :
  isPlainValue d -> forallb (fun c => negb (c =? 125)) d = true.
Proof.
  intros [H _]. rewrite forallb_forall in *. intros c Hc.
  specialize (H c Hc). apply andb_true_iff in H. tauto.
Qed.

Lemma parsePlaceholder_default (ws1 name ws2 ws3 ws4 d ws5 post : jsstring) :
  isBlank ws1 -> isName name -> isBlank ws2 -> isBlank ws3 -> isBlank ws4 ->
  isPlainValue d -> isBlank ws5 ->
  parsePlaceholder (placeholderWithDefault ws1 name ws2 ws3 ws4 d ws5 ++ post)
  = Some (name, Some d, post).
Proof.
  intros H1 Hn H2 H3 H4 Hd H5. unfold parsePlaceholder, placeholderWithDefault.
  rewrite <- !app_assoc, stripPrefix_app. cbn [mbind option_bind].
  rewrite (trimStart_blank ws1) by exact H1.
  rewrite (trimStart_name name) by exact Hn.
  rewrite spanName_app;
    [| apply Hn | apply endsName_blank; [exact H2 | reflexivity]].
  rewrite (length_name name Hn).
  rewrite (trimStart_blank ws2) by exact H2.
  change (js "|" ++ ws3 ++ js "default:" ++ ws4 ++ d ++ ws5 ++ js "}}" ++ post)
    with (124 :: (ws3 ++ js "default:" ++ ws4 ++ d ++ ws5 ++ js "}}" ++ post)).
  rewrite trimStart_stop by reflexivity.
  change (js "}}") with [125; 125] at 1.
  rewrite stripPrefix_head by discriminate.
  change (124 :: (ws3 ++ js "default:" ++ ws4 ++ d ++ ws5 ++ js "}}" ++ post))
    with (js "|" ++ (ws3 ++ js "default:" ++ ws4 ++ d ++ ws5 ++ js "}}" ++ post)).
  rewrite stripPrefix_app. cbn [mbind option_bind].
  rewrite (trimStart_blank ws3) by exact H3.
  change (js "default:" ++ ws4 ++ d ++ ws5 ++ js "}}" ++ post)
    with (100 :: (js "efault:" ++ ws4 ++ d ++ ws5 ++ js "}}" ++ post)) at 1.
  rewrite trimStart_stop by reflexivity.
  change (100 :: (js "efault:" ++ ws4 ++ d ++ ws5 ++ js "}}" ++ post))
    with (js "default:" ++ (ws4 ++ d ++ ws5 ++ js "}}" ++ post)).
  rewrite stripPrefix_app. cbn [mbind option_bind].
  replace (ws4 ++ d ++ ws5 ++ js "}}" ++ post)
    with ((ws4 ++ d ++ ws5) ++ (125 :: [125]) ++ post)
    by (rewrite <- !app_assoc; reflexivity).
  change (breakOn (js "}}")) with (breakOn (125 :: [125])).
  rewrite breakOn_first.
  - cbn [mbind option_bind]. rewrite trim_pad by assumption.
    destruct Hd as [_ ->]. reflexivity.
  - rewrite !forallb_app.
    rewrite (blank_no_brace ws4 H4), (plain_no_brace d Hd),
      (blank_no_brace ws5 H5). reflexivity.
Qed.

(** *** Occurrences *)

Lemma includes_false_here (s pat : jsstring) :
  includes s pat = false -> stripPrefix pat s = None.
Proof.
  unfold includes. intros H.
  destruct s; cbn [breakOn] in H;
    destruct (stripPrefix pat _); first [discriminate H | reflexivity].
Qed.

Lemma includes_false_tail (c : N) (s pat : jsstring) :
  includes (c :: s) pat = false -> includes s pat = false.
Proof.
  unfold includes. cbn [breakOn].
  destruct (stripPrefix pat (c :: s)); [discriminate|].
  destruct (breakOn pat s) as [[before after]|]; [discriminate | reflexivity].
Qed.

Lemma includes_false_suffix (a u pat : jsstring) :
  includes (a ++ u) pat = false -> includes u pat = false.
Proof.
  induction a as [|c a IH]; [trivial|].
  intros H. apply IH. now apply includes_false_tail in H.
Qed.

(** *** The global replace *)

Lemma replaceAll_skip (f : jsstring -> option (jsstring * nat))
    (a b : jsstring) :
  replaceAll f (a ++ b) (length a) = replaceAll f b 0.
Proof. induction a as [|c a IH]; [reflexivity | exact IH]. Qed.

Lemma replaceAll_match (f : jsstring -> option (jsstring * nat))
    (m post out : jsstring) :
  m <> [] -> f (m ++ post) = Some (out, length m) ->
  replaceAll f (m ++ post) 0 = out ++ replaceAll f post 0.
Proof.
  intros Hne Hf. destruct m as [|c m]; [now destruct Hne|].
  change ((c :: m) ++ post) with (c :: (m ++ post)) in *.
  cbn [replaceAll]. rewrite Hf.
  change (Nat.pred (length (c :: m))) with (length m).
  now rewrite replaceAll_skip.
Qed.

Lemma replaceAll_plain (f : jsstring -> option (jsstring * nat))
    (pre rest : jsstring) :
  (forall a u, pre = a ++ u -> u <> [] -> f (u ++ rest) = None) ->
  replaceAll f (pre ++ rest) 0 = pre ++ replaceAll f rest 0.
Proof.
  induction pre as [|c pre IH]; intros H; [reflexivity|].
  change ((c :: pre) ++ rest) with (c :: (pre ++ rest)).
  cbn [replaceAll].
  assert (Hc : f (c :: (pre ++ rest)) = None)
    by (apply (H [] (c :: pre) eq_refl); discriminate).
  rewrite Hc.
  rewrite IH; [reflexivity|].
  intros a u -> Hu. apply (H (c :: a) u); [reflexivity | exact Hu].
Qed.

(** *** Matching a placeholder *)

Lemma matchPlaceholder_at (ctx : RenderContext) (ph post name : jsstring)
    (dflt : option jsstring) :
  parsePlaceholder (ph ++ post) = Some (name, dflt, post) ->
  matchPlaceholder ctx (ph ++ post)
  = Some (match resolve ctx name with
          | Some v => v
          | None => match dflt with Some d => d | None => ph end
          end, length ph).
Proof.
  intros H. unfold matchPlaceholder. rewrite H. cbn [mbind option_bind].
  rewrite length_app, Nat.add_sub, take_app_length. reflexivity.
Qed.

Lemma matchPlaceholder_no_braces (ctx : RenderContext) (s : jsstring) :
  stripPrefix (js "{{") s = None -> matchPlaceholder ctx s = None.
Proof.
  intros H. unfold matchPlaceholder, parsePlaceholder. now rewrite H.
Qed.

Lemma matchPlaceholder_three_braces (ctx : RenderContext) (s : jsstring) :
  matchPlaceholder ctx (123 :: 123 :: 123 :: s) = None.
Proof. reflexivity. Qed.

(** No placeholder starts in a text without ["{{"], nor on its last
    code unit when a ["{{"] follows. *)
Lemma no_placeholder_before (ctx : RenderContext) (pre k : jsstring) :
  includes pre (js "{{") = false ->
  forall a u, pre = a ++ u -> u <> [] ->
    matchPlaceholder ctx (u ++ 123 :: 123 :: k) = None.
Proof.
  intros Hpre a u -> Hu.
  apply includes_false_suffix, includes_false_here in Hpre.
  destruct u as [|c1 [|c2 u]]; [now destruct Hu| |].
  - destruct (N.eq_dec c1 123) as [-> | Hc].
    + apply matchPlaceholder_three_braces.
    + apply matchPlaceholder_no_braces.
      change (js "{{") with [123; 123]. apply stripPrefix_head. congruence.
  - apply matchPlaceholder_no_braces.
    change (js "{{") with [123; 123] in *.
    cbn [app stripPrefix] in *.
    destruct (123 =? c1); [|reflexivity].
    destruct (123 =? c2); [discriminate Hpre | reflexivity].
Qed.

(** *** The pass over the blocks *)

Lemma scanBlocks_skip (ctx : RenderContext) (a b : jsstring)
    (stack : list bool) :
  scanBlocks ctx (a ++ b) (length a) stack = scanBlocks ctx b 0 stack.
Proof. induction a as [|c a IH]; [reflexivity | exact IH]. Qed.

Lemma scanBlocks_copy (ctx : RenderContext) (t rest : jsstring)
    (stack : list bool) :
  markerFree t rest ->
  scanBlocks ctx (t ++ rest) 0 stack
  = (if forallb id stack then t else []) ++ scanBlocks ctx rest 0 stack.
Proof.
  induction t as [|c t IH]; intros H.
  - now destruct (forallb id stack).
  - change ((c :: t) ++ rest) with (c :: (t ++ rest)).
    destruct (H [] (c :: t) eq_refl) as [Ho Hc]; [discriminate|].
    change ((c :: t) ++ rest) with (c :: (t ++ rest)) in Ho, Hc.
    cbn [scanBlocks]. rewrite Ho, Hc.
    rewrite IH.
    + now destruct (forallb id stack).
    + intros a u -> Hu. apply (H (c :: a) u); [reflexivity | exact Hu].
Qed.

Lemma scanBlocks_open (ctx : RenderContext) (m rest p : jsstring)
    (stack : list bool) :
  m <> [] -> parseOpen (m ++ rest) = Some (p, rest) ->
  scanBlocks ctx (m ++ rest) 0 stack
  = scanBlocks ctx rest 0 (evalPredicate ctx p :: stack).
Proof.
  intros Hne Hp. destruct m as [|c m]; [now destruct Hne|].
  change ((c :: m) ++ rest) with (c :: (m ++ rest)) in *.
  cbn [scanBlocks]. rewrite Hp.
  change (length (c :: (m ++ rest))) with (S (length (m ++ rest))).
  rewrite length_app.
  replace (Nat.pred (S (length m + length rest) - length rest)) with (length m)
    by lia.
  apply scanBlocks_skip.
Qed.

Lemma scanBlocks_close (ctx : RenderContext) (rest : jsstring) (b : bool)
    (stack : list bool) :
  scanBlocks ctx (closeMarker ++ rest) 0 (b :: stack)
  = scanBlocks ctx rest 0 stack.
Proof.
  change (closeMarker ++ rest)
    with (123 :: ([123; 47; 105; 102; 125; 125] ++ rest)).
  cbn [scanBlocks].
  change (parseOpen (123 :: ([123; 47; 105; 102; 125; 125] ++ rest)))
    with (@None (jsstring * jsstring)).
  change (parseClose (123 :: ([123; 47; 105; 102; 125; 125] ++ rest)))
    with (Some rest).
  cbn iota.
  change (length (123 :: ([123; 47; 105; 102; 125; 125] ++ rest)))
    with (7 + length rest)%nat.
  replace (Nat.pred (7 + length rest - length rest)) with 6%nat by lia.
  apply (scanBlocks_skip ctx [123; 47; 105; 102; 125; 125] rest stack).
Qed.

(** Reading an opening marker. *)
Lemma parseOpen_marker (ws1 p ws2 rest : jsstring) :
  ws1 <> [] -> isBlank ws1 -> isName p -> isBlank ws2 ->
  parseOpen (openMarker ws1 p ws2 ++ rest) = Some (p, rest).
Proof.
  intros Hne H1 Hp H2. unfold parseOpen, openMarker.
  rewrite <- !app_assoc, stripPrefix_app. cbn [mbind option_bind].
  destruct ws1 as [|c ws1]; [now destruct Hne|].
  change ((c :: ws1) ++ p ++ ws2 ++ js "}}" ++ rest)
    with (c :: (ws1 ++ p ++ ws2 ++ js "}}" ++ rest)).
  cbv iota.
  assert (Hc : isWhiteSpace c = true).
  { unfold isBlank in H1. simpl in H1. apply andb_true_iff in H1. tauto. }
  rewrite Hc.
  change (c :: (ws1 ++ p ++ ws2 ++ js "}}" ++ rest))
    with ((c :: ws1) ++ p ++ ws2 ++ js "}}" ++ rest).
  rewrite (trimStart_blank (c :: ws1)) by exact H1.
  rewrite (trimStart_name p) by exact Hp.
  rewrite spanName_app;
    [| apply Hp | apply endsName_blank; [exact H2 | reflexivity]].
  rewrite (length_name p Hp).
  rewrite (trimStart_blank ws2) by exact H2.
  change (js "}}" ++ rest) with (125 :: 125 :: rest) at 1.
  rewrite trimStart_stop by reflexivity.
  change (125 :: 125 :: rest) with (js "}}" ++ rest).
  rewrite stripPrefix_app. reflexivity.
Qed.

(** *** Where no marker starts *)

Lemma parseOpen_no_braces (s : jsstring) :
  stripPrefix (js "{{#if") s = None -> parseOpen s = None.
Proof. intros H. unfold parseOpen. now rewrite H. Qed.

(** A text that has no ["{{x"] has no occurrence of a pattern that
    starts so, not even one that runs into a following ["{{"]. *)
Lemma no_pattern_before (x : N) (more t k : jsstring) :
  x <> 123 -> includes t [123; 123; x] = false ->
  k = [] \/ (exists k', k = 123 :: 123 :: k') ->
  forall a u, t = a ++ u -> u <> [] ->
    stripPrefix (123 :: 123 :: x :: more) (u ++ k) = None.
Proof.
  intros Hx Ht Hk a u -> Hu.
  apply includes_false_suffix, includes_false_here in Ht.
  assert (Hx' : (x =? 123) = false) by now apply N.eqb_neq.
  destruct u as [|c1 [|c2 [|c3 u]]]; [now destruct Hu| | |].
  - destruct Hk as [-> | [k' ->]]; cbn [app stripPrefix].
    + now destruct (123 =? c1).
    + rewrite N.eqb_refl, Hx'. now destruct (123 =? c1).
  - destruct Hk as [-> | [k' ->]]; cbn [app stripPrefix].
    + now destruct (123 =? c1), (123 =? c2).
    + rewrite Hx'. now destruct (123 =? c1), (123 =? c2).
  - cbn [app stripPrefix] in *.
    destruct (123 =? c1); [|reflexivity].
    destruct (123 =? c2); [|reflexivity].
    destruct (x =? c3); [discriminate Ht | reflexivity].
Qed.

Lemma markerFree_text (t k : jsstring) :
  hasNoMarker t -> k = [] \/ (exists k', k = 123 :: 123 :: k') ->
  markerFree t k.
Proof.
  intros [Ho Hc] Hk a u Ht Hu. split.
  - apply parseOpen_no_braces.
    apply (no_pattern_before 35 [105; 102] t k ltac:(discriminate) Ho Hk
             a u Ht Hu).
  - apply (no_pattern_before 47 [105; 102; 125; 125] t k ltac:(discriminate)
             Hc Hk a u Ht Hu).
Qed.

(** A text that starts with ["{{"], goes on with a code unit that is
    neither ['#'] nor ['/'] and has no other opening brace, holds no
    marker, whatever follows it. *)
Lemma markerFree_braces (c : N) (tail rest : jsstring) :
  c <> 35 -> c <> 47 -> noOpenBrace (c :: tail) ->
  markerFree (123 :: 123 :: c :: tail) rest.
Proof.
  intros H35 H47 Htail a u Heq Hu.
  assert (Hfirst : forall v w, v <> [] -> (exists b, c :: tail = b ++ v) ->
            forall x more, stripPrefix (123 :: x :: more) (v ++ w) = None).
  { intros v w Hv [b Hb] x more. destruct v as [|d v]; [now destruct Hv|].
    apply stripPrefix_head. intros <-.
    unfold noOpenBrace in Htail. rewrite Hb, forallb_app in Htail.
    apply andb_true_iff in Htail. destruct Htail as [_ Htail].
    simpl in Htail. discriminate Htail. }
  destruct a as [|a1 [|a2 a]]; cbn [app] in Heq.
  - subst u. split.
    + apply parseOpen_no_braces. cbn [app stripPrefix js].
      change (js "{{#if") with [123; 123; 35; 105; 102].
      cbn [stripPrefix]. rewrite !N.eqb_refl.
      now rewrite (proj2 (N.eqb_neq 35 c)) by congruence.
    + unfold parseClose. change (js "{{/if}}") with [123; 123; 47; 105; 102; 125; 125].
      cbn [app stripPrefix]. rewrite !N.eqb_refl.
      now rewrite (proj2 (N.eqb_neq 47 c)) by congruence.
  - injection Heq as _ Heq. subst u.
    change ((123 :: c :: tail) ++ rest) with (123 :: ((c :: tail) ++ rest)).
    split.
    + apply parseOpen_no_braces.
      change (js "{{#if") with [123; 123; 35; 105; 102].
      rewrite stripPrefix_same.
      apply (Hfirst (c :: tail) rest); [discriminate | now exists []].
    + unfold parseClose. change (js "{{/if}}") with [123; 123; 47; 105; 102; 125; 125].
      rewrite stripPrefix_same.
      apply (Hfirst (c :: tail) rest); [discriminate | now exists []].
  - injection Heq as _ _ Heq. split.
    + apply parseOpen_no_braces.
      change (js "{{#if") with [123; 123; 35; 105; 102].
      apply Hfirst; [exact Hu | now exists a].
    + unfold parseClose. change (js "{{/if}}") with [123; 123; 47; 105; 102; 125; 125].
      apply Hfirst; [exact Hu | now exists a].
Qed.

(** *** The text of a placeholder holds no marker *)

Lemma noOpenBrace_app (a b : jsstring) :
  noOpenBrace a -> noOpenBrace b -> noOpenBrace (a ++ b).
Proof.
  unfold noOpenBrace. intros Ha Hb. now rewrite forallb_app, Ha, Hb.
Qed.

Lemma noOpenBrace_blank (ws : jsstring) : isBlank ws -> noOpenBrace ws.
Proof.
  unfold isBlank, noOpenBrace. rewrite !forallb_forall. intros H c Hc.
  specialize (H c Hc). apply negb_true_iff, N.eqb_neq. intros ->.
  discriminate H.
Qed.

Lemma noOpenBrace_name (name : jsstring) : isName name -> noOpenBrace name.
Proof.
  intros [_ H]. unfold noOpenBrace. rewrite !forallb_forall in *.
  intros c Hc. specialize (H c Hc). apply negb_true_iff, N.eqb_neq.
  intros ->. discriminate H.
Qed.

Lemma noOpenBrace_plain (d : jsstring) : isPlainValue d -> noOpenBrace d.
Proof.
  intros [H _]. unfold noOpenBrace. rewrite !forallb_forall in *.
  intros c Hc. specialize (H c Hc). apply andb_true_iff in H. tauto.
Qed.

(** What is written inside the braces starts with whitespace or with the
    name. *)
Lemma inside_starts (ws1 name k : jsstring) :
  isBlank ws1 -> isName name ->
  exists c tail, ws1 ++ name ++ k = c :: tail /\ c <> 35 /\ c <> 47.
Proof.
  intros H1 [Hne Hn]. destruct ws1 as [|c ws1].
  - destruct name as [|c name]; [now destruct Hne|].
    exists c, (name ++ k). split; [reflexivity|].
    simpl in Hn. apply andb_true_iff in Hn. destruct Hn as [Hc _].
    split; intros ->; discriminate Hc.
  - exists c, (ws1 ++ name ++ k). split; [reflexivity|].
    unfold isBlank in H1. simpl in H1. apply andb_true_iff in H1.
    destruct H1 as [Hc _]. split; intros ->; discriminate Hc.
Qed.

Lemma markerFree_inside (inside rest : jsstring) :
  noOpenBrace inside ->
  (exists c tail, inside = c :: tail /\ c <> 35 /\ c <> 47) ->
  markerFree (js "{{" ++ inside) rest.
Proof.
  intros Hno (c & tail & -> & H35 & H47).
  now apply markerFree_braces.
Qed.

Lemma markerFree_placeholder (ws1 name ws2 rest : jsstring) :
  isBlank ws1 -> isName name -> isBlank ws2 ->
  markerFree (placeholder ws1 name ws2) rest.
Proof.
  intros H1 Hn H2. unfold placeholder. apply markerFree_inside.
  - repeat apply noOpenBrace_app;
      auto using noOpenBrace_blank, noOpenBrace_name.
    reflexivity.
  - now apply inside_starts.
Qed.

Lemma markerFree_placeholderWithDefault
    (ws1 name ws2 ws3 ws4 d ws5 rest : jsstring) :
  isBlank ws1 -> isName name -> isBlank ws2 -> isBlank ws3 -> isBlank ws4 ->
  isPlainValue d -> isBlank ws5 ->
  markerFree (placeholderWithDefault ws1 name ws2 ws3 ws4 d ws5) rest.
Proof.
  intros H1 Hn H2 H3 H4 Hd H5. unfold placeholderWithDefault.
  apply markerFree_inside.
  - repeat apply noOpenBrace_app;
      auto using noOpenBrace_blank, noOpenBrace_name, noOpenBrace_plain;
      reflexivity.
  - now apply inside_starts.
Qed.

(** *** Longer patterns *)

Lemma includes_cons (c : N) (s pat : jsstring) :
  includes (c :: s) pat
  = match stripPrefix pat (c :: s) with
    | Some _ => true
    | None => includes s pat
    end.
Proof.
  unfold includes. cbn [breakOn].
  destruct (stripPrefix pat (c :: s)); [reflexivity|].
  now destruct (breakOn pat s) as [[before after]|].
Qed.

Lemma stripPrefix_longer (p q s : jsstring) :
  stripPrefix p s = None -> stripPrefix (p ++ q) s = None.
Proof.
  revert s. induction p as [|a p IH]; intros s; [now destruct s|].
  destruct s as [|b s]; [reflexivity|].
  cbn [app stripPrefix]. destruct (a =? b); [apply IH | reflexivity].
Qed.

Lemma includes_false_longer (s p q : jsstring) :
  includes s p = false -> includes s (p ++ q) = false.
Proof.
  induction s as [|c s IH]; intros H.
  - apply includes_false_here in H.
    unfold includes. cbn [breakOn].
    now rewrite (stripPrefix_longer p q [] H).
  - pose proof (includes_false_here _ _ H) as Hhere.
    apply includes_false_tail in H.
    rewrite includes_cons, (stripPrefix_longer p q _ Hhere). now apply IH.
Qed.

Lemma plain_hasNoMarker (pre : jsstring) :
  includes pre (js "{{") = false -> hasNoMarker pre.
Proof.
  intros H. split.
  - apply (includes_false_longer pre (js "{{") [35] H).
  - apply (includes_false_longer pre (js "{{") [47] H).
Qed.

(** *** Rendering around a placeholder *)

(** The pass over the blocks copies a plain text and a placeholder. *)
Lemma renderConditionals_placeholder (ctx : RenderContext)
    (pre inside post : jsstring) :
  includes pre (js "{{") = false ->
  markerFree (js "{{" ++ inside) post ->
  renderConditionals ctx (pre ++ (js "{{" ++ inside) ++ post)
  = pre ++ (js "{{" ++ inside) ++ renderConditionals ctx post.
Proof.
  intros Hpre Hph. unfold renderConditionals.
  rewrite scanBlocks_copy.
  - cbn [forallb]. f_equal. now rewrite scanBlocks_copy.
  - apply markerFree_text; [now apply plain_hasNoMarker|].
    right. now exists (inside ++ post).
Qed.

(** The substitution copies a plain text and replaces the placeholder
    that follows it. *)
Lemma substituteVariables_placeholder (ctx : RenderContext)
    (pre inside post name : jsstring) (dflt : option jsstring) :
  includes pre (js "{{") = false ->
  parsePlaceholder ((js "{{" ++ inside) ++ post) = Some (name, dflt, post) ->
  substituteVariables ctx (pre ++ (js "{{" ++ inside) ++ post)
  = pre
    ++ match resolve ctx name with
       | Some v => v
       | None => match dflt with Some d => d | None => js "{{" ++ inside end
       end
    ++ substituteVariables ctx post.
Proof.
  intros Hpre Hparse. unfold substituteVariables.
  rewrite replaceAll_plain.
  - f_equal. apply replaceAll_match; [discriminate|].
    now apply matchPlaceholder_at.
  - intros a u Ha Hu.
    apply (no_placeholder_before ctx pre (inside ++ post) Hpre a u Ha Hu).
Qed.

(** *** The properties of the specification *)

(** C4.  After a text without ["{{"], a placeholder whose name resolves
    is replaced by the value, with or without a default and whatever the
    whitespace inside the braces; one whose name does not resolve is
    replaced by its default, and left as it is written when it has none.
    The rest of the template is rendered on its own.  A name resolves to
    the field of that name, and otherwise to the field that its
    word-separated spelling names. *)
Theorem placeholder_substitution (ctx : RenderContext)
    (pre ws1 name ws2 post : jsstring) :
  includes pre (js "{{") = false ->
  isBlank ws1 -> isName name -> isBlank ws2 ->
  (forall v, resolve ctx name = Some v ->
     renderTemplate ctx (pre ++ placeholder ws1 name ws2 ++ post)
     = pre ++ v ++ renderTemplate ctx post)
  /\ (resolve ctx name = None ->
      renderTemplate ctx (pre ++ placeholder ws1 name ws2 ++ post)
      = pre ++ placeholder ws1 name ws2 ++ renderTemplate ctx post)
  /\ (forall ws3 ws4 d ws5,
        isBlank ws3 -> isBlank ws4 -> isPlainValue d -> isBlank ws5 ->
        renderTemplate ctx
          (pre ++ placeholderWithDefault ws1 name ws2 ws3 ws4 d ws5 ++ post)
        = pre ++ default d (resolve ctx name) ++ renderTemplate ctx post)
  /\ (forall v, ctxField ctx name = Some v -> resolve ctx name = Some v)
  /\ (forall v, ctxField ctx name = None ->
        ctxField ctx (toCamelCase name) = Some v -> resolve ctx name = Some v).
Proof.
  intros Hpre H1 Hn H2.
  assert (Hplain :
    renderTemplate ctx (pre ++ placeholder ws1 name ws2 ++ post)
    = pre ++ match resolve ctx name with
             | Some v => v
             | None => placeholder ws1 name ws2
             end ++ renderTemplate ctx post).
  { unfold renderTemplate, placeholder.
    rewrite (renderConditionals_placeholder ctx pre
               (ws1 ++ name ++ ws2 ++ js "}}") post Hpre)
      by now apply markerFree_placeholder.
    apply (substituteVariables_placeholder ctx pre _ _ name None Hpre).
    now apply parsePlaceholder_plain. }
  split; [|split; [|split; [|split]]].
  - intros v Hv. now rewrite Hplain, Hv.
  - intros Hv. now rewrite Hplain, Hv.
  - intros ws3 ws4 d ws5 H3 H4 Hd H5.
    unfold renderTemplate, placeholderWithDefault.
    rewrite (renderConditionals_placeholder ctx pre
               (ws1 ++ name ++ ws2 ++ js "|" ++ ws3 ++ js "default:" ++ ws4
                  ++ d ++ ws5 ++ js "}}") post Hpre)
      by now apply markerFree_placeholderWithDefault.
    rewrite (substituteVariables_placeholder ctx pre _ _ name (Some d) Hpre)
      by now apply parsePlaceholder_default.
    now destruct (resolve ctx name).
  - intros v Hv. unfold resolve. now rewrite Hv.
  - intros v Hnone Hv. unfold resolve. now rewrite Hnone.
Qed.

Lemma placeholder_substitution_witness :
  renderTemplate (Samples.testContext "typescript")
    (js "Hello " ++ placeholder (js " ") (js "projectName") (js " ") ++ js "!")
  = js "Hello " ++ js "TestProject"
      ++ renderTemplate (Samples.testContext "typescript") (js "!")
  /\ renderTemplate (Samples.testContext "typescript")
       (js "Repo: " ++ placeholder [] (js "repo_url") [] ++ [])
     = js "Repo: " ++ placeholder [] (js "repo_url") []
         ++ renderTemplate (Samples.testContext "typescript") []
  /\ renderTemplate (Samples.testContext "typescript")
       (js "Max: "
          ++ placeholderWithDefault [] (js "max_lines") (js " ") [] (js " ")
               (js "300") []
          ++ [])
     = js "Max: "
         ++ default (js "300")
              (resolve (Samples.testContext "typescript") (js "max_lines"))
         ++ renderTemplate (Samples.testContext "typescript") [].
Proof.
  assert (Hblank : isBlank (js " ")) by (vm_compute; reflexivity).
  assert (Hnone : isBlank []) by reflexivity.
  split; [|split].
  - assert (Hpre : includes (js "Hello ") (js "{{") = false)
      by (vm_compute; reflexivity).
    assert (Hname : isName (js "projectName"))
      by (split; [discriminate | vm_compute; reflexivity]).
    assert (Hv : resolve (Samples.testContext "typescript") (js "projectName")
                 = Some (js "TestProject")) by (vm_compute; reflexivity).
    exact (proj1 (placeholder_substitution
                  (Samples.testContext "typescript")
                  (js "Hello ") (js " ") (js "projectName") (js " ") (js "!")
                  Hpre Hblank Hname Hblank) (js "TestProject") Hv).
  - assert (Hpre : includes (js "Repo: ") (js "{{") = false)
      by (vm_compute; reflexivity).
    assert (Hname : isName (js "repo_url"))
      by (split; [discriminate | vm_compute; reflexivity]).
    assert (Hv : resolve (Samples.testContext "typescript") (js "repo_url")
                 = None) by (vm_compute; reflexivity).
    exact (proj1 (proj2 (placeholder_substitution
                  (Samples.testContext "typescript")
                  (js "Repo: ") [] (js "repo_url") [] []
                  Hpre Hnone Hname Hnone)) Hv).
  - assert (Hpre : includes (js "Max: ") (js "{{") = false)
      by (vm_compute; reflexivity).
    assert (Hname : isName (js "max_lines"))
      by (split; [discriminate | vm_compute; reflexivity]).
    assert (Hd : isPlainValue (js "300"))
      by (split; vm_compute; reflexivity).
    exact (proj1 (proj2 (proj2 (placeholder_substitution
                  (Samples.testContext "typescript")
                  (js "Max: ") [] (js "max_lines") (js " ") []
                  Hpre Hnone Hname Hblank)))
                  [] (js " ") (js "300") [] Hnone Hblank Hd Hnone).
Defined.

(** C5.  After a text without markers, a block [{{#if p}}body{{/if}}]
    whose body has no marker gives the body when the predicate is true
    and nothing when it is false; the text after the block is rendered
    on its own, so each block is evaluated independently; the body may
    hold line feeds.  The placeholders are then substituted in what is
    left.  A predicate other than the known ones is false. *)
Theorem conditional_blocks (ctx : RenderContext)
    (pre ws1 p ws2 body post : jsstring) :
  hasNoMarker pre -> ws1 <> [] -> isBlank ws1 -> isName p -> isBlank ws2 ->
  hasNoMarker body ->
  renderConditionals ctx
    (pre ++ openMarker ws1 p ws2 ++ body ++ closeMarker ++ post)
  = pre ++ (if evalPredicate ctx p then body else [])
        ++ renderConditionals ctx post
  /\ renderTemplate ctx
       (pre ++ openMarker ws1 p ws2 ++ body ++ closeMarker ++ post)
     = substituteVariables ctx
         (pre ++ (if evalPredicate ctx p then body else [])
              ++ renderConditionals ctx post)
  /\ (p <> js "language_is_typescript" -> p <> js "language_is_python" ->
      evalPredicate ctx p = false).
Proof.
  intros Hpre Hne H1 Hp H2 Hbody.
  assert (Hcond :
    renderConditionals ctx
      (pre ++ openMarker ws1 p ws2 ++ body ++ closeMarker ++ post)
    = pre ++ (if evalPredicate ctx p then body else [])
          ++ renderConditionals ctx post).
  { unfold renderConditionals.
    rewrite scanBlocks_copy.
    2:{ apply markerFree_text; [exact Hpre|]. right.
        unfold openMarker. now eexists. }
    cbn [forallb]. f_equal.
    rewrite (scanBlocks_open ctx (openMarker ws1 p ws2) _ p).
    2:{ unfold openMarker. discriminate. }
    2:{ now apply parseOpen_marker. }
    rewrite scanBlocks_copy.
    2:{ apply markerFree_text; [exact Hbody|]. right.
        unfold closeMarker. now eexists. }
    rewrite scanBlocks_close. cbn [forallb id].
    now destruct (evalPredicate ctx p). }
  split; [exact Hcond|]. split.
  - unfold renderTemplate. now rewrite Hcond.
  - intros Hts Hpy. unfold evalPredicate.
    now rewrite !bool_decide_eq_false_2.
Qed.

Lemma conditional_blocks_witness :
  renderTemplate (Samples.testContext "python")
    (js "before " ++ openMarker (js " ") (js "language_is_typescript") []
       ++ js "TS content" ++ closeMarker ++ js " after")
  = substituteVariables (Samples.testContext "python")
      (js "before "
         ++ (if evalPredicate (Samples.testContext "python")
                  (js "language_is_typescript")
             then js "TS content" else [])
         ++ renderConditionals (Samples.testContext "python") (js " after")).
Proof.
  assert (Hpre : hasNoMarker (js "before "))
    by (split; vm_compute; reflexivity).
  assert (Hne : js " " <> []) by discriminate.
  assert (Hblank : isBlank (js " ")) by (vm_compute; reflexivity).
  assert (Hnone : isBlank []) by reflexivity.
  assert (Hname : isName (js "language_is_typescript"))
    by (split; [discriminate | vm_compute; reflexivity]).
  assert (Hbody : hasNoMarker (js "TS content"))
    by (split; vm_compute; reflexivity).
  exact (proj1 (proj2 (conditional_blocks
                  (Samples.testContext "python")
                  (js "before ") (js " ") (js "language_is_typescript") []
                  (js "TS content") (js " after")
                  Hpre Hne Hblank Hname Hnone Hbody))).
Defined.

(** The renderer tests of the test suite. *)
Example render_simple :
  renderTemplate (Samples.testContext "typescript") (js "Hello {{projectName}}")
  = js "Hello TestProject".
Proof. vm_compute. reflexivity. Qed.

Example render_snake_case :
  renderTemplate (Samples.testContext "typescript") (js "Name: {{project_name}}")
  = js "Name: TestProject".
Proof. vm_compute. reflexivity. Qed.

Example render_default :
  renderTemplate (Samples.testContext "typescript")
    (js "Max: {{max_lines | default: 300}}")
  = js "Max: 300".
Proof. vm_compute. reflexivity. Qed.

Example render_unresolved :
  renderTemplate (Samples.testContext "typescript") (js "Repo: {{repo_url}}")
  = js "Repo: {{repo_url}}".
Proof. vm_compute. reflexivity. Qed.

Example render_whitespace :
  renderTemplate (Samples.testContext "typescript") (js "{{ projectName }}")
  = js "TestProject".
Proof. vm_compute. reflexivity. Qed.

Example render_block_removed :
  renderTemplate (Samples.testContext "python")
    (js "before {{#if language_is_typescript}}TS content{{/if}} after")
  = js "before  after".
Proof. vm_compute. reflexivity. Qed.

Example render_block_kept :
  renderTemplate (Samples.testContext "typescript")
    (js "before {{#if language_is_typescript}}TS content{{/if}} after")
  = js "before TS content after".
Proof. vm_compute. reflexivity. Qed.

Example render_tags :
  renderTemplate (Samples.testContext "typescript") (js "Tags: {{tags}}")
  = js "Tags: `[UNIVERSAL]` `[API]`".
Proof. vm_compute. reflexivity. Qed.

Example render_two_blocks :
  renderTemplate (Samples.testContext "typescript")
    (js "{{#if language_is_typescript}}TS{{/if}} and {{#if language_is_python}}PY{{/if}}")
  = js "TS and ".
Proof. vm_compute. reflexivity. Qed.

Example render_multiline_blocks :
  renderTemplate (Samples.testContext "python")
    (doc ["Rules:";
          "{{#if language_is_typescript}}- Use const over let.";
          "- Use readonly on properties.{{/if}}";
          "{{#if language_is_python}}- Use Final for constants.";
          "- Use frozen dataclasses.{{/if}}";
          "Done."]%string)
  = doc ["Rules:"; "";
         "- Use Final for constants.";
         "- Use frozen dataclasses.";
         "Done."]%string.
Proof. vm_compute. reflexivity. Qed.

Example render_unknown_predicate :
  renderTemplate (Samples.testContext "python")
    (js "a{{#if has_database}}b{{/if}}c") = js "ac".
Proof. vm_compute. reflexivity. Qed.

Example camel_case_of_snake_case :
  toCamelCase (js "project_name") = js "projectName"
  /\ toCamelCase (js "project-name") = js "projectName"
  /\ toCamelCase (js "projectName") = js "projectName".
Proof. repeat split; reflexivity. Qed.

End RendererFacts.

(* ===================================================================== *)
(** ** Lines: [split] and [join] *)
(* ===================================================================== *)

Module LineFacts.
Import JsString RemergeSpec.

Lemma splitLines_cons (s : jsstring) :
  exists l ls, splitLines s = l :: ls.
Proof.
  induction s as [|c r (l & ls & IH)]; simpl; [eauto|].
  destruct (c =? LF); [eauto|]. rewrite IH. eauto.
Qed.

(** A line feed in the text ends a line: the lines before it and the
    lines after it. *)
Lemma splitLines_app_LF (a b : jsstring) :
  splitLines (a ++ LF :: b) = splitLines a ++ splitLines b.
Proof.
  induction a as [|c a IH].
  - reflexivity.
  - change ((c :: a) ++ LF :: b) with (c :: (a ++ LF :: b)).
    cbn [splitLines]. destruct (c =? LF); rewrite IH.
    + reflexivity.
    + destruct (splitLines_cons a) as (l & ls & ->). reflexivity.
Qed.

Lemma splitLines_oneLine (a : jsstring) :
  oneLine a -> splitLines a = [a].
Proof.
  induction a as [|c a IH]; intros Ha; [reflexivity|].
  cbn [splitLines]. destruct (N.eqb_spec c LF) as [->|_].
  - destruct Ha. now left.
  - rewrite IH; [reflexivity|]. intros Hin. apply Ha. now right.
Qed.

Lemma splitLines_join (l : jsstring) (ls : list jsstring) :
  Forall oneLine (l :: ls) -> splitLines (join nl (l :: ls)) = l :: ls.
Proof.
  revert l. induction ls as [|m ls IH]; intros l Hall.
  - apply splitLines_oneLine. now inversion Hall.
  - change (join nl (l :: m :: ls)) with (l ++ LF :: join nl (m :: ls)).
    rewrite splitLines_app_LF. inversion Hall; subst.
    rewrite splitLines_oneLine by assumption. now rewrite IH.
Qed.

Lemma splitLines_lines (s : jsstring) : Forall oneLine (splitLines s).
Proof.
  induction s as [|c r IH]; simpl.
  - constructor; [intros [] | constructor].
  - destruct (N.eqb_spec c LF) as [->|Hc].
    + constructor; [intros [] | exact IH].
    + destruct (splitLines r) as [|l ls]; [repeat constructor|].
      * intros [H|[]]; congruence.
      * inversion IH; subst. constructor; [|assumption].
        intros [H|H]; [congruence | contradiction].
Qed.

(** Joining the lines gives the text back. *)
Lemma join_splitLines (s : jsstring) : join nl (splitLines s) = s.
Proof.
  induction s as [|c r IH]; [reflexivity|].
  cbn [splitLines]. destruct (N.eqb_spec c LF) as [->|Hc].
  - destruct (splitLines_cons r) as (l & ls & Hr). rewrite Hr in *.
    change (join nl ([] :: l :: ls)) with (LF :: join nl (l :: ls)).
    now rewrite IH.
  - destruct (splitLines_cons r) as (l & ls & Hr). rewrite Hr in *.
    rewrite <- IH. destruct ls; reflexivity.
Qed.

Lemma join_snoc (l : jsstring) (ls : list jsstring) (x : jsstring) :
  join nl ((l :: ls) ++ [x]) = join nl (l :: ls) ++ nl ++ x.
Proof.
  revert l. induction ls as [|m ls IH]; intros l; [reflexivity|].
  change (join nl ((l :: m :: ls) ++ [x]))
    with (l ++ nl ++ join nl ((m :: ls) ++ [x])).
  rewrite IH.
  change (join nl (l :: m :: ls)) with (l ++ nl ++ join nl (m :: ls)).
  now rewrite <- !app_assoc.
Qed.

End LineFacts.

(* ===================================================================== *)
(** ** The merge engine: the lines of a merge, and merging again *)
(* ===================================================================== *)

Module RemergeFacts.
Import JsString Filesystem MergeSpec RemergeSpec LineFacts MergeFacts.

Lemma join_app_lines (l : jsstring) (ls : list jsstring) (m : jsstring)
    (ms : list jsstring) :
  join nl ((l :: ls) ++ m :: ms) = join nl (l :: ls) ++ nl ++ join nl (m :: ms).
Proof.
  revert l. induction ls as [|k ls IH]; intros l; [reflexivity|].
  change (join nl ((l :: k :: ls) ++ m :: ms))
    with (l ++ nl ++ join nl ((k :: ls) ++ m :: ms)).
  rewrite IH.
  change (join nl (l :: k :: ls)) with (l ++ nl ++ join nl (k :: ls)).
  now rewrite <- !app_assoc.
Qed.

Lemma sectionLines_cons (sec : jsstring * list jsstring)
    (rest : list (jsstring * list jsstring)) :
  exists tail, sectionLines (sec :: rest) = fst sec :: tail.
Proof. destruct rest; simpl; eauto. Qed.

(** The sections joined by a blank line are their lines joined by line
    feeds. *)
Lemma join_sections (secs : list (jsstring * list jsstring)) :
  join (nl ++ nl) (map sectionText secs) = join nl (sectionLines secs).
Proof.
  induction secs as [|sec rest IH]; [reflexivity|].
  destruct rest as [|sec' rest]; [reflexivity|].
  change (join (nl ++ nl) (map sectionText (sec :: sec' :: rest)))
    with (sectionText sec ++ (nl ++ nl)
            ++ join (nl ++ nl) (map sectionText (sec' :: rest))).
  rewrite IH.
  change (sectionLines (sec :: sec' :: rest))
    with ((fst sec :: snd sec) ++ [] :: sectionLines (sec' :: rest)).
  rewrite join_app_lines.
  destruct (sectionLines_cons sec' rest) as (tail & ->).
  unfold sectionText. rewrite <- !app_assoc. reflexivity.
Qed.

Lemma sectionLines_oneLine (secs : list (jsstring * list jsstring)) :
  Forall isSection secs -> Forall oneLine (sectionLines secs).
Proof.
  induction secs as [|sec rest IH]; intros Hall.
  - constructor; [intros [] | constructor].
  - inversion Hall as [|? ? (_ & Hl & _) Hrest]; subst.
    destruct rest as [|sec' rest]; [exact Hl|].
    change (sectionLines (sec :: sec' :: rest))
      with ((fst sec :: snd sec) ++ [] :: sectionLines (sec' :: rest)).
    apply Forall_app. split; [exact Hl|].
    constructor; [intros [] | now apply IH].
Qed.

Lemma empty_not_heading : isHeading [] = false.
Proof. reflexivity. Qed.

(** Read again, the lines give the sections back, each but the last
    with the blank line that followed it. *)
Lemma flatSections_sectionLines (secs : list (jsstring * list jsstring)) :
  Forall isSection secs ->
  secs <> [] ->
  flatSections (sectionLines secs) = emptyLineAfterAllButLast secs.
Proof.
  induction secs as [|sec rest IH]; intros Hall Hne; [congruence|].
  inversion Hall as [|? ? (Hh & Hl & Hb) Hrest]; subst.
  destruct rest as [|sec' rest].
  - cbn [sectionLines emptyLineAfterAllButLast flatSections].
    rewrite Hh, (bodyLines_plain _ Hb), (flatSections_plain _ Hb).
    now destruct sec.
  - change (sectionLines (sec :: sec' :: rest))
      with (fst sec :: (snd sec ++ [] :: sectionLines (sec' :: rest))).
    change (emptyLineAfterAllButLast (sec :: sec' :: rest))
      with ((fst sec, snd sec ++ [[]])
              :: emptyLineAfterAllButLast (sec' :: rest)).
    cbn [flatSections]. rewrite Hh.
    destruct (sectionLines_cons sec' rest) as (tail & Htail).
    assert (Hh' : isHeading (fst sec') = true)
      by (inversion Hrest as [|? ? (H & _) _]; exact H).
    assert (Hplain : Forall (fun l => isHeading l = false) (snd sec ++ [[]])).
    { apply Forall_app. split; [exact Hb|]. repeat constructor. }
    rewrite <- IH by (assumption || discriminate).
    rewrite Htail.
    replace (snd sec ++ [] :: fst sec' :: tail)
      with ((snd sec ++ [[]]) ++ fst sec' :: tail)
      by (now rewrite <- app_assoc).
    rewrite (bodyLines_app_heading _ _ _ Hh'), (bodyLines_plain _ Hplain).
    rewrite (flatSections_app_heading _ _ _ Hh'), (flatSections_plain _ Hplain).
    reflexivity.
Qed.

Lemma bodyLines_incl (ls : list jsstring) (l : jsstring) :
  In l (bodyLines ls) -> In l ls /\ isHeading l = false.
Proof.
  induction ls as [|k ls IH]; simpl; [tauto|].
  destruct (isHeading k) eqn:Hk; [intros []|].
  intros [<- | Hin]; [auto|]. destruct (IH Hin). auto.
Qed.

Lemma flatSections_body (ls : list jsstring) (h : jsstring)
    (b : list jsstring) (l : jsstring) :
  In (h, b) (flatSections ls) -> In l b -> In l ls /\ isHeading l = false.
Proof.
  induction ls as [|k ls IH]; simpl; [tauto|].
  destruct (isHeading k).
  - intros [Heq | Hin] Hl.
    + inversion Heq; subst. destruct (bodyLines_incl _ _ Hl). auto.
    + destruct (IH Hin Hl). auto.
  - intros Hin Hl. destruct (IH Hin Hl). auto.
Qed.

(** Every flat section of a text is a heading line and body lines. *)
Lemma flatSections_isSection (s : jsstring) :
  Forall isSection (flatSections (splitLines s)).
Proof.
  apply List.Forall_forall. intros [h b] Hin.
  pose proof (splitLines_lines s) as Hlines.
  rewrite List.Forall_forall in Hlines.
  destruct (flatSections_heading _ _ _ Hin) as [Hh1 Hh2].
  split; [exact Hh2|]. split.
  - constructor; [now apply Hlines|].
    apply List.Forall_forall. intros l Hl.
    apply Hlines. now destruct (flatSections_body _ _ _ _ Hin Hl).
  - apply List.Forall_forall. intros l Hl.
    now destruct (flatSections_body _ _ _ _ Hin Hl).
Qed.

Lemma Forall_filter_keep {A} (P : A -> Prop) (f : A -> bool) (l : list A) :
  Forall P l -> Forall P (List.filter f l).
Proof.
  induction 1 as [|a l Ha _ IH]; simpl; [constructor|].
  destruct (f a); [constructor|]; assumption.
Qed.

Lemma filter_all {A} (f : A -> bool) (l : list A) :
  (forall x, In x l -> f x = true) -> List.filter f l = l.
Proof.
  induction l as [|a l IH]; intros H; simpl; [reflexivity|].
  rewrite (H a (or_introl eq_refl)), IH; [reflexivity|].
  intros x Hx. apply H. now right.
Qed.

Lemma emptyLineAfterAllButLast_fst (secs : list (jsstring * list jsstring))
    (sec : jsstring * list jsstring) :
  In sec (emptyLineAfterAllButLast secs) ->
  exists sec', In sec' secs /\ fst sec = fst sec'.
Proof.
  induction secs as [|s rest IH]; [intros []|].
  destruct rest as [|s' rest].
  - intros [<- | []]. exists s. split; [now left | reflexivity].
  - change (emptyLineAfterAllButLast (s :: s' :: rest))
      with ((fst s, snd s ++ [[]]) :: emptyLineAfterAllButLast (s' :: rest)).
    intros [<- | Hin].
    + exists s. split; [now left | reflexivity].
    + destruct (IH Hin) as (sec' & Hin' & Heq).
      exists sec'. split; [now right | exact Heq].
Qed.

Lemma sectionText_emptyLine (secs : list (jsstring * list jsstring)) :
  map sectionText (emptyLineAfterAllButLast secs) =
  lineFeedAfterAllButLast (map sectionText secs).
Proof.
  induction secs as [|s rest IH]; [reflexivity|].
  destruct rest as [|s' rest]; [reflexivity|].
  change (emptyLineAfterAllButLast (s :: s' :: rest))
    with ((fst s, snd s ++ [[]]) :: emptyLineAfterAllButLast (s' :: rest)).
  change (map sectionText (s :: s' :: rest))
    with (sectionText s :: map sectionText (s' :: rest)).
  cbn [map]. rewrite IH.
  change (lineFeedAfterAllButLast
            (sectionText s :: map sectionText (s' :: rest)))
    with ((sectionText s ++ nl)
            :: lineFeedAfterAllButLast (map sectionText (s' :: rest))).
  f_equal. unfold sectionText. cbn [fst snd].
  change (fst s :: snd s ++ [[]]) with ((fst s :: snd s) ++ [[]]).
  rewrite join_snoc. now rewrite app_nil_r.
Qed.

(** The lines of a merge that kept sections: the lines of the generated
    text, an empty line, the separator comment, an empty line, then the
    lines of the sections. *)
Lemma splitLines_merged (generated : jsstring)
    (secs : list (jsstring * list jsstring)) :
  Forall isSection secs ->
  splitLines (generated ++ separator ++ join (nl ++ nl) (map sectionText secs))
  = splitLines generated ++ [[]; separatorComment; []] ++ sectionLines secs.
Proof.
  intros Hall. rewrite join_sections.
  change (generated ++ separator ++ join nl (sectionLines secs))
    with (generated ++ LF :: (LF :: (separatorComment
            ++ LF :: (LF :: join nl (sectionLines secs))))).
  rewrite splitLines_app_LF. f_equal.
  change (LF :: separatorComment ++ LF :: LF :: join nl (sectionLines secs))
    with ([] ++ LF :: (separatorComment
            ++ LF :: ([] ++ LF :: join nl (sectionLines secs)))).
  rewrite !splitLines_app_LF.
  change (splitLines []) with [@nil N].
  assert (Hc : splitLines separatorComment = [separatorComment])
    by (vm_compute; reflexivity).
  rewrite Hc. cbn [app]. do 3 f_equal.
  pose proof (sectionLines_oneLine secs Hall) as Hone.
  destruct secs as [|sec rest]; [reflexivity|].
  destruct (sectionLines_cons sec rest) as (tail & Htail).
  rewrite Htail in *. now apply splitLines_join.
Qed.

(** The headings of the generated text are no custom sections for a
    text with the same headings, and the lines of the separator are no
    headings. *)
Lemma generated_part_not_custom (generated regenerated : jsstring) :
  generatedHeaders (splitLines generated)
  = generatedHeaders (splitLines regenerated) ->
  List.filter (isCustom regenerated)
    (flatSections (splitLines generated ++ [[]; separatorComment; []])) = [].
Proof.
  intros Hsame. apply filter_nil_iff. intros [h b] Hin.
  destruct (flatSections_heading _ _ _ Hin) as [Hh1 Hh2].
  unfold isCustom. cbn [fst]. apply negb_false_iff. rewrite <- Hsame.
  apply has_generatedHeaders. exists h. split; [|auto].
  apply in_app_or in Hh1. destruct Hh1 as [H|H]; [exact H|].
  exfalso. destruct H as [<-|[<-|[<-|[]]]]; vm_compute in Hh2; discriminate.
Qed.

Lemma self_merge_no_custom (generated : jsstring) :
  customSectionsOf generated generated = [].
Proof.
  apply customSectionsOf_nil. intros l Hin Hl. exists l. auto.
Qed.

Lemma custom_sections_wf (existing generated : jsstring) :
  let secs := List.filter (isCustom generated)
                (flatSections (splitLines existing)) in
  Forall isSection secs /\ forall sec, In sec secs -> isCustom generated sec = true.
Proof.
  split.
  - apply Forall_filter_keep, flatSections_isSection.
  - intros sec Hin. now apply filter_In in Hin.
Qed.

(** A later merge with a generated text of the same headings finds the
    same custom sections, each but the last one line feed longer: the
    blank line that separated it from the next section has become its
    last line. *)
Lemma collect_after_merge (existing generated regenerated : jsstring) :
  generatedHeaders (splitLines generated)
  = generatedHeaders (splitLines regenerated) ->
  collectCustomSections (mergeInstructionFiles existing generated) regenerated
  = lineFeedAfterAllButLast (collectCustomSections existing generated).
Proof.
  intros Hsame. unfold mergeInstructionFiles.
  rewrite !collect_flat_sections.
  destruct (custom_sections_wf existing generated) as [Hwf Hcustom].
  unfold customSectionsOf at 2 3 4.
  set (secs := List.filter (isCustom generated)
                 (flatSections (splitLines existing))) in *.
  destruct secs as [|sec rest] eqn:Hsecs.
  - cbn. apply customSectionsOf_nil. intros l Hin Hl.
    apply has_iff_headingInGenerated. rewrite <- Hsame.
    apply has_generatedHeaders. exists l. auto.
  - rewrite <- Hsecs in *.
    replace (negb (Nat.eqb (length (map sectionText secs)) 0)) with true
      by (rewrite Hsecs; reflexivity).
    cbv iota. unfold customSectionsOf.
    rewrite (splitLines_merged _ _ Hwf), app_assoc.
    destruct (sectionLines_cons sec rest) as (tail & Htail).
    assert (Hh : isHeading (fst sec) = true).
    { rewrite Hsecs in Hwf. inversion Hwf as [|? ? (H & _) _]. exact H. }
    rewrite Hsecs at 1. rewrite Htail.
    rewrite (flatSections_app_heading _ _ _ Hh), <- Htail, <- Hsecs.
    rewrite List.filter_app, (generated_part_not_custom _ _ Hsame).
    cbn [app].
    rewrite flatSections_sectionLines
      by (assumption || (rewrite Hsecs; discriminate)).
    rewrite filter_all.
    + apply sectionText_emptyLine.
    + intros s Hs. destruct (emptyLineAfterAllButLast_fst _ _ Hs)
        as (s' & Hs' & Heq).
      specialize (Hcustom s' Hs'). unfold isCustom in *.
      rewrite <- Hsame. now rewrite Heq.
Qed.

Lemma lineFeedAfterAllButLast_short (texts : list jsstring) :
  (length texts <= 1)%nat -> lineFeedAfterAllButLast texts = texts.
Proof.
  destruct texts as [|t [|u rest]]; simpl; [reflexivity | reflexivity | lia].
Qed.

Lemma lineFeedAfterAllButLast_length (texts : list jsstring) :
  length (lineFeedAfterAllButLast texts) = length texts.
Proof.
  induction texts as [|t rest IH]; [reflexivity|].
  destruct rest as [|u rest]; [reflexivity|].
  change (lineFeedAfterAllButLast (t :: u :: rest))
    with ((t ++ nl) :: lineFeedAfterAllButLast (u :: rest)).
  cbn [length]. now rewrite IH.
Qed.

Lemma merge_again_idempotent (existing generated : jsstring) :
  (length (collectCustomSections existing generated) <= 1)%nat ->
  mergeInstructionFiles (mergeInstructionFiles existing generated) generated
  = mergeInstructionFiles existing generated.
Proof.
  intros Hlen. unfold mergeInstructionFiles at 1.
  rewrite (collect_after_merge _ _ _ eq_refl),
    (lineFeedAfterAllButLast_short _ Hlen).
  reflexivity.
Qed.

(** X1.  Custom sections survive regeneration.  When a file that was
    merged with one generated text is merged with a later one that has
    the same heading lines (up to surrounding white space), the result
    is the later text, the separator, and the custom sections the
    first merge kept, in order, each but the last one line feed longer
    than before: the blank line after it is now part of it. *)
Theorem remerge_keeps_custom_sections
    (existing generated regenerated : jsstring) :
  generatedHeaders (splitLines generated)
  = generatedHeaders (splitLines regenerated) ->
  mergeInstructionFiles (mergeInstructionFiles existing generated) regenerated
  = if negb (Nat.eqb (length (collectCustomSections existing generated)) 0)
    then regenerated ++ separator
           ++ join (nl ++ nl)
                (lineFeedAfterAllButLast
                   (collectCustomSections existing generated))
    else regenerated.
Proof.
  intros Hsame. unfold mergeInstructionFiles at 1.
  now rewrite (collect_after_merge _ _ _ Hsame),
    lineFeedAfterAllButLast_length.
Qed.

Lemma remerge_keeps_custom_sections_witness :
  mergeInstructionFiles
    (mergeInstructionFiles MoreSamples.twoCustom Samples.standardsOld)
    Samples.standardsNew
  = if negb (Nat.eqb (length (collectCustomSections MoreSamples.twoCustom
                                Samples.standardsOld)) 0)
    then Samples.standardsNew ++ separator
           ++ join (nl ++ nl)
                (lineFeedAfterAllButLast
                   (collectCustomSections MoreSamples.twoCustom
                      Samples.standardsOld))
    else Samples.standardsNew.
Proof.
  assert (H : generatedHeaders (splitLines Samples.standardsOld)
              = generatedHeaders (splitLines Samples.standardsNew))
    by (vm_compute; reflexivity).
  exact (remerge_keeps_custom_sections MoreSamples.twoCustom
           Samples.standardsOld Samples.standardsNew H).
Defined.

(** Two custom sections: the second merge is one line feed longer than
    the first. *)
Example remerge_two_custom_sections :
  mergeInstructionFiles
    (mergeInstructionFiles MoreSamples.twoCustom Samples.standardsOld)
    Samples.standardsNew
  = Samples.standardsNew ++ separator
      ++ doc ["## Mine"; "a"; ""; ""; "## Also mine"; "b"]%string.
Proof. vm_compute. reflexivity. Qed.

(** X2.  With at most one custom section in the existing text the merge
    is idempotent: merging its result again with the same generated
    text gives the same text. *)
Theorem remerge_idempotent (existing generated : jsstring) :
  (length (collectCustomSections existing generated) <= 1)%nat ->
  mergeInstructionFiles (mergeInstructionFiles existing generated) generated
  = mergeInstructionFiles existing generated.
Proof. apply merge_again_idempotent. Qed.

Lemma remerge_idempotent_witness :
  mergeInstructionFiles
    (mergeInstructionFiles Samples.withCustomRules Samples.standardsUpdated)
    Samples.standardsUpdated
  = mergeInstructionFiles Samples.withCustomRules Samples.standardsUpdated.
Proof.
  assert (H : (length (collectCustomSections Samples.withCustomRules
                         Samples.standardsUpdated) <= 1)%nat)
    by (vm_compute; lia).
  exact (remerge_idempotent _ _ H).
Defined.

End RemergeFacts.

(* ===================================================================== *)
(** ** The merge engine: where the lines of a merge come from *)
(* ===================================================================== *)

Module MergeLineFacts.
Import JsString Filesystem MergeSpec RemergeSpec LineFacts MergeFacts RemergeFacts.

Lemma sectionLines_In (secs : list (jsstring * list jsstring)) (l : jsstring) :
  In l (sectionLines secs) ->
  l = [] \/ exists sec, In sec secs /\ In l (fst sec :: snd sec).
Proof.
  induction secs as [|sec rest IH].
  - intros [<- | []]. now left.
  - destruct rest as [|sec' rest].
    + intros Hin. right. exists sec. split; [now left | exact Hin].
    + change (sectionLines (sec :: sec' :: rest))
        with ((fst sec :: snd sec) ++ [] :: sectionLines (sec' :: rest)).
      intros Hin. apply in_app_or in Hin. destruct Hin as [Hin | [<- | Hin]].
      * right. exists sec. split; [now left | exact Hin].
      * now left.
      * destruct (IH Hin) as [-> | (s & Hs & Hl)]; [now left|].
        right. exists s. split; [now right | exact Hl].
Qed.

Lemma flatSections_plain_app (pre rest : list jsstring) :
  Forall (fun l => isHeading l = false) pre ->
  flatSections (pre ++ rest) = flatSections rest.
Proof.
  induction 1 as [|l pre Hl _ IH]; [reflexivity|].
  cbn [app flatSections]. now rewrite Hl.
Qed.

(** X3.  The merge invents no line: every line of the merged text is a
    line of the generated text, a line of the existing text, an empty
    line or the separator comment. *)
Theorem merged_lines_come_from_the_inputs (existing generated : jsstring) :
  Forall (fun l => In l (splitLines generated) \/ In l (splitLines existing)
                   \/ l = [] \/ l = separatorComment)
         (splitLines (mergeInstructionFiles existing generated)).
Proof.
  apply List.Forall_forall. intros l.
  unfold mergeInstructionFiles. rewrite collect_flat_sections.
  unfold customSectionsOf.
  destruct (custom_sections_wf existing generated) as [Hwf _].
  cbv zeta in Hwf.
  set (secs := List.filter (isCustom generated)
                 (flatSections (splitLines existing))) in *.
  destruct (negb (Nat.eqb (length (map sectionText secs)) 0)); [|now left].
  rewrite (splitLines_merged _ _ Hwf).
  intros Hin. apply in_app_or in Hin. destruct Hin as [Hin|Hin]; [now left|].
  right. destruct Hin as [<- | [<- | [<- | Hin]]]; auto.
  destruct (sectionLines_In _ _ Hin) as [-> | ([h b] & Hs & Hl)]; [auto|].
  left. apply filter_In in Hs. destruct Hs as [Hs _].
  destruct Hl as [<- | Hl].
  - now destruct (flatSections_heading _ _ _ Hs).
  - now destruct (flatSections_body _ _ _ _ Hs Hl).
Qed.

(** X4.  What the existing text has before its first heading line (a
    title, an introduction) is never carried over: the merge is the
    same without it. *)
Theorem text_before_first_heading_is_dropped
    (preamble existing generated : jsstring) :
  Forall (fun l => isHeading l = false) (splitLines preamble) ->
  mergeInstructionFiles (preamble ++ nl ++ existing) generated
  = mergeInstructionFiles existing generated.
Proof.
  intros Hplain. unfold mergeInstructionFiles.
  rewrite !collect_flat_sections. unfold customSectionsOf.
  change (preamble ++ nl ++ existing) with (preamble ++ LF :: existing).
  rewrite splitLines_app_LF, (flatSections_plain_app _ _ Hplain).
  reflexivity.
Qed.

Lemma text_before_first_heading_is_dropped_witness :
  mergeInstructionFiles
    (MoreSamples.titled ++ nl ++ Samples.withCustomRules)
    Samples.standardsUpdated
  = mergeInstructionFiles Samples.withCustomRules Samples.standardsUpdated.
Proof.
  assert (H : Forall (fun l => isHeading l = false)
                (splitLines MoreSamples.titled))
    by (vm_compute; repeat constructor).
  exact (text_before_first_heading_is_dropped _ _ _ H).
Defined.

End MergeLineFacts.

(* ===================================================================== *)
(** ** The file writers *)
(* ===================================================================== *)

Module FileWriteFacts.
Import JsString Filesystem MergeSpec RemergeSpec MergeFacts RemergeFacts.
Import FileWrites Scaffold.

(** Merging a text with itself changes nothing. *)
Lemma merge_same (generated : jsstring) :
  mergeInstructionFiles generated generated = generated.
Proof.
  unfold mergeInstructionFiles.
  now rewrite collect_flat_sections, self_merge_no_custom.
Qed.

(** *** Texts that survive the disk *)

Lemma high_not_low (c : N) :
  ConfigureMcp.isHighSurrogate c = true ->
  ConfigureMcp.isLowSurrogate c = false.
Proof.
  unfold ConfigureMcp.isHighSurrogate, ConfigureMcp.isLowSurrogate.
  intros H. apply andb_true_iff in H. destruct H as [_ H].
  apply N.leb_le in H. apply andb_false_iff. left. apply N.leb_gt. lia.
Qed.

Lemma wellFormed_fixed (s : jsstring) : wellFormed s -> toWellFormed s = s.
Proof.
  induction 1 as [|c s Hh Hl _ IH|a b s Hh Hl _ IH]; cbn [toWellFormed].
  - reflexivity.
  - now rewrite Hh, Hl, IH.
  - now rewrite Hh, Hl, IH.
Qed.

Lemma toWellFormed_wellFormed (s : jsstring) : wellFormed (toWellFormed s).
Proof.
  remember (length s) as n eqn:Hn. revert s Hn.
  induction n as [n IH] using lt_wf_ind. intros s Hn.
  destruct s as [|a r]; cbn [toWellFormed]; [constructor|].
  destruct (ConfigureMcp.isHighSurrogate a) eqn:Hh.
  - destruct r as [|b r'].
    + apply wellFormed_unit; [reflexivity | reflexivity | constructor].
    + destruct (ConfigureMcp.isLowSurrogate b) eqn:Hl.
      * apply wellFormed_pair; [exact Hh | exact Hl|].
        apply (IH (length r')); [subst n; cbn; lia | reflexivity].
      * apply wellFormed_unit; [reflexivity | reflexivity|].
        apply (IH (length (b :: r'))); [subst n; cbn; lia | reflexivity].
  - destruct (ConfigureMcp.isLowSurrogate a) eqn:Hl.
    + apply wellFormed_unit; [reflexivity | reflexivity|].
      apply (IH (length r)); [subst n; cbn; lia | reflexivity].
    + apply wellFormed_unit; [exact Hh | exact Hl|].
      apply (IH (length r)); [subst n; cbn; lia | reflexivity].
Qed.

Lemma fixed_wellFormed (s : jsstring) : toWellFormed s = s -> wellFormed s.
Proof. intros H. rewrite <- H. apply toWellFormed_wellFormed. Qed.

Lemma wellFormed_app (a b : jsstring) :
  wellFormed a -> wellFormed b -> wellFormed (a ++ b).
Proof.
  induction 1 as [|c s Hh Hl _ IH|x y s Hh Hl _ IH]; intros Hb; cbn [app].
  - exact Hb.
  - apply wellFormed_unit; auto.
  - apply wellFormed_pair; auto.
Qed.

Lemma wellFormed_join (sep : jsstring) (parts : list jsstring) :
  wellFormed sep -> Forall wellFormed parts -> wellFormed (join sep parts).
Proof.
  intros Hsep. induction 1 as [|p parts Hp Hparts IH]; [constructor|].
  destruct parts as [|q parts]; [exact Hp|].
  change (join sep (p :: q :: parts)) with (p ++ sep ++ join sep (q :: parts)).
  now repeat apply wellFormed_app.
Qed.

(** The lines of a well-formed text are well-formed: a line feed is no
    surrogate, so no pair is cut. *)
Lemma wellFormed_lines (s : jsstring) :
  wellFormed s -> Forall wellFormed (splitLines s).
Proof.
  induction 1 as [|c s Hh Hl _ IH|a b s Hh Hl _ IH].
  - repeat constructor.
  - cbn [splitLines]. destruct (c =? LF).
    + constructor; [constructor | exact IH].
    + destruct (splitLines s) as [|l ls]; [repeat constructor; assumption|].
      inversion IH; subst. constructor; [|assumption].
      now constructor.
  - assert (Ha : (a =? LF) = false).
    { apply N.eqb_neq. intros ->. discriminate Hh. }
    assert (Hb : (b =? LF) = false).
    { apply N.eqb_neq. intros ->. discriminate Hl. }
    cbn [splitLines]. rewrite Ha, Hb.
    destruct (splitLines s) as [|l ls].
    + constructor; [|constructor].
      apply wellFormed_pair; [assumption | assumption | constructor].
    + inversion IH; subst. constructor; [|assumption].
      now apply wellFormed_pair.
Qed.

Lemma wellFormed_merge (existing generated : jsstring) :
  wellFormed existing -> wellFormed generated ->
  wellFormed (mergeInstructionFiles existing generated).
Proof.
  intros He Hg. unfold mergeInstructionFiles.
  rewrite collect_flat_sections.
  destruct (negb _); [|exact Hg].
  apply wellFormed_app; [exact Hg|]. apply wellFormed_app.
  { apply fixed_wellFormed. vm_compute. reflexivity. }
  assert (Hnl : wellFormed nl)
    by (apply fixed_wellFormed; reflexivity).
  apply wellFormed_join; [now apply wellFormed_app|].
  pose proof (wellFormed_lines _ He) as Hlines.
  rewrite List.Forall_forall in Hlines.
  unfold customSectionsOf. apply List.Forall_forall. intros t Ht.
  apply in_map_iff in Ht. destruct Ht as ([h b] & <- & Hsec).
  apply filter_In in Hsec. destruct Hsec as [Hsec _].
  unfold sectionText. cbn [fst snd]. apply wellFormed_join; [exact Hnl|].
  constructor.
  - apply Hlines. now destruct (flatSections_heading _ _ _ Hsec).
  - apply List.Forall_forall. intros l Hl. apply Hlines.
    now destruct (flatSections_body _ _ _ _ Hsec Hl).
Qed.

(** X5.  Writing the same instruction file twice leaves the disk as the
    first write left it, for a content without lone surrogates (a text
    that comes back from the disk as it was written), when the file did
    not exist before or the text read from it had at most one custom
    section. *)
Theorem regenerating_changes_nothing (fs : Files) (path content : jsstring) :
  toWellFormed content = content ->
  match readFileSync fs path with
  | Some existing =>
      (length (collectCustomSections existing content) <= 1)%nat
  | None => True
  end ->
  writeInstructionFileWithMerge
    (writeInstructionFileWithMerge fs path content) path content
  = writeInstructionFileWithMerge fs path content.
Proof.
  intros Hcontent Hlen.
  set (written := match fs !! path with
                  | Some stored =>
                      mergeInstructionFiles (toWellFormed stored) content
                  | None => content
                  end).
  assert (Hfirst : writeInstructionFileWithMerge fs path content
                   = <[path := written]> fs).
  { unfold writeInstructionFileWithMerge, readFileSync, writeFileSync, written.
    now destruct (fs !! path). }
  assert (Hwf : wellFormed written).
  { unfold written. destruct (fs !! path).
    - apply wellFormed_merge;
        [apply toWellFormed_wellFormed | now apply fixed_wellFormed].
    - now apply fixed_wellFormed. }
  assert (Hsame : mergeInstructionFiles written content = written).
  { unfold written, readFileSync in *. destruct (fs !! path).
    - now apply merge_again_idempotent.
    - apply merge_same. }
  rewrite Hfirst.
  unfold writeInstructionFileWithMerge at 1. unfold readFileSync, writeFileSync.
  rewrite lookup_insert_eq. cbn [fmap option_fmap option_map].
  now rewrite (wellFormed_fixed _ Hwf), Hsame, insert_insert_eq.
Qed.

Lemma regenerating_changes_nothing_witness :
  writeInstructionFileWithMerge
    (writeInstructionFileWithMerge MoreSamples.disk
       (js "CLAUDE.md") Samples.standardsUpdated)
    (js "CLAUDE.md") Samples.standardsUpdated
  = writeInstructionFileWithMerge MoreSamples.disk
      (js "CLAUDE.md") Samples.standardsUpdated.
Proof.
  assert (H0 : toWellFormed Samples.standardsUpdated
               = Samples.standardsUpdated)
    by (vm_compute; reflexivity).
  assert (H : match readFileSync MoreSamples.disk (js "CLAUDE.md") with
              | Some existing =>
                  (length (collectCustomSections existing
                             Samples.standardsUpdated) <= 1)%nat
              | None => True
              end)
    by (vm_compute; lia).
  exact (regenerating_changes_nothing MoreSamples.disk (js "CLAUDE.md")
           Samples.standardsUpdated H0 H).
Defined.

(** A heading with a lone surrogate does not come back as it was
    written: the second write takes it for a custom section and the
    file grows. *)
Example lone_surrogate_heading_grows :
  writeInstructionFileWithMerge
    (writeInstructionFileWithMerge ∅ (js "CLAUDE.md")
       (js "## A" ++ [55296; LF; 120]))
    (js "CLAUDE.md") (js "## A" ++ [55296; LF; 120])
  <> writeInstructionFileWithMerge ∅ (js "CLAUDE.md")
       (js "## A" ++ [55296; LF; 120]).
Proof.
  intros H.
  apply (f_equal (fun fs : Files => length <$> fs !! js "CLAUDE.md")) in H.
  vm_compute in H. discriminate H.
Qed.

(** *** The tracked writes of a scaffold run *)

(** The first write of the list to a path. *)
Lemma existsSync_None (fs : Files) (p : jsstring) :
  fs !! p = None -> existsSync fs p = false.
Proof.
  intros H. unfold existsSync. apply bool_decide_eq_false.
  rewrite H. intros [x Hx]. discriminate.
Qed.

Lemma existsSync_Some (fs : Files) (p c : jsstring) :
  fs !! p = Some c -> existsSync fs p = true.
Proof.
  intros H. unfold existsSync. apply bool_decide_eq_true. rewrite H. eauto.
Qed.

Lemma trackWrite_files (force : bool) (st : Tracked) (w : Write) :
  files (trackWrite force st w)
  = (writeFileIfMissing (files st) (filePath w) (content w) force).1.
Proof.
  unfold trackWrite.
  destruct (writeFileIfMissing _ _ _ _) as [fs []]; reflexivity.
Qed.

(** X6.  Without [force] the first writer wins: after the writes of a
    scaffold run a file that existed before has the content it had, and
    any other path has the content of the first write to it, if there
    was one. *)
Theorem scaffold_without_force_first_write_wins
    (st : Tracked) (ws : list Write) (p : jsstring) :
  files (trackWrites false st ws) !! p
  = match files st !! p with
    | Some old => Some old
    | None =>
        content <$> List.find (fun w => bool_decide (filePath w = p)) ws
    end.
Proof.
  unfold trackWrites. revert st.
  induction ws as [|w ws IH]; intros st.
  - simpl. now destruct (files st !! p).
  - cbn [fold_left List.find]. rewrite IH, trackWrite_files.
    unfold writeFileIfMissing, writeFileSync. rewrite andb_true_r.
    destruct (files st !! filePath w) as [c|] eqn:Hw.
    + rewrite (existsSync_Some _ _ _ Hw). cbn [fst].
      destruct (files st !! p) as [old|] eqn:Hp; [reflexivity|].
      case_bool_decide as Heq; [congruence | reflexivity].
    + rewrite (existsSync_None _ _ Hw). cbn [fst].
      case_bool_decide as Heq.
      * subst p. now rewrite lookup_insert_eq, Hw.
      * now rewrite lookup_insert_ne.
Qed.

Lemma find_app_first {A} (f : A -> bool) (l1 l2 : list A) :
  List.find f (l1 ++ l2)
  = match List.find f l1 with
    | Some x => Some x
    | None => List.find f l2
    end.
Proof.
  induction l1 as [|a l1 IH]; simpl; [reflexivity|].
  now destruct (f a).
Qed.

(** X7.  With [force] nothing is skipped and the last writer wins:
    every write is reported as created, in order, and a written path
    has the content of the last write to it. *)
Theorem scaffold_with_force_last_write_wins
    (st : Tracked) (ws : list Write) (p : jsstring) :
  filesSkipped (trackWrites true st ws) = filesSkipped st /\
  filesCreated (trackWrites true st ws)
    = filesCreated st ++ map relativePath ws /\
  files (trackWrites true st ws) !! p
    = match List.find (fun w => bool_decide (filePath w = p)) (rev ws) with
      | Some w => Some (content w)
      | None => files st !! p
      end.
Proof.
  unfold trackWrites. revert st.
  induction ws as [|w ws IH]; intros st.
  - simpl. now rewrite app_nil_r.
  - cbn [fold_left]. destruct (IH (trackWrite true st w)) as (H1 & H2 & H3).
    rewrite H1, H2, H3. clear IH H1 H2 H3.
    assert (Hstep : trackWrite true st w
                    = mkTracked (<[filePath w := content w]> (files st))
                        (filesCreated st ++ [relativePath w])
                        (filesSkipped st)).
    { unfold trackWrite, writeFileIfMissing, writeFileSync.
      rewrite andb_false_r. now destruct (existsSync _ _). }
    rewrite Hstep. cbn [files filesCreated filesSkipped map rev].
    split; [reflexivity|]. split; [now rewrite <- app_assoc|].
    rewrite find_app_first.
    destruct (List.find _ (rev ws)) as [w'|]; [reflexivity|].
    cbn [List.find]. case_bool_decide as Heq.
    + subst p. now rewrite lookup_insert_eq.
    + now rewrite lookup_insert_ne.
Qed.

Lemma trackWrite_skips (st : Tracked) (w : Write) (c : jsstring) :
  files st !! filePath w = Some c ->
  trackWrite false st w
  = mkTracked (files st) (filesCreated st) (filesSkipped st ++ [relativePath w]).
Proof.
  intros H. unfold trackWrite, writeFileIfMissing.
  now rewrite (existsSync_Some _ _ _ H).
Qed.

Lemma trackWrites_all_exist (st : Tracked) (ws : list Write) :
  (forall w, In w ws -> is_Some (files st !! filePath w)) ->
  trackWrites false st ws
  = mkTracked (files st) (filesCreated st)
      (filesSkipped st ++ map relativePath ws).
Proof.
  unfold trackWrites. revert st.
  induction ws as [|w ws IH]; intros st Hall.
  - simpl. rewrite app_nil_r. now destruct st.
  - cbn [fold_left]. destruct (Hall w (or_introl eq_refl)) as [c Hc].
    rewrite (trackWrite_skips _ _ _ Hc), IH.
    + cbn [files filesCreated filesSkipped map]. now rewrite <- app_assoc.
    + intros w' Hw'. cbn [files]. apply Hall. now right.
Qed.

Lemma trackWrites_written (force : bool) (ws : list Write) :
  forall st w, In w ws \/ is_Some (files st !! filePath w) ->
  is_Some (files (trackWrites force st ws) !! filePath w).
Proof.
  unfold trackWrites.
  induction ws as [|v ws IH]; intros st w H.
  - destruct H as [[] | H]. exact H.
  - cbn [fold_left]. apply IH.
    destruct H as [[-> | H] | H]; [right | now left | right];
      rewrite trackWrite_files; unfold writeFileIfMissing, writeFileSync.
    + destruct (existsSync (files st) (filePath w) && negb force) eqn:He.
      * apply andb_true_iff in He. destruct He as [He _].
        unfold existsSync in He. now apply bool_decide_eq_true in He.
      * cbn [fst]. rewrite lookup_insert_eq. eauto.
    + destruct (existsSync (files st) (filePath v) && negb force);
        [exact H|]. cbn [fst].
      destruct (decide (filePath v = filePath w)) as [-> | Hne].
      * rewrite lookup_insert_eq. eauto.
      * now rewrite lookup_insert_ne.
Qed.

(** X8.  Running the same writes again without [force] changes no file
    and creates nothing: every write of the second run is reported as
    skipped. *)
Theorem scaffold_again_skips_everything
    (force : bool) (st : Tracked) (ws : list Write) :
  let firstRun := trackWrites force st ws in
  trackWrites false firstRun ws
  = mkTracked (files firstRun) (filesCreated firstRun)
      (filesSkipped firstRun ++ map relativePath ws).
Proof.
  intros firstRun. apply trackWrites_all_exist.
  intros w Hw. apply trackWrites_written. now left.
Qed.

End FileWriteFacts.

(* ===================================================================== *)
(** ** Discovery: order, provenance and the registry's answer *)
(* ===================================================================== *)

Module DiscoveryOrderFacts.
Import JsString Exn McpDiscovery DiscoverySpec DiscoveryOrder McpDiscoveryFacts.

(** *** The sort sorts *)

Lemma insertSorted_sorted {A} (cmp : A -> A -> Z) (x : A) (l : list A) :
  consistentCompare cmp ->
  StronglySorted (fun a b => (cmp a b <= 0)%Z) l ->
  StronglySorted (fun a b => (cmp a b <= 0)%Z) (insertSorted cmp x l).
Proof.
  intros [Htotal Htrans]. induction 1 as [|y r Hr IH Hy]; simpl.
  - repeat constructor.
  - destruct (Z.leb_spec (cmp x y) 0) as [Hle|Hgt].
    + constructor; [now constructor|].
      constructor; [exact Hle|].
      rewrite List.Forall_forall in *. intros z Hz. eauto.
    + constructor; [exact IH|].
      rewrite List.Forall_forall in *. intros z Hz.
      apply (Permutation_in _ (insertSorted_perm cmp x r)) in Hz.
      destruct Hz as [<- | Hz]; [|auto].
      destruct (Htotal x y); [lia | assumption].
Qed.

Lemma sortWith_sorted {A} (cmp : A -> A -> Z) (l : list A) :
  consistentCompare cmp ->
  StronglySorted (fun a b => (cmp a b <= 0)%Z) (sortWith cmp l).
Proof.
  intros Hc. induction l as [|x l IH]; simpl; [constructor|].
  now apply insertSorted_sorted.
Qed.

Lemma compareServers_comesBefore (lc : jsstring -> jsstring -> Z)
    (a b : McpServerRecommendation) :
  (compareServers lc a b <= 0)%Z <-> comesBefore lc a b.
Proof.
  unfold compareServers, comesBefore.
  destruct (Z.eqb_spec (Z.of_nat (length (relevantTags b))
                        - Z.of_nat (length (relevantTags a))) 0) as [He|Hne];
    simpl; split.
  - intros H. right. split; [lia | exact H].
  - intros [H | [_ H]]; [lia | exact H].
  - intros H. left. lia.
  - intros [H | [H _]]; lia.
Qed.

Lemma compareServers_consistent (lc : jsstring -> jsstring -> Z) :
  consistentCompare lc -> consistentCompare (compareServers lc).
Proof.
  intros [Htotal Htrans]. split.
  - intros a b. rewrite !compareServers_comesBefore. unfold comesBefore.
    destruct (Htotal (name a) (name b)); lia.
  - intros a b c. rewrite !compareServers_comesBefore. unfold comesBefore.
    intros [H1 | [H1 H1']] [H2 | [H2 H2']]; try lia.
    right. split; [lia|]. eauto.
Qed.

Lemma StronglySorted_iff {A} (R S : A -> A -> Prop) (l : list A) :
  (forall a b, R a b <-> S a b) -> StronglySorted R l -> StronglySorted S l.
Proof.
  intros HRS. induction 1 as [|x l Hl IH Hx]; constructor; [exact IH|].
  rewrite List.Forall_forall in *. intros y Hy. apply HRS. auto.
Qed.

Lemma deduplicateServers_sorted (lc : jsstring -> jsstring -> Z)
    (local remote : list McpServerRecommendation) :
  consistentCompare lc ->
  StronglySorted (comesBefore lc) (deduplicateServers lc local remote).
Proof.
  intros Hc. unfold deduplicateServers.
  apply (StronglySorted_iff _ _ _ (compareServers_comesBefore lc)).
  apply sortWith_sorted. now apply compareServers_consistent.
Qed.

(** X9.  The result of [discoverServers] is sorted, for a
    [localeCompare] that is a total preorder: a server comes before
    every server with fewer tags, and before one with as many tags only
    if its name does not compare greater. *)
Theorem discovered_servers_are_sorted
    (localeCompare : jsstring -> jsstring -> Z)
    (templates : gmap Tag TagTemplateSet) (defaultRegistryUrl : jsstring)
    (network : jsstring -> Remote) (tags : list Tag)
    (options : option McpDiscoveryOptions) :
  consistentCompare localeCompare ->
  exists result,
    discoverServers localeCompare templates defaultRegistryUrl network
      tags options = Ok result
    /\ StronglySorted (comesBefore localeCompare) result.
Proof.
  intros Hc.
  destruct (discoverServers_returns localeCompare templates
              defaultRegistryUrl network tags options) as [remote Heq].
  eexists. split; [exact Heq|]. now apply deduplicateServers_sorted.
Qed.

(** The comparison by code units is a total preorder. *)
Lemma compareUnits_cases (a b : jsstring) :
  (Samples.compareUnits a b = -1 \/ Samples.compareUnits a b = 0
   \/ Samples.compareUnits a b = 1)%Z.
Proof.
  revert b. induction a as [|x a IH]; intros [|y b]; simpl; auto.
  destruct (x <? y); [auto|]. destruct (y <? x); auto.
Qed.

Lemma compareUnits_flip (a b : jsstring) :
  Samples.compareUnits b a = (- Samples.compareUnits a b)%Z.
Proof.
  revert b. induction a as [|x a IH]; intros [|y b]; simpl; try reflexivity.
  destruct (N.ltb_spec x y), (N.ltb_spec y x); try reflexivity; try lia.
  apply IH.
Qed.

Lemma compareUnits_trans (a b c : jsstring) :
  (Samples.compareUnits a b <= 0)%Z -> (Samples.compareUnits b c <= 0)%Z ->
  (Samples.compareUnits a c <= 0)%Z.
Proof.
  revert b c. induction a as [|x a IH]; intros [|y b] [|z c]; simpl;
    try lia.
  destruct (N.ltb_spec x y), (N.ltb_spec y x), (N.ltb_spec y z),
    (N.ltb_spec z y), (N.ltb_spec x z), (N.ltb_spec z x);
    try lia; try (intros; lia).
  apply IH.
Qed.

Lemma compareUnits_consistent : consistentCompare Samples.compareUnits.
Proof.
  split.
  - intros a b. rewrite (compareUnits_flip a b).
    destruct (compareUnits_cases a b) as [H|[H|H]]; lia.
  - apply compareUnits_trans.
Qed.

Lemma discovered_servers_are_sorted_witness :
  exists result,
    discoverServers Samples.compareUnits Samples.templates [] Samples.registry
      [js "UNIVERSAL"] (Some Samples.remoteOptions) = Ok result
    /\ StronglySorted (comesBefore Samples.compareUnits) result.
Proof.
  exact (discovered_servers_are_sorted Samples.compareUnits Samples.templates
           [] Samples.registry [js "UNIVERSAL"] (Some Samples.remoteOptions)
           compareUnits_consistent).
Defined.

(** *** Which servers the registry contributes *)

Lemma overlaps_shared_tag (tags : list Tag) (entry : McpServerEntry) :
  overlaps tags entry = true <->
  exists t, In t tags /\ In t (entry_tags entry).
Proof.
  unfold overlaps. rewrite existsb_exists. split.
  - intros (t & Ht & Hin). exists t. split; [|exact Ht].
    apply bool_decide_eq_true in Hin.
    now apply elem_of_list_to_set, list_elem_of_In in Hin.
  - intros (t & Ht & Hin). exists t. split; [exact Hin|].
    apply bool_decide_eq_true. now apply elem_of_list_to_set, list_elem_of_In.
Qed.

(** What [fetchRemoteServers] returns is made of entries that share a
    requested tag. *)
Lemma fetchRemoteServers_tagged (remote : Remote) (tags : list Tag)
    (registryUrl : jsstring) (timeoutMs : N)
    (servers : list McpServerRecommendation) :
  fetchRemoteServers remote tags registryUrl timeoutMs = Ok servers ->
  forall r, In r servers ->
    source r = js "remote" /\
    exists t, In t tags /\ In t (relevantTags r).
Proof.
  unfold fetchRemoteServers, fetchRemoteServersTry, fetch, responseJson,
    tryCatch.
  intros Heq r Hr.
  assert (Hcase : servers = [] \/
    exists entries, servers
      = map (fun e => entryToRecommendation e (js "remote"))
          (List.filter (overlaps tags) entries)).
  { destruct remote as [| | afterMs [isOk code content]]; simpl in Heq;
      try (left; congruence).
    destruct (afterMs <? timeoutMs); simpl in Heq; [|left; congruence].
    destruct isOk; simpl in Heq; [|left; congruence].
    destruct content as [|[entries|]]; simpl in Heq; try (left; congruence).
    right. exists entries. congruence. }
  destruct Hcase as [-> | (entries & ->)]; [destruct Hr|].
  apply in_map_iff in Hr. destruct Hr as (e & <- & He).
  apply filter_In in He. destruct He as [_ He].
  split; [reflexivity|]. now apply overlaps_shared_tag.
Qed.

Lemma fetchRemoteServers_answer (remote : Remote) (tags : list Tag)
    (registryUrl : jsstring) (timeoutMs : N) (entries : list McpServerEntry) :
  registryAnswers remote timeoutMs entries ->
  fetchRemoteServers remote tags registryUrl timeoutMs
  = Ok (map (fun e => entryToRecommendation e (js "remote"))
          (List.filter (overlaps tags) entries)).
Proof.
  intros (afterMs & response & -> & Hlt & Hok & Hbody).
  unfold fetchRemoteServers, fetchRemoteServersTry, fetch, responseJson,
    tryCatch.
  apply N.ltb_lt in Hlt. rewrite Hlt. simpl. now rewrite Hok, Hbody.
Qed.

(** The remote servers [discoverServers] merges in. *)
Lemma discoverServers_remote_part (localeCompare : jsstring -> jsstring -> Z)
    (templates : gmap Tag TagTemplateSet)
    (defaultRegistryUrl : jsstring) (network : jsstring -> Remote)
    (tags : list Tag) (options : option McpDiscoveryOptions) :
  exists remoteServers,
    discoverServers localeCompare templates defaultRegistryUrl network
      tags options
    = Ok (deduplicateServers localeCompare
            (loadLocalServers templates tags) remoteServers)
    /\ forall r, In r remoteServers ->
         source r = js "remote" /\
         exists t, In t tags /\ In t (relevantTags r).
Proof.
  unfold discoverServers.
  destruct options as [opts|]; [|exists []; split; [reflexivity | intros ? []]].
  destruct (default false (includeRemote opts));
    [|exists []; split; [reflexivity | intros ? []]].
  destruct (negb _); [|exists []; split; [reflexivity | intros ? []]].
  destruct (fetchRemoteServers_returns
              (network (default defaultRegistryUrl (remoteRegistryUrl opts)))
              tags (default defaultRegistryUrl (remoteRegistryUrl opts))
              (default DEFAULT_REMOTE_TIMEOUT_MS (remoteTimeoutMs opts)))
    as [servers Hs].
  exists servers. split; [now rewrite Hs|].
  now apply (fetchRemoteServers_tagged _ _ _ _ _ Hs).
Qed.

(** X10.  Every server [discoverServers] returns is one of the local
    servers of the templates, or a server marked ["remote"] that
    carries at least one of the requested tags: the registry cannot add
    a server for tags that were not asked for. *)
Theorem remote_servers_share_a_requested_tag
    (localeCompare : jsstring -> jsstring -> Z)
    (templates : gmap Tag TagTemplateSet) (defaultRegistryUrl : jsstring)
    (network : jsstring -> Remote) (tags : list Tag)
    (options : option McpDiscoveryOptions) :
  exists result,
    discoverServers localeCompare templates defaultRegistryUrl network
      tags options = Ok result
    /\ forall r, In r result ->
         In r (loadLocalServers templates tags)
         \/ (source r = js "remote"
             /\ exists t, In t tags /\ In t (relevantTags r)).
Proof.
  destruct (discoverServers_remote_part localeCompare templates
              defaultRegistryUrl network tags options)
    as (remote & Heq & Hremote).
  eexists. split; [exact Heq|]. intros r Hr.
  apply (Permutation_in _ (deduplicateServers_perm localeCompare _ _)) in Hr.
  destruct (merged_spec localeCompare (loadLocalServers templates tags) remote)
    as (_ & Hin & _).
  destruct (Hin r Hr) as [[Hl | Hrem] _]; [now left | right; auto].
Qed.

(** X12.  Without a request for it the registry is never contacted:
    with no options, with [includeRemote] absent or false, or with an
    empty registry URL, the result is the sorted local servers whatever
    the network would answer. *)
Theorem registry_contacted_only_on_request
    (localeCompare : jsstring -> jsstring -> Z)
    (templates : gmap Tag TagTemplateSet) (defaultRegistryUrl : jsstring)
    (network : jsstring -> Remote) (tags : list Tag)
    (options : option McpDiscoveryOptions) :
  remoteDisabled defaultRegistryUrl options ->
  discoverServers localeCompare templates defaultRegistryUrl network
    tags options
  = Ok (sortWith (compareServers localeCompare)
          (loadLocalServers templates tags)).
Proof.
  intros Hoff.
  assert (Hlocal :
    deduplicateServers localeCompare (loadLocalServers templates tags) []
    = sortWith (compareServers localeCompare)
        (loadLocalServers templates tags)).
  { unfold deduplicateServers.
    change (fold_left pushUnseen []
              (fold_left pushUnseen (loadLocalServers templates tags)
                 (∅, []))).2
      with (merged (loadLocalServers templates tags) []).
    rewrite merged_local_only; [reflexivity|].
    apply loadLocalServers_ok. }
  unfold discoverServers. destruct options as [opts|]; simpl in Hoff.
  - destruct Hoff as [Hinc | Hurl].
    + destruct (includeRemote opts) as [[|]|]; [congruence | |];
        simpl; now rewrite Hlocal.
    + rewrite Hurl. destruct (default false (includeRemote opts));
        simpl; now rewrite Hlocal.
  - simpl. now rewrite Hlocal.
Qed.

Lemma registry_contacted_only_on_request_witness :
  discoverServers Samples.compareUnits Samples.templates Samples.registryUrl
    Samples.registry [js "UNIVERSAL"] None
  = Ok (sortWith (compareServers Samples.compareUnits)
          (loadLocalServers Samples.templates [js "UNIVERSAL"])).
Proof.
  exact (registry_contacted_only_on_request Samples.compareUnits
           Samples.templates Samples.registryUrl Samples.registry
           [js "UNIVERSAL"] None I).
Defined.

(** *** The local servers are the first entries of each name *)

Lemma fold_pushUnseen_first (l : list McpServerRecommendation) :
  forall (acc : Acc) (r : McpServerRecommendation),
    In r (fold_left pushUnseen l acc).2 <->
    In r acc.2 \/
    ((name r ∉ acc.1) /\
     List.find (fun x => bool_decide (name x = name r)) l = Some r).
Proof.
  induction l as [|x l IH]; intros acc r.
  - simpl. split; [auto | intros [H | [_ H]]; [exact H | discriminate]].
  - cbn [fold_left List.find]. rewrite IH. unfold pushUnseen.
    case_bool_decide as Hseen; case_bool_decide as Hname; cbn [fst snd].
    + split; [intros [H | [H _]]; [auto | congruence]|].
      intros [H | [H _]]; [auto | congruence].
    + tauto.
    + rewrite in_app_iff. cbn [In].
      rewrite not_elem_of_union, not_elem_of_singleton. split.
      * intros [[H | [-> | []]] | [[H _] _]]; [auto | | congruence].
        right. split; [congruence | reflexivity].
      * intros [H | [_ H]]; [auto|]. left. right. left. congruence.
    + rewrite in_app_iff. cbn [In].
      rewrite not_elem_of_union, not_elem_of_singleton. split.
      * intros [[H | [-> | []]] | [[_ H] H']]; [auto | congruence | auto].
      * intros [H | [H H']]; [auto|]. right. split; [|exact H'].
        split; [congruence | exact H].
Qed.

Lemma loadLocalServers_entries (templates : gmap Tag TagTemplateSet)
    (tags : list Tag) :
  loadLocalServers templates tags
  = (fold_left pushUnseen
       (map (fun e => entryToRecommendation e (js "built-in"))
            (templateEntries templates tags)) (∅, [])).2.
Proof.
  unfold loadLocalServers, templateEntries. generalize ((∅, []) : Acc).
  induction tags as [|t ts IH]; intros acc; [reflexivity|].
  cbn [fold_left flat_map]. rewrite map_app, fold_left_app, IH.
  destruct (templates !! t) as [ts'|]; [|reflexivity].
  destruct (mcpServers ts') as [servers|]; [|reflexivity].
  cbn [default]. now rewrite pushEntries_fold.
Qed.

Lemma find_map_entries (n : jsstring) (entries : list McpServerEntry) :
  List.find (fun x => bool_decide (name x = n))
    (map (fun e => entryToRecommendation e (js "built-in")) entries)
  = (fun e => entryToRecommendation e (js "built-in"))
      <$> List.find (fun e => bool_decide (entry_name e = n)) entries.
Proof.
  induction entries as [|e es IH]; [reflexivity|].
  cbn [map List.find]. cbn [name entryToRecommendation].
  case_bool_decide; [reflexivity | exact IH].
Qed.

(** X13.  The local servers are the first entries of each name: a
    recommendation is among the local servers exactly when it is the
    built-in form of the first entry with its name, going through the
    requested tags in order and through each tag's servers in order.
    Tags without a template set or without servers add nothing. *)
Theorem local_servers_are_first_entries
    (templates : gmap Tag TagTemplateSet) (tags : list Tag)
    (r : McpServerRecommendation) :
  In r (loadLocalServers templates tags) <->
  exists e,
    List.find (fun e' => bool_decide (entry_name e' = name r))
      (templateEntries templates tags) = Some e
    /\ r = entryToRecommendation e (js "built-in").
Proof.
  rewrite loadLocalServers_entries, fold_pushUnseen_first, find_map_entries.
  cbn [fst snd In]. split.
  - intros [[] | [_ H]].
    destruct (List.find _ _) as [e|]; [|discriminate].
    exists e. split; [reflexivity|]. simpl in H. congruence.
  - intros (e & -> & ->). right. split; [apply not_elem_of_empty|].
    reflexivity.
Qed.

End DiscoveryOrderFacts.

(* ===================================================================== *)
(** ** Facts: the remote fetch in detail *)
(* ===================================================================== *)

Module RemoteRegistryFacts.
Import JsString Exn McpDiscovery DiscoverySpec ConfigureMcp.
Import McpDiscoveryFacts DiscoveryOrderFacts.
Import RemoteRegistry RegistrySpec.

(** *** Keys that are no index *)

(** The decimal digits. *)
Definition isDigitChar (c : ascii) : Prop :=
  (48 <= N_of_ascii c <= 57)%N.

Definition headDigit (s : string) : Prop :=
  match s with
  | String c _ => isDigitChar c
  | EmptyString => False
  end.

Lemma pretty_N_char_digit (x : N) : isDigitChar (pretty_N_char x).
Proof.
  unfold pretty_N_char, isDigitChar.
  repeat case_match; vm_compute; split; discriminate.
Qed.

Lemma pretty_N_go_headDigit (x : N) (s : string) :
  (0 < x)%N \/ headDigit s -> headDigit (pretty_N_go x s).
Proof.
  revert s. induction (N.lt_wf_0 x) as [x _ IH]. intros s Hs.
  assert (Hx : (x = 0 \/ 0 < x)%N) by lia.
  destruct Hx as [-> | Hpos].
  - rewrite pretty_N_go_0. destruct Hs as [Hs | Hs]; [lia | exact Hs].
  - rewrite pretty_N_go_step by exact Hpos.
    apply IH; [now apply N.div_lt|].
    right. apply pretty_N_char_digit.
Qed.

Lemma pretty_nat_headDigit (i : nat) : headDigit (pretty i).
Proof.
  unfold pretty, pretty_nat, pretty, pretty_N.
  destruct (decide (N.of_nat i = 0%N)) as [_ | Hne].
  - vm_compute. split; discriminate.
  - apply pretty_N_go_headDigit. left. lia.
Qed.

(** A key that starts with a letter is no index of an array. *)
Lemma indexed_letter {A} (xs : list A) (c : N) (key : jsstring) :
  ~ (48 <= c <= 57)%N -> indexed xs !! (c :: key) = None.
Proof.
  intros Hc. unfold indexed. apply not_elem_of_list_to_map_1.
  intros Hin. apply list_elem_of_fmap in Hin.
  destruct Hin as ([k v] & Hk & Hin). simpl in Hk.
  apply elem_of_lookup_imap in Hin. destruct Hin as (i & x & Heq & _).
  injection Heq as -> _.
  pose proof (pretty_nat_headDigit i) as Hd.
  destruct (pretty i) as [|d rest]; [destruct Hd|].
  unfold js in Hk. simpl in Hk. injection Hk as -> _.
  exact (Hc Hd).
Qed.

(** Only an object has an own property of such a name. *)
Lemma ownProps_letter (v : json) (c : N) (key : jsstring) (x : json) :
  ~ (48 <= c <= 57)%N ->
  ownProps (Some v) !! (c :: key) = Some x ->
  exists fields, v = JObj fields /\ fields !! (c :: key) = Some x.
Proof.
  intros Hc. destruct v as [| b | q | s | xs | fields]; simpl;
    rewrite ?lookup_empty, ?(indexed_letter _ c key Hc);
    try discriminate.
  intros H. now exists fields.
Qed.

(** *** Reading the parsed body *)

Lemma serversOf_array (fields : gmap jsstring json) (raw : list json) :
  fields !! js "servers" = Some (JArr raw) ->
  serversOf (JObj fields) = Ok (Some raw).
Proof. intros H. unfold serversOf, getProp. simpl. now rewrite H. Qed.

Lemma no_array_lookup (v : json) (c : N) (key : jsstring) :
  ~ (48 <= c <= 57)%N ->
  ~ hasArray v (c :: key) ->
  match ownProps (Some v) !! (c :: key) with
  | Some (JArr _) => False
  | _ => True
  end.
Proof.
  intros Hc Hno.
  destruct (ownProps (Some v) !! (c :: key)) as [x|] eqn:Hx; [|exact I].
  destruct x as [| | | | xs |]; try exact I.
  apply ownProps_letter in Hx; [|exact Hc].
  destruct Hx as (fields & -> & Hf). apply Hno.
  exists fields, xs. split; [reflexivity | exact Hf].
Qed.

Lemma serversOf_no_array (data : json) :
  ~ hasArray data (js "servers") ->
  serversOf data = Throw OtherError \/ serversOf data = Ok None.
Proof.
  intros Hno.
  assert (Hc : ~ (48 <= 115 <= 57)%N) by lia.
  pose proof (no_array_lookup data 115 (js "ervers") Hc Hno) as H.
  change (115 :: js "ervers") with (js "servers") in H.
  unfold serversOf, getProp.
  destruct data; [now left | right ..]; cbn [mbind Result_bind];
    (destruct (ownProps _ !! js "servers") as [[| | | | raw |]|];
     [reflexivity .. | destruct H | reflexivity | reflexivity]).
Qed.

Lemma entryMatches_no_array (tags : list Tag) (entry : json) :
  ~ hasArray entry (js "tags") ->
  entryMatches tags entry = Throw OtherError.
Proof.
  intros Hno.
  assert (Hc : ~ (48 <= 116 <= 57)%N) by lia.
  pose proof (no_array_lookup entry 116 (js "ags") Hc Hno) as H.
  change (116 :: js "ags") with (js "tags") in H.
  unfold entryMatches, getProp.
  destruct entry; [reflexivity | ..]; cbn [mbind Result_bind];
    (destruct (ownProps _ !! js "tags") as [[| | | | raw |]|];
     [reflexivity .. | destruct H | reflexivity | reflexivity]).
Qed.

Lemma entryMatches_total (tags : list Tag) (entry : json) :
  entryMatches tags entry = Throw OtherError
  \/ exists keep, entryMatches tags entry = Ok keep.
Proof.
  unfold entryMatches, getProp.
  destruct entry; [now left | ..]; cbn [mbind Result_bind];
    (destruct (ownProps _ !! js "tags") as [[| | | | ts |]|];
     [left; reflexivity .. | right; eexists; reflexivity
      | left; reflexivity | left; reflexivity]).
Qed.

Lemma filterEntries_total (tags : list Tag) (entries : list json) :
  filterEntries tags entries = Throw OtherError
  \/ exists kept, filterEntries tags entries = Ok kept.
Proof.
  induction entries as [|x entries IH]; [right; now exists []|].
  cbn [filterEntries].
  destruct (entryMatches_total tags x) as [-> | (keep & ->)];
    [now left|].
  cbn [mbind Result_bind].
  destruct IH as [-> | (kept & ->)]; [now left|].
  right. cbn [mbind Result_bind]. eexists. reflexivity.
Qed.

(** One entry without a [tags] array ends the filter. *)
Lemma filterEntries_bad_entry (tags : list Tag) (entries : list json)
    (entry : json) :
  In entry entries -> ~ hasArray entry (js "tags") ->
  filterEntries tags entries = Throw OtherError.
Proof.
  intros Hin Hno. induction entries as [|x entries IH]; [destruct Hin|].
  cbn [filterEntries].
  destruct Hin as [-> | Hin].
  - now rewrite (entryMatches_no_array tags entry Hno).
  - destruct (entryMatches_total tags x) as [-> | (keep & ->)];
      [reflexivity|].
    cbn [mbind Result_bind]. now rewrite (IH Hin).
Qed.

(** *** Entries of the declared type *)

Lemma mapM_asString (ts : list json) (l : list jsstring) :
  mapM (fun x => asString (Some x)) ts = Some l -> ts = map JStr l.
Proof.
  intros H. apply mapM_Some in H.
  induction H as [|x s ts l Hx _ IH]; [reflexivity|].
  destruct x; try discriminate Hx. injection Hx as ->.
  cbn [map]. now rewrite IH.
Qed.

Lemma decodeEntry_tags (x : json) (e : McpServerEntry) :
  decodeEntry x = Some e ->
  exists fields, x = JObj fields
    /\ fields !! js "tags" = Some (JArr (map JStr (entry_tags e))).
Proof.
  destruct x as [| | | | | fields]; try discriminate. intros H.
  exists fields. split; [reflexivity|]. unfold decodeEntry in H.
  repeat match type of H with
         | (mbind _ ?m) = Some _ =>
             let v := fresh "v" in let Hv := fresh "Hv" in
             destruct m as [v|] eqn:Hv; [cbn [mbind option_bind] in H
                                        | discriminate H]
         end.
  injection H as <-. cbn [entry_tags].
  unfold asStrings in *.
  destruct (fields !! js "tags") as [[| | | | ts |]|]; try discriminate.
  f_equal. f_equal. now apply mapM_asString.
Qed.

Lemma isRequestedTag_string (tags : list Tag) (l : list Tag) :
  existsb (isRequestedTag tags) (map JStr l)
  = existsb (fun t => bool_decide (t ∈ (list_to_set tags : gset Tag))) l.
Proof. induction l as [|t l IH]; [reflexivity|]. cbn. now rewrite IH. Qed.

(** On an entry of the declared type the test is the test on its
    tags. *)
Lemma entryMatches_decoded (tags : list Tag) (x : json)
    (e : McpServerEntry) :
  decodeEntry x = Some e -> entryMatches tags x = Ok (overlaps tags e).
Proof.
  intros H. destruct (decodeEntry_tags x e H) as (fields & -> & Ht).
  unfold entryMatches, getProp. cbn [ownProps mbind Result_bind].
  rewrite Ht. unfold overlaps. now rewrite isRequestedTag_string.
Qed.

Lemma filterEntries_decoded (tags : list Tag) (raw : list json)
    (entries : list McpServerEntry) :
  mapM decodeEntry raw = Some entries ->
  exists kept,
    filterEntries tags raw = Ok kept
    /\ mapM decodeEntry kept = Some (List.filter (overlaps tags) entries).
Proof.
  intros H. apply mapM_Some in H.
  induction H as [|x e raw entries He _ (kept & Hk & Hd)]; [now exists []|].
  cbn [filterEntries]. rewrite (entryMatches_decoded tags x e He).
  cbn [mbind Result_bind]. rewrite Hk. cbn [mbind Result_bind].
  cbn [List.filter].
  destruct (overlaps tags e); eexists; (split; [reflexivity|]);
    [|exact Hd].
  apply mapM_Some. constructor; [exact He|]. now apply mapM_Some.
Qed.

(** *** What the fetch comes to *)

(** The fetch never rejects: it is fulfilled or it never settles. *)
Lemma fetchRemoteServers_outcome (registry : Registry) (tags : list Tag)
    (registryUrl : jsstring) (timeoutMs : N) :
  (exists entries,
      fetchRemoteServers registry tags registryUrl timeoutMs
      = Fulfilled entries)
  \/ (fetchRemoteServers registry tags registryUrl timeoutMs = Pending
      /\ bodyStalls timeoutMs registry).
Proof.
  unfold fetchRemoteServers, fetchRemoteServersTry, fetchUnderTimer,
    readJson, catchAsync.
  destruct registry as [| | afterMs [isOk code read]];
    cbn [mbind Async_bind]; [left; now exists [] ..|].
  destruct (afterMs <? timeoutMs) eqn:Hlt; cbn [mbind Async_bind];
    [|left; now exists []].
  cbn [raw_ok raw_status raw_body].
  destruct isOk; cbn [negb]; [|left; now exists []].
  destruct read as [| | data]; cbn [mbind Async_bind].
  - right. split; [reflexivity|]. exists afterMs, code.
    split; [reflexivity|]. now apply N.ltb_lt.
  - left. now exists [].
  - left. unfold serversOf, getProp.
    destruct data; cbn [mbind Result_bind settled];
      try (now exists []);
      (destruct (ownProps _ !! js "servers") as [[| | | | raw |]|];
       cbn [settled]; try (now exists []);
       destruct (filterEntries_total tags raw) as [-> | (kept & ->)];
       cbn [settled]; eexists; reflexivity).
Qed.

(** Each failure of the registry gives the empty list. *)
Lemma registry_failure_gives_nothing (registry : Registry) (tags : list Tag)
    (registryUrl : jsstring) (timeoutMs : N) :
  registryFails timeoutMs registry ->
  fetchRemoteServers registry tags registryUrl timeoutMs = Fulfilled [].
Proof.
  unfold fetchRemoteServers, fetchRemoteServersTry, fetchUnderTimer,
    readJson, catchAsync.
  intros Hfail.
  destruct Hfail as [ | | afterMs response Hlate | afterMs code read
                    | afterMs code | afterMs code data Hno
                    | afterMs code fields entries entry Hs Hin Hno];
    cbn [mbind Async_bind]; try reflexivity.
  - apply N.ltb_ge in Hlate. now rewrite Hlate.
  - destruct (afterMs <? timeoutMs); reflexivity.
  - destruct (afterMs <? timeoutMs); reflexivity.
  - destruct (afterMs <? timeoutMs); [|reflexivity].
    cbn [mbind Async_bind raw_ok raw_body negb].
    destruct (serversOf_no_array data Hno) as [-> | ->]; reflexivity.
  - destruct (afterMs <? timeoutMs); [|reflexivity].
    cbn [mbind Async_bind raw_ok raw_body negb].
    rewrite (serversOf_array fields entries Hs).
    cbn [mbind Result_bind].
    now rewrite (filterEntries_bad_entry tags entries entry Hin Hno).
Qed.

(** A body that never comes leaves the fetch unsettled. *)
Lemma fetchRemoteServers_stall (registry : Registry) (tags : list Tag)
    (registryUrl : jsstring) (timeoutMs : N) :
  bodyStalls timeoutMs registry ->
  fetchRemoteServers registry tags registryUrl timeoutMs = Pending.
Proof.
  intros (afterMs & code & -> & Hlt). apply N.ltb_lt in Hlt.
  unfold fetchRemoteServers, fetchRemoteServersTry, fetchUnderTimer.
  now rewrite Hlt.
Qed.

Lemma fetchRemoteServers_gives (registry : Registry) (tags : list Tag)
    (registryUrl : jsstring) (timeoutMs : N)
    (entries : list McpServerEntry) :
  registryGives timeoutMs registry entries ->
  exists kept,
    fetchRemoteServers registry tags registryUrl timeoutMs = Fulfilled kept
    /\ mapM decodeEntry kept = Some (List.filter (overlaps tags) entries).
Proof.
  intros (afterMs & code & fields & raw & -> & Hlt & Hs & Hraw).
  apply N.ltb_lt in Hlt.
  destruct (filterEntries_decoded tags raw entries Hraw) as (kept & Hk & Hd).
  exists kept. split; [|exact Hd].
  unfold fetchRemoteServers, fetchRemoteServersTry, fetchUnderTimer, readJson.
  rewrite Hlt. cbn [mbind Async_bind raw_ok raw_body negb].
  rewrite (serversOf_array fields raw Hs). cbn [mbind Result_bind].
  now rewrite Hk.
Qed.

Section Discover.
Variable localeCompare : jsstring -> jsstring -> Z.

(** With [includeRemote] and a registry URL, [discoverServers] awaits
    the fetch for that URL. *)
Lemma discoverServers_awaits (templates : gmap Tag TagTemplateSet)
    (defaultRegistryUrl : jsstring) (network : jsstring -> Registry)
    (tags : list Tag) (opts : McpDiscoveryOptions) :
  includeRemote opts = Some true ->
  default defaultRegistryUrl (remoteRegistryUrl opts) <> [] ->
  discoverServers localeCompare templates defaultRegistryUrl network tags
    (Some opts)
  = match fetchRemoteServers
            (network (default defaultRegistryUrl (remoteRegistryUrl opts)))
            tags (default defaultRegistryUrl (remoteRegistryUrl opts))
            (default DEFAULT_REMOTE_TIMEOUT_MS (remoteTimeoutMs opts))
    with
    | Fulfilled remoteEntries =>
        match mapM decodeEntry remoteEntries with
        | Some entries =>
            Returns (deduplicateServers localeCompare
                       (loadLocalServers templates tags)
                       (map (fun e => entryToRecommendation e (js "remote"))
                            entries))
        | None => OutsideTypes (loadLocalServers templates tags) remoteEntries
        end
    | Rejected e => Throws e
    | Pending => NeverReturns
    end.
Proof.
  intros Hinc Hurl. unfold discoverServers. rewrite Hinc. cbn [default].
  destruct (default defaultRegistryUrl (remoteRegistryUrl opts)) eqn:Hu;
    [congruence|].
  reflexivity.
Qed.

Lemma local_only (local : list McpServerRecommendation) :
  NoDup (map name local) ->
  deduplicateServers localeCompare local []
  = sortWith (compareServers localeCompare) local.
Proof.
  intros Hnd. unfold deduplicateServers.
  change (fold_left pushUnseen [] (fold_left pushUnseen local (∅, []))).2
    with (merged local []).
  now rewrite merged_local_only.
Qed.

(** [discoverServers] never throws. *)
Lemma discoverServers_never_throws (templates : gmap Tag TagTemplateSet)
    (defaultRegistryUrl : jsstring) (network : jsstring -> Registry)
    (tags : list Tag) (options : option McpDiscoveryOptions) (e : Thrown) :
  discoverServers localeCompare templates defaultRegistryUrl network tags
    options <> Throws e.
Proof.
  unfold discoverServers.
  destruct options as [opts|]; [|discriminate].
  destruct (default false (includeRemote opts)); [|discriminate].
  destruct (negb _); [|discriminate].
  destruct (fetchRemoteServers_outcome
              (network (default defaultRegistryUrl (remoteRegistryUrl opts)))
              tags (default defaultRegistryUrl (remoteRegistryUrl opts))
              (default DEFAULT_REMOTE_TIMEOUT_MS (remoteTimeoutMs opts)))
    as [(entries & ->) | (-> & _)]; [|discriminate].
  destruct (mapM decodeEntry entries); discriminate.
Qed.

(** C6.  With [includeRemote] and a registry URL: when the registry
    fails (the connection fails, no headers arrive before the abort
    timer fires, the status is not a success, the body is no JSON, it
    has no [servers] array, or an entry has no [tags] array),
    [discoverServers] returns the local servers and nothing else, the
    sorted list of what the templates gave.  But the timer is cleared
    once the headers are there: when they announce a success in time
    and the body never comes, [discoverServers] never returns. *)
Theorem remote_fetch_is_bounded_up_to_the_headers
    (templates : gmap Tag TagTemplateSet) (defaultRegistryUrl : jsstring)
    (network : jsstring -> Registry) (tags : list Tag)
    (opts : McpDiscoveryOptions) :
  includeRemote opts = Some true ->
  default defaultRegistryUrl (remoteRegistryUrl opts) <> [] ->
  (registryFails
     (default DEFAULT_REMOTE_TIMEOUT_MS (remoteTimeoutMs opts))
     (network (default defaultRegistryUrl (remoteRegistryUrl opts))) ->
   discoverServers localeCompare templates defaultRegistryUrl network tags
     (Some opts)
   = Returns (sortWith (compareServers localeCompare)
                (loadLocalServers templates tags))
   /\ sortWith (compareServers localeCompare)
        (loadLocalServers templates tags)
      ≡ₚ loadLocalServers templates tags
   /\ Forall builtIn
        (sortWith (compareServers localeCompare)
           (loadLocalServers templates tags)))
  /\ (bodyStalls
        (default DEFAULT_REMOTE_TIMEOUT_MS (remoteTimeoutMs opts))
        (network (default defaultRegistryUrl (remoteRegistryUrl opts))) ->
      discoverServers localeCompare templates defaultRegistryUrl network tags
        (Some opts)
      = NeverReturns).
Proof.
  intros Hinc Hurl.
  rewrite (discoverServers_awaits templates defaultRegistryUrl network tags
             opts Hinc Hurl).
  destruct (loadLocalServers_ok templates tags) as [Hnd Hb].
  split.
  - intros Hfail.
    rewrite (registry_failure_gives_nothing _ tags _ _ Hfail).
    change (mapM decodeEntry []) with (Some ([] : list McpServerEntry)).
    cbn [map]. rewrite (local_only _ Hnd).
    split; [reflexivity|]. split; [apply sortWith_perm|].
    rewrite sortWith_perm. exact Hb.
  - intros Hstall.
    now rewrite (fetchRemoteServers_stall _ tags _ _ Hstall).
Qed.


(** *** The simpler model *)

Lemma fetchRemoteServers_agree (registry : Registry) (remote : Remote)
    (tags : list Tag) (registryUrl : jsstring) (timeoutMs : N) :
  behavesAs registry remote ->
  exists kept entries,
    fetchRemoteServers registry tags registryUrl timeoutMs = Fulfilled kept
    /\ mapM decodeEntry kept = Some entries
    /\ McpDiscovery.fetchRemoteServers remote tags registryUrl timeoutMs
       = Ok (map (fun e => entryToRecommendation e (js "remote")) entries).
Proof.
  intros Hb.
  assert (Hnone : forall r : Registry,
            fetchRemoteServers r tags registryUrl timeoutMs = Fulfilled [] ->
            forall m : Remote,
            McpDiscovery.fetchRemoteServers m tags registryUrl timeoutMs
            = Ok [] ->
            exists kept entries,
              fetchRemoteServers r tags registryUrl timeoutMs = Fulfilled kept
              /\ mapM decodeEntry kept = Some entries
              /\ McpDiscovery.fetchRemoteServers m tags registryUrl timeoutMs
                 = Ok (map (fun e => entryToRecommendation e (js "remote"))
                         entries)).
  { intros r Hr m Hm. exists [], []. now rewrite Hr, Hm. }
  destruct Hb as [ | | afterMs code read content | afterMs code
                 | afterMs code data Hno
                 | afterMs code fields raw entries Hs Hraw].
  - apply Hnone; reflexivity.
  - apply Hnone; reflexivity.
  - apply Hnone.
    + apply registry_failure_gives_nothing. apply fails_status.
    + apply McpDiscoveryFacts.fetchRemoteServers_failure. simpl. auto.
  - apply Hnone.
    + apply registry_failure_gives_nothing. apply fails_unreadable.
    + apply McpDiscoveryFacts.fetchRemoteServers_failure. simpl. auto.
  - apply Hnone.
    + apply registry_failure_gives_nothing. now apply fails_no_servers.
    + apply McpDiscoveryFacts.fetchRemoteServers_failure. simpl. auto.
  - destruct (afterMs <? timeoutMs) eqn:Hlt.
    + apply N.ltb_lt in Hlt.
      destruct (fetchRemoteServers_gives
                  (Answers afterMs
                     (mkRawResponse true code (BodyParses (JObj fields))))
                  tags registryUrl timeoutMs entries)
        as (kept & Hk & Hd).
      { exists afterMs, code, fields, raw. auto. }
      exists kept, (List.filter (overlaps tags) entries).
      split; [exact Hk|]. split; [exact Hd|].
      apply fetchRemoteServers_answer.
      exists afterMs, (mkResponse true code (BodyData (Some entries))).
      auto.
    + apply N.ltb_ge in Hlt. apply Hnone.
      * apply registry_failure_gives_nothing. now apply fails_late.
      * apply McpDiscoveryFacts.fetchRemoteServers_failure. simpl. auto.
Qed.

(** For registries of the simpler model the two models of
    [discoverServers] return the same list. *)
Lemma discoverServers_agree (templates : gmap Tag TagTemplateSet)
    (defaultRegistryUrl : jsstring) (network : jsstring -> Registry)
    (simpler : jsstring -> Remote) (tags : list Tag)
    (options : option McpDiscoveryOptions) :
  (forall registryUrl, behavesAs (network registryUrl) (simpler registryUrl)) ->
  exists result,
    McpDiscovery.discoverServers localeCompare templates defaultRegistryUrl
      simpler tags options = Ok result
    /\ discoverServers localeCompare templates defaultRegistryUrl network
         tags options = Returns result.
Proof.
  intros Hb. unfold discoverServers, McpDiscovery.discoverServers.
  destruct options as [opts|]; [|eexists; split; reflexivity].
  destruct (default false (includeRemote opts));
    [|eexists; split; reflexivity].
  destruct (negb _); [|eexists; split; reflexivity].
  destruct (fetchRemoteServers_agree _ _ tags
              (default defaultRegistryUrl (remoteRegistryUrl opts))
              (default DEFAULT_REMOTE_TIMEOUT_MS (remoteTimeoutMs opts))
              (Hb (default defaultRegistryUrl (remoteRegistryUrl opts))))
    as (kept & entries & -> & -> & ->).
  eexists; split; reflexivity.
Qed.

End Discover.

(** The registry that never sends its body: the call never returns. *)
Lemma remote_fetch_is_bounded_up_to_the_headers_witness :
  discoverServers Samples.compareUnits Samples.templates []
    RegistrySamples.stalled [js "UNIVERSAL"] (Some Samples.remoteOptions)
  = NeverReturns.
Proof.
  assert (H1 : includeRemote Samples.remoteOptions = Some true)
    by reflexivity.
  assert (H2 : default [] (remoteRegistryUrl Samples.remoteOptions) <> [])
    by (vm_compute; discriminate).
  assert (H3 : bodyStalls
                 (default DEFAULT_REMOTE_TIMEOUT_MS
                    (remoteTimeoutMs Samples.remoteOptions))
                 (RegistrySamples.stalled
                    (default [] (remoteRegistryUrl Samples.remoteOptions)))).
  { exists 20, 200. split; [reflexivity | vm_compute; reflexivity]. }
  exact (proj2 (remote_fetch_is_bounded_up_to_the_headers
                  Samples.compareUnits Samples.templates []
                  RegistrySamples.stalled [js "UNIVERSAL"]
                  Samples.remoteOptions H1 H2) H3).
Defined.


(** An entry without a [tags] array makes the filter throw: the entry
    beside it, which has a requested tag and a new name, is lost with
    it, and the local servers are returned alone. *)
Example entry_without_tags_drops_the_rest :
  discoverServers Samples.compareUnits Samples.templates []
    (RegistrySamples.answering
       [RegistrySamples.noTagsJson; RegistrySamples.remoteOnlyJson])
    [js "UNIVERSAL"] (Some Samples.remoteOptions)
  = Returns [entryToRecommendation Samples.forgecraft (js "built-in")].
Proof. vm_compute. reflexivity. Qed.

(** Without the entry that has no [tags] the remote server is there. *)
Example entry_with_tags_is_kept :
  discoverServers Samples.compareUnits Samples.templates []
    (RegistrySamples.answering [RegistrySamples.remoteOnlyJson])
    [js "UNIVERSAL"] (Some Samples.remoteOptions)
  = Returns [entryToRecommendation Samples.forgecraft (js "built-in");
             entryToRecommendation Samples.remoteOnly (js "remote")].
Proof. vm_compute. reflexivity. Qed.

(** An entry with a requested tag and no name passes the filter, inside
    the [try], and reaches [deduplicateServers], outside of it. *)
Example nameless_entry_reaches_the_sort :
  discoverServers Samples.compareUnits Samples.templates []
    (RegistrySamples.answering [RegistrySamples.noNameJson])
    [js "UNIVERSAL"] (Some Samples.remoteOptions)
  = OutsideTypes [entryToRecommendation Samples.forgecraft (js "built-in")]
      [RegistrySamples.noNameJson].
Proof. vm_compute. reflexivity. Qed.

End RemoteRegistryFacts.

(* ===================================================================== *)
(** ** JavaScript objects: assignment and lookup *)
(* ===================================================================== *)

Module JsObjectFacts.
Import JsString JsObject McpDiscoveryFacts.

Section Objects.
Context {V : Type}.
Implicit Types (o : object V) (k : jsstring) (v : V).

Lemma get_Some_In o k v : get o k = Some v -> In (k, v) o.
Proof.
  unfold get. induction o as [|[k' v'] o IH]; simpl; [discriminate|].
  case_bool_decide as Hk; simpl in *.
  - intros [= <-]. left. now subst.
  - intros H. right. now apply IH.
Qed.

Lemma get_None o k : get o k = None <-> ~ In k (map fst o).
Proof.
  unfold get. induction o as [|[k' v'] o IH]; simpl; [tauto|].
  case_bool_decide as Hk; simpl in *.
  - split; [discriminate | tauto].
  - rewrite IH. tauto.
Qed.

Lemma In_get o k v :
  NoDup (map fst o) -> In (k, v) o -> get o k = Some v.
Proof.
  unfold get. induction o as [|[k' v'] o IH]; simpl; [tauto|].
  intros Hnd [Heq | Hin]; apply list.NoDup_cons in Hnd; destruct Hnd as [Hk Hnd].
  - inversion Heq; subst. now rewrite bool_decide_eq_true_2.
  - case_bool_decide as Hk'; simpl in *; [|now apply IH].
    subst. exfalso. apply Hk. apply list_elem_of_In.
    now apply (List.in_map fst) in Hin.
Qed.

Lemma map_fst_update o k v :
  map fst (map (fun kv : jsstring * V =>
                  if bool_decide (fst kv = k) then (k, v) else kv) o)
  = map fst o.
Proof.
  induction o as [|[k' v'] o IH]; simpl; [reflexivity|].
  rewrite IH. case_bool_decide; simpl in *; congruence.
Qed.

(** The keys after an assignment. *)
Lemma keys_set o k v :
  map fst (set o k v)
  = if bool_decide (k = js "__proto__") then map fst o
    else if bool_decide (k ∈ map fst o) then map fst o
    else map fst o ++ [k].
Proof.
  unfold set. case_bool_decide as Hp; [reflexivity|].
  case_bool_decide as Hs; case_bool_decide as Hin.
  - apply map_fst_update.
  - exfalso. destruct Hs as [x Hx]. apply Hin. apply list_elem_of_In.
    apply get_Some_In in Hx. now apply (List.in_map fst) in Hx.
  - exfalso. apply Hs. destruct (get o k) eqn:Hg; [eauto|].
    apply get_None in Hg. now apply list_elem_of_In in Hin.
  - now rewrite map_app.
Qed.

Lemma set_NoDup o k v : NoDup (map fst o) -> NoDup (map fst (set o k v)).
Proof.
  intros Hnd. rewrite keys_set.
  case_bool_decide; [exact Hnd|]. case_bool_decide as Hin; [exact Hnd|].
  apply list.NoDup_app. split; [exact Hnd|]. split.
  - intros x Hx Hx'. apply list_elem_of_singleton in Hx'. subst.
    now apply Hin.
  - apply NoDup_singleton.
Qed.

Lemma get_update o k v k' :
  get (map (fun kv : jsstring * V =>
              if bool_decide (fst kv = k) then (k, v) else kv) o) k'
  = if bool_decide (k' = k) then (fun _ => v) <$> get o k else get o k'.
Proof.
  unfold get. induction o as [|[k0 v0] o IH]; cbn [map List.find fst].
  - now destruct (bool_decide (k' = k)).
  - destruct (decide (k0 = k)) as [-> | H0].
    + rewrite (bool_decide_eq_true_2 (k = k) eq_refl). cbn [List.find fst].
      destruct (decide (k' = k)) as [-> | H1].
      * rewrite !(bool_decide_eq_true_2 (k = k) eq_refl). reflexivity.
      * rewrite (bool_decide_eq_false_2 (k = k')) by congruence.
        rewrite IH. now rewrite (bool_decide_eq_false_2 (k' = k)).
    + rewrite (bool_decide_eq_false_2 (k0 = k)) by exact H0.
      cbn [List.find fst].
      destruct (decide (k' = k)) as [-> | H1].
      * rewrite (bool_decide_eq_false_2 (k0 = k)) by exact H0.
        rewrite IH. now rewrite (bool_decide_eq_true_2 (k = k)).
      * destruct (decide (k0 = k')) as [-> | H2].
        -- rewrite (bool_decide_eq_true_2 (k' = k') eq_refl).
           now rewrite (bool_decide_eq_false_2 (k' = k)).
        -- rewrite (bool_decide_eq_false_2 (k0 = k')) by exact H2.
           rewrite IH. now rewrite (bool_decide_eq_false_2 (k' = k)).
Qed.

Lemma get_app o1 o2 k :
  get (o1 ++ o2) k = match get o1 k with Some v => Some v | None => get o2 k end.
Proof.
  unfold get. induction o1 as [|[k0 v0] o1 IH]; simpl; [reflexivity|].
  case_bool_decide; simpl; [reflexivity | exact IH].
Qed.

(** Reading after an assignment. *)
Lemma get_set o k v k' :
  k <> js "__proto__" ->
  get (set o k v) k' = if bool_decide (k' = k) then Some v else get o k'.
Proof.
  intros Hp. unfold set. rewrite bool_decide_eq_false_2 by exact Hp.
  case_bool_decide as Hs.
  - rewrite get_update. case_bool_decide; [|reflexivity].
    destruct Hs as [x ->]. reflexivity.
  - rewrite get_app. case_bool_decide as Hk.
    + subst k'. destruct (get o k) eqn:Hg; [exfalso; eauto|].
      unfold get. simpl. now rewrite bool_decide_eq_true_2.
    + destruct (get o k'); [reflexivity|].
      unfold get. simpl. now rewrite bool_decide_eq_false_2 by congruence.
Qed.

Lemma set_proto o v : set o (js "__proto__") v = o.
Proof. reflexivity. Qed.

Lemma assignAll_NoDup (kvs : list (jsstring * V)) :
  forall o, NoDup (map fst o) -> NoDup (map fst (assignAll o kvs)).
Proof.
  unfold assignAll. induction kvs as [|[k v] kvs IH]; intros o Hnd;
    [exact Hnd|].
  cbn [fold_left]. apply IH. now apply set_NoDup.
Qed.

(** The keys after a series of assignments. *)
Lemma assignAll_keys (kvs : list (jsstring * V)) :
  forall o k,
    In k (map fst (assignAll o kvs)) <->
    In k (map fst o) \/ (In k (map fst kvs) /\ k <> js "__proto__").
Proof.
  unfold assignAll. induction kvs as [|[k0 v0] kvs IH]; intros o k.
  - simpl. tauto.
  - cbn [fold_left]. rewrite IH, keys_set. cbn [map fst In].
    case_bool_decide as Hp.
    + subst k0. intuition congruence.
    + case_bool_decide as Hin.
      * apply list_elem_of_In in Hin. intuition (subst; auto).
      * rewrite in_app_iff. cbn [In]. intuition (subst; auto).
Qed.

(** A key that is not assigned keeps its value. *)
Lemma assignAll_other (kvs : list (jsstring * V)) :
  forall o k, ~ In k (map fst kvs) -> get (assignAll o kvs) k = get o k.
Proof.
  unfold assignAll. induction kvs as [|[k0 v0] kvs IH]; intros o k Hk;
    [reflexivity|].
  cbn [fold_left]. cbn [map fst In] in Hk. rewrite IH by tauto.
  destruct (decide (k0 = js "__proto__")) as [-> | Hp]; [reflexivity|].
  rewrite (get_set _ _ _ _ Hp). rewrite bool_decide_eq_false_2; [reflexivity|].
  intros ->. tauto.
Qed.

(** A key that is assigned once has the assigned value. *)
Lemma assignAll_assigned (kvs : list (jsstring * V)) :
  forall o k v,
    NoDup (map fst kvs) -> In (k, v) kvs -> k <> js "__proto__" ->
    get (assignAll o kvs) k = Some v.
Proof.
  induction kvs as [|[k0 v0] kvs IH]; intros o k v Hnd Hin Hp; [destruct Hin|].
  cbn [map fst] in Hnd. apply list.NoDup_cons in Hnd. destruct Hnd as [Hk0 Hnd].
  change (assignAll o ((k0, v0) :: kvs)) with (assignAll (set o k0 v0) kvs).
  destruct Hin as [Heq | Hin].
  - inversion Heq; subst. rewrite assignAll_other.
    + rewrite (get_set _ _ _ _ Hp). now rewrite bool_decide_eq_true_2.
    + intros H. apply Hk0. now apply list_elem_of_In.
  - now apply IH.
Qed.

Lemma filter_partition_perm (f : jsstring * V -> bool) o :
  List.filter f o ++ List.filter (fun x => negb (f x)) o ≡ₚ o.
Proof.
  induction o as [|x o IH]; simpl; [reflexivity|].
  destruct (f x); simpl.
  - now rewrite IH.
  - rewrite <- Permutation_middle. now rewrite IH.
Qed.

(** [Object.entries] lists every own property once. *)
Lemma entries_perm o : entries o ≡ₚ o.
Proof.
  unfold entries. rewrite sortWith_perm. apply filter_partition_perm.
Qed.

Lemma keys_perm o : keys o ≡ₚ map fst o.
Proof. unfold keys. now rewrite entries_perm. Qed.

Lemma get_perm o o' k :
  NoDup (map fst o) -> o ≡ₚ o' -> get o k = get o' k.
Proof.
  intros Hnd Hperm.
  assert (Hnd' : NoDup (map fst o')) by now rewrite <- Hperm.
  destruct (get o k) as [v|] eqn:Hg.
  - symmetry. apply In_get; [exact Hnd'|].
    apply (Permutation_in _ Hperm). now apply get_Some_In.
  - symmetry. apply get_None. apply get_None in Hg.
    intros H. apply Hg.
    apply (Permutation_in _ (Permutation_sym (Permutation_map fst Hperm))).
    exact H.
Qed.

End Objects.

End JsObjectFacts.

(* ===================================================================== *)
(** ** tools/configure-mcp.ts: the servers, their rules and the limit *)
(* ===================================================================== *)

Module ConfigureMcpHandlerFacts.
Import JsString McpDiscovery DiscoveryOrder JsObject ConfigureMcpHandler.
Import McpDiscoveryFacts DiscoveryOrderFacts JsObjectFacts.

(** *** The limit *)

Lemma insertSorted_ext {A} (cmp cmp' : A -> A -> Z) (x : A) (l : list A) :
  (forall b, In b l -> cmp x b = cmp' x b) ->
  insertSorted cmp x l = insertSorted cmp' x l.
Proof.
  induction l as [|y r IH]; intros H; simpl; [reflexivity|].
  rewrite (H y (or_introl eq_refl)).
  destruct (cmp' x y <=? 0)%Z; [reflexivity|].
  rewrite IH; [reflexivity|]. intros b Hb. apply H. now right.
Qed.

Lemma sortWith_ext {A} (cmp cmp' : A -> A -> Z) (l : list A) :
  (forall a b, In a l -> In b l -> cmp a b = cmp' a b) ->
  sortWith cmp l = sortWith cmp' l.
Proof.
  induction l as [|x l IH]; intros H; simpl; [reflexivity|].
  rewrite IH by (intros a b Ha Hb; apply H; now right).
  apply insertSorted_ext. intros b Hb. apply H; [now left|].
  right. apply (Permutation_in _ (sortWith_perm cmp' l)). exact Hb.
Qed.

Lemma comparePriorities_consistent :
  consistentCompare (fun a b => (tierPriority a - tierPriority b)%Z).
Proof. split; intros; lia. Qed.

Lemma compareTiers_ordinary (a b : McpServerRecommendation) :
  tierOf a <> Inherited -> tierOf b <> Inherited ->
  compareTiers a b = (tierPriority a - tierPriority b)%Z.
Proof.
  unfold compareTiers, tierPriority, tierOf.
  destruct (TIER_PRIORITY (default (js "recommended") (tier a)));
    destruct (TIER_PRIORITY (default (js "recommended") (tier b)));
    intros Ha Hb; try reflexivity; congruence.
Qed.

Lemma StronglySorted_app_inv {A} (R : A -> A -> Prop) (l1 l2 : list A) :
  StronglySorted R (l1 ++ l2) ->
  forall a b, In a l1 -> In b l2 -> R a b.
Proof.
  induction l1 as [|x l1 IH]; intros Hs a b Ha Hb; [destruct Ha|].
  cbn [app] in Hs. inversion Hs as [|? ? Hs' Hx]; subst.
  destruct Ha as [<- | Ha].
  - rewrite List.Forall_forall in Hx. apply Hx. apply in_or_app. now right.
  - now apply IH.
Qed.

Lemma filterByTierPriority_spec (recs : list McpServerRecommendation)
    (m : nat) :
  ordinaryTiers recs ->
  exists dropped,
    filterByTierPriority recs m ++ dropped ≡ₚ recs /\
    length (filterByTierPriority recs m) = Nat.min m (length recs) /\
    forall k d, In k (filterByTierPriority recs m) -> In d dropped ->
                (tierPriority k <= tierPriority d)%Z.
Proof.
  intros Hord. unfold ordinaryTiers in Hord.
  rewrite List.Forall_forall in Hord.
  unfold filterByTierPriority.
  rewrite (sortWith_ext compareTiers
             (fun a b => (tierPriority a - tierPriority b)%Z))
    by (intros a b Ha Hb; apply compareTiers_ordinary; auto).
  set (sorted := sortWith _ recs).
  exists (drop m sorted). split; [|split].
  - rewrite take_drop. apply sortWith_perm.
  - rewrite length_take. unfold sorted.
    now rewrite (Permutation_length (sortWith_perm _ recs)).
  - intros k d Hk Hd.
    pose proof (sortWith_sorted _ recs comparePriorities_consistent) as Hs.
    fold sorted in Hs. rewrite <- (take_drop m sorted) in Hs.
    pose proof (StronglySorted_app_inv _ _ _ Hs k d Hk Hd) as H.
    simpl in H. lia.
Qed.

(** X14.  The limit keeps the highest priorities.  With [max_servers]
    given, the servers kept are as many as the limit allows, the kept
    and the dropped servers together are the recommendations, and no
    dropped server has a better tier than a kept one (core before
    recommended before optional; a missing or unknown tier counts as
    recommended). *)
Theorem server_limit_keeps_highest_priority
    (recs : list McpServerRecommendation) (m : nat) :
  ordinaryTiers recs -> m <> 0%nat ->
  exists dropped,
    limitServers (Some m) recs ++ dropped ≡ₚ recs /\
    length (limitServers (Some m) recs) = Nat.min m (length recs) /\
    forall k d, In k (limitServers (Some m) recs) -> In d dropped ->
                (tierPriority k <= tierPriority d)%Z.
Proof.
  intros Hord Hm. unfold limitServers.
  destruct (Nat.eqb_spec m 0) as [|_]; [contradiction|]. cbn [negb andb].
  destruct (Nat.ltb_spec m (length recs)) as [Hlt | Hge].
  - now apply filterByTierPriority_spec.
  - exists []. rewrite app_nil_r. split; [reflexivity|].
    split; [lia|]. intros k d _ [].
Qed.

Lemma server_limit_keeps_highest_priority_witness :
  exists dropped,
    limitServers (Some 1%nat) ConfigureSamples.threeTiers ++ dropped
      ≡ₚ ConfigureSamples.threeTiers /\
    length (limitServers (Some 1%nat) ConfigureSamples.threeTiers)
      = Nat.min 1 (length ConfigureSamples.threeTiers) /\
    forall k d, In k (limitServers (Some 1%nat) ConfigureSamples.threeTiers) ->
                In d dropped -> (tierPriority k <= tierPriority d)%Z.
Proof.
  assert (H1 : ordinaryTiers ConfigureSamples.threeTiers)
    by (repeat constructor; vm_compute; discriminate).
  assert (H2 : 1%nat <> 0%nat) by discriminate.
  exact (server_limit_keeps_highest_priority ConfigureSamples.threeTiers 1 H1 H2).
Defined.

(** The core server of three is the one kept. *)
Example limit_keeps_core :
  map name (limitServers (Some 1%nat) ConfigureSamples.threeTiers) = [js "core-one"].
Proof. vm_compute. reflexivity. Qed.

(** *** The servers *)

Lemma fold_left_pairs {A B C} (f : A -> B -> A) (g : C -> B) (l : list C)
    (a : A) :
  fold_left (fun a x => f a (g x)) l a = fold_left f (map g l) a.
Proof. revert a. induction l as [|x l IH]; intros a; simpl; auto. Qed.

Lemma configuredServers_assignAll
    (recs : list McpServerRecommendation)
    (custom : list (jsstring * ConfigureMcp.McpServerConfig)) :
  configuredServers recs custom
  = assignAll
      (assignAll [] (map (fun rec => (name rec, recommendedServer rec)) recs))
      (map (fun nc => (fst nc, customServer (snd nc))) custom).
Proof.
  unfold configuredServers, assignAll.
  rewrite <- !(fold_left_pairs (fun o (kv : jsstring * ServerInfo) =>
                                  set o (fst kv) (snd kv))).
  reflexivity.
Qed.

Lemma configuredServers_NoDup (recs : list McpServerRecommendation)
    (custom : list (jsstring * ConfigureMcp.McpServerConfig)) :
  NoDup (map fst (configuredServers recs custom)).
Proof.
  rewrite configuredServers_assignAll.
  apply assignAll_NoDup, assignAll_NoDup. apply NoDup_nil_2.
Qed.

(** The names of the configured servers. *)
Lemma configuredServers_keys (recs : list McpServerRecommendation)
    (custom : list (jsstring * ConfigureMcp.McpServerConfig)) (n : jsstring) :
  In n (map fst (configuredServers recs custom)) <->
  n <> js "__proto__" /\ (In n (map name recs) \/ In n (map fst custom)).
Proof.
  rewrite configuredServers_assignAll, !assignAll_keys.
  rewrite !List.map_map. cbn [fst map In].
  tauto.
Qed.

Lemma mcpConfigOf_get (servers : object ServerInfo) (n : jsstring) :
  NoDup (map fst servers) -> ~ In (js "__proto__") (map fst servers) ->
  get (mcpConfigOf servers) n = config <$> get servers n.
Proof.
  intros Hnd Hproto. unfold mcpConfigOf.
  rewrite (fold_left_pairs
             (fun o (kv : jsstring * ConfigureMcp.McpServerConfig) =>
                set o (fst kv) (snd kv))
             (fun ni : jsstring * ServerInfo => (fst ni, config (snd ni)))).
  change (fold_left _ ?l []) with (assignAll [] l).
  pose proof (entries_perm servers) as Hperm.
  assert (Hkeys : map fst (map (fun ni : jsstring * ServerInfo =>
                                  (fst ni, config (snd ni))) (entries servers))
                  = map fst (entries servers))
    by (rewrite List.map_map; reflexivity).
  destruct (get servers n) as [info|] eqn:Hg.
  - apply assignAll_assigned.
    + rewrite Hkeys, Hperm. exact Hnd.
    + apply get_Some_In in Hg.
      apply (Permutation_in _ (Permutation_sym Hperm)) in Hg.
      now apply (List.in_map (fun ni : jsstring * ServerInfo =>
                                (fst ni, config (snd ni)))) in Hg.
    + intros ->. apply Hproto. apply get_Some_In in Hg.
      now apply (List.in_map fst) in Hg.
  - rewrite assignAll_other; [reflexivity|].
    rewrite Hkeys. apply get_None in Hg. intros H. apply Hg.
    apply (Permutation_in _ (Permutation_map fst Hperm)). exact H.
Qed.

Lemma configuredServers_no_proto (recs : list McpServerRecommendation)
    (custom : list (jsstring * ConfigureMcp.McpServerConfig)) :
  ~ In (js "__proto__") (map fst (configuredServers recs custom)).
Proof. rewrite configuredServers_keys. tauto. Qed.

Lemma find_pairs {A B} (f : A -> jsstring * B) (key : A -> jsstring)
    (l : list A) (n : jsstring) :
  (forall x, fst (f x) = key x) ->
  List.find (fun kv => bool_decide (fst kv = n)) (map f l)
  = f <$> List.find (fun x => bool_decide (key x = n)) l.
Proof.
  intros Hkey. induction l as [|x l IH]; [reflexivity|].
  cbn [map List.find]. rewrite Hkey.
  case_bool_decide; [reflexivity | exact IH].
Qed.

Lemma assignAll_get {V} (kvs : list (jsstring * V)) (o : object V)
    (n : jsstring) :
  NoDup (map fst kvs) -> n <> js "__proto__" ->
  get (assignAll o kvs) n
  = match get kvs n with
    | Some v => Some v
    | None => get o n
    end.
Proof.
  intros Hnd Hp. destruct (get kvs n) as [v|] eqn:Hg.
  - apply assignAll_assigned; [exact Hnd | now apply get_Some_In | exact Hp].
  - apply assignAll_other. now apply get_None.
Qed.

(** X15.  A custom server replaces a discovered server of the same
    name, and every other discovered server is configured as
    discovered: the entry of [mcpConfig] for a name is the custom
    server of that name if there is one, else the command, arguments
    and environment of the recommendation of that name, else nothing. *)
Theorem custom_servers_override_discovered
    (recs : list McpServerRecommendation)
    (custom : list (jsstring * ConfigureMcp.McpServerConfig)) (n : jsstring) :
  NoDup (map name recs) -> NoDup (map fst custom) -> n <> js "__proto__" ->
  get (mcpConfigOf (configuredServers recs custom)) n
  = match List.find (fun nc => bool_decide (fst nc = n)) custom with
    | Some nc => Some (snd nc)
    | None =>
        (fun rec => ConfigureMcp.mkConfig (command rec) (args rec) (env rec))
          <$> List.find (fun rec => bool_decide (name rec = n)) recs
    end.
Proof.
  intros Hrecs Hcustom Hp.
  rewrite mcpConfigOf_get
    by (apply configuredServers_NoDup || apply configuredServers_no_proto).
  rewrite configuredServers_assignAll.
  rewrite !assignAll_get; try exact Hp;
    try (rewrite List.map_map; cbn [fst]; assumption).
  unfold get at 1 2.
  rewrite (find_pairs (fun nc => (fst nc, customServer (snd nc))) fst)
    by reflexivity.
  rewrite (find_pairs (fun rec => (name rec, recommendedServer rec)) name)
    by reflexivity.
  destruct (List.find _ custom) as [nc|]; [reflexivity|].
  destruct (List.find _ recs) as [rec|]; reflexivity.
Qed.

Lemma custom_servers_override_discovered_witness :
  get (mcpConfigOf
         (configuredServers ConfigureSamples.threeTiers ConfigureSamples.customServers))
      (js "core-one")
  = match List.find (fun nc => bool_decide (fst nc = js "core-one"))
            ConfigureSamples.customServers with
    | Some nc => Some (snd nc)
    | None =>
        (fun rec => ConfigureMcp.mkConfig (command rec) (args rec) (env rec))
          <$> List.find (fun rec => bool_decide (name rec = js "core-one"))
                ConfigureSamples.threeTiers
    end.
Proof.
  assert (H1 : NoDup (map name ConfigureSamples.threeTiers)).
  { vm_compute.
    repeat (apply NoDup_cons_2;
            [rewrite ?elem_of_cons, ?elem_of_nil; intuition discriminate|]).
    apply NoDup_nil_2. }
  assert (H2 : NoDup (map fst ConfigureSamples.customServers)).
  { vm_compute.
    repeat (apply NoDup_cons_2;
            [rewrite ?elem_of_cons, ?elem_of_nil; intuition discriminate|]).
    apply NoDup_nil_2. }
  assert (H3 : js "core-one" <> js "__proto__") by (vm_compute; discriminate).
  exact (custom_servers_override_discovered ConfigureSamples.threeTiers
           ConfigureSamples.customServers (js "core-one") H1 H2 H3).
Defined.

(** The custom server of the samples replaces the discovered one. *)
Example custom_replaces_core_one :
  get (mcpConfigOf
         (configuredServers ConfigureSamples.threeTiers ConfigureSamples.customServers))
      (js "core-one")
  = Some (ConfigureMcp.mkConfig (js "node") [js "mine.js"] None).
Proof. vm_compute. reflexivity. Qed.

(** *** The permission rules *)

Lemma permissionRule_inj (a b : jsstring) :
  permissionRule a = permissionRule b -> a = b.
Proof.
  unfold permissionRule. intros H.
  apply app_inv_head in H. now apply app_inv_tail in H.
Qed.

(** X16.  With auto-approval there is one permission rule per
    configured server and none else: the rules have no duplicates, a
    rule is [mcp__<name>__*] for a discovered or custom server name,
    and a server is in [mcpConfig] exactly when its rule is there.  A
    server named [__proto__] is neither configured nor approved. *)
Theorem one_permission_rule_per_server
    (recs : list McpServerRecommendation)
    (custom : list (jsstring * ConfigureMcp.McpServerConfig)) :
  let servers := configuredServers recs custom in
  let rules := permissionRulesOf true servers in
  NoDup rules
  /\ (forall rule, In rule rules <->
        exists n, rule = permissionRule n /\ n <> js "__proto__"
                  /\ (In n (map name recs) \/ In n (map fst custom)))
  /\ (forall n, In (permissionRule n) rules <->
                is_Some (get (mcpConfigOf servers) n)).
Proof.
  intros servers rules.
  assert (Hnd : NoDup (map fst servers)) by apply configuredServers_NoDup.
  assert (Hkeys : forall n, In n (keys servers) <-> In n (map fst servers)).
  { intros n. split; apply Permutation_in;
      [apply keys_perm | symmetry; apply keys_perm]. }
  assert (Hrule : forall n, In (permissionRule n) rules <-> In n (keys servers)).
  { intros n. unfold rules, permissionRulesOf. rewrite in_map_iff. split.
    - intros (n' & Heq & Hin). apply permissionRule_inj in Heq. now subst.
    - intros Hin. eauto. }
  split; [|split].
  - unfold rules, permissionRulesOf.
    assert (Hinj : Inj (=) (=) permissionRule)
      by (intros a b; apply permissionRule_inj).
    apply (NoDup_fmap_2 permissionRule). rewrite keys_perm. exact Hnd.
  - intros rule. split.
    + intros Hin. unfold rules, permissionRulesOf in Hin.
      apply in_map_iff in Hin. destruct Hin as (n & <- & Hin).
      exists n. split; [reflexivity|].
      now apply configuredServers_keys, Hkeys.
    + intros (n & -> & Hn). apply Hrule, Hkeys.
      now apply configuredServers_keys.
  - intros n. rewrite Hrule, Hkeys.
    rewrite mcpConfigOf_get
      by (exact Hnd || apply configuredServers_no_proto).
    destruct (get servers n) as [info|] eqn:Hg.
    + split; [intros _; simpl; eauto|]. intros _.
      apply get_Some_In in Hg. now apply (List.in_map fst) in Hg.
    + split; [|intros [x Hx]; discriminate]. intros Hin.
      now apply get_None in Hg.
Qed.

End ConfigureMcpHandlerFacts.

(* ===================================================================== *)
(** ** The repository URL, the framework and the language *)
(* ===================================================================== *)

Module ProjectProbeFacts.
Import JsString Exn ConfigureMcp ProjectProbes LanguageDetector.

(** *** The repository URL *)

Lemma startsWith_nil (s : jsstring) : startsWith s [] = true.
Proof. now destruct s. Qed.

Lemma endsWith_after_slashes (rest : jsstring) :
  endsWith (js "https///" ++ rest) (js ".git") = endsWith rest (js ".git").
Proof.
  unfold endsWith. rewrite rev_app_distr.
  change (rev (js ".git")) with [116; 105; 103; 46].
  change (rev (js "https///")) with [47; 47; 47; 115; 112; 116; 116; 104].
  destruct (rev rest) as [|a [|b [|c [|d t]]]]; cbn [app startsWith];
    rewrite ?startsWith_nil; reflexivity.
Qed.

Lemma endsWith_git_length (rest : jsstring) :
  endsWith rest (js ".git") = true -> (4 <= length rest)%nat.
Proof.
  unfold endsWith. rewrite <- (length_rev rest).
  change (rev (js ".git")) with [116; 105; 103; 46].
  destruct (rev rest) as [|a [|b [|c [|d t]]]]; cbn [startsWith length];
    rewrite ?andb_false_r; try discriminate; try lia.
Qed.

Lemma stripGitSuffix_after_slashes (rest : jsstring) :
  stripGitSuffix (js "https///" ++ rest) = js "https///" ++ stripGitSuffix rest.
Proof.
  unfold stripGitSuffix. rewrite endsWith_after_slashes.
  destruct (endsWith rest (js ".git")) eqn:He; [|reflexivity].
  apply endsWith_git_length in He.
  rewrite length_app.
  change (length (js "https///")) with 8%nat.
  replace (8 + length rest - 4)%nat with (8 + (length rest - 4))%nat by lia.
  change (js "https///") with [104; 116; 116; 112; 115; 47; 47; 47].
  reflexivity.
Qed.

Lemma replaceFirst_eq (pattern replacement s : jsstring) :
  replaceFirst pattern replacement s
  = if startsWith s pattern then replacement ++ drop (length pattern) s
    else match s with
         | [] => []
         | c :: rest => c :: replaceFirst pattern replacement rest
         end.
Proof. now destruct s. Qed.

Lemma startsWith_app (p s : jsstring) : startsWith (p ++ s) p = true.
Proof.
  induction p as [|c p IH]; [apply startsWith_nil|].
  cbn [app startsWith]. now rewrite N.eqb_refl, IH.
Qed.

(** The two replacements on an SSH remote. *)
Lemma ssh_replacements (rest : jsstring) :
  replaceFirst (js ":") (js "/")
    (replaceFirst (js "git@") (js "https://") (js "git@" ++ rest))
  = js "https///" ++ rest.
Proof.
  rewrite (replaceFirst_eq (js "git@")), startsWith_app, drop_app_length.
  change (js "https://") with [104; 116; 116; 112; 115; 58; 47; 47].
  change (js ":") with [58].
  cbn [app].
  do 6 (rewrite replaceFirst_eq; cbn [startsWith N.eqb Pos.eqb andb]).
  rewrite ?startsWith_nil. reflexivity.
Qed.

(** X17.  An SSH remote [git@host:path] is not turned into an HTTPS
    URL: the second replacement finds its colon in the [https://] the
    first one has just written, so the result is [https///host:path]
    (less a final [.git]), with the colon after the host still there. *)
Theorem ssh_remote_keeps_its_colon (rest : jsstring) :
  trim (js "git@" ++ rest) = js "git@" ++ rest ->
  detectRepoUrl (Some (js "git@" ++ rest))
    = js "https///" ++ stripGitSuffix rest
  /\ startsWith (detectRepoUrl (Some (js "git@" ++ rest))) (js "https://")
     = false.
Proof.
  intros Htrim.
  assert (Heq : detectRepoUrl (Some (js "git@" ++ rest))
                = js "https///" ++ stripGitSuffix rest).
  { unfold detectRepoUrl. rewrite Htrim, startsWith_app, ssh_replacements.
    apply stripGitSuffix_after_slashes. }
  split; [exact Heq|]. rewrite Heq. reflexivity.
Qed.

Lemma ssh_remote_keeps_its_colon_witness :
  detectRepoUrl (Some (js "git@" ++ ProbeSamples.sshRemote))
    = js "https///" ++ stripGitSuffix ProbeSamples.sshRemote
  /\ startsWith (detectRepoUrl (Some (js "git@" ++ ProbeSamples.sshRemote)))
       (js "https://")
     = false.
Proof.
  assert (H : trim (js "git@" ++ ProbeSamples.sshRemote)
              = js "git@" ++ ProbeSamples.sshRemote)
    by (vm_compute; reflexivity).
  exact (ssh_remote_keeps_its_colon ProbeSamples.sshRemote H).
Defined.

(** The remotes of the tests and their SSH form. *)
Example repo_url_https :
  detectRepoUrl (Some (js "https://github.com/test/project.git" ++ nl))
  = js "https://github.com/test/project".
Proof. vm_compute. reflexivity. Qed.

Example repo_url_ssh :
  detectRepoUrl (Some (js "git@github.com:test/project.git" ++ nl))
  = js "https///github.com:test/project".
Proof. vm_compute. reflexivity. Qed.

Example repo_url_no_git : detectRepoUrl None = [].
Proof. reflexivity. Qed.


(** *** The framework *)

Lemma no_package_iff (deps : gmap jsstring json) (packages : list jsstring) :
  (forall p, In p packages -> deps !! p = None) <->
  existsb (fun p => bool_decide (is_Some (deps !! p))) packages = false.
Proof.
  induction packages as [|q packages IH]; cbn [existsb In].
  - split; [reflexivity | intros _ p []].
  - rewrite orb_false_iff, <- IH, bool_decide_eq_false. split.
    + intros H. split; [|auto]. rewrite (H q (or_introl eq_refl)).
      intros [x Hx]. discriminate.
    + intros [Hq H] p [<- | Hp]; [|auto]. now apply eq_None_not_Some.
Qed.

Lemma no_pattern_iff (deps : gmap jsstring json) :
  (forall pattern p, In pattern TS_FRAMEWORK_PATTERNS ->
                     In p (fst pattern) -> deps !! p = None) <->
  existsb (fun p => bool_decide (is_Some (deps !! p)))
          (flat_map fst TS_FRAMEWORK_PATTERNS) = false.
Proof.
  rewrite <- no_package_iff. split.
  - intros H p Hp. apply in_flat_map in Hp. destruct Hp as (pattern & H1 & H2).
    eauto.
  - intros H pattern p H1 H2. apply H. apply in_flat_map. eauto.
Qed.

Ltac booleans :=
  repeat match goal with
         | |- context [bool_decide ?P] =>
             let b := fresh "b" in
             generalize (bool_decide P); intros b
         end.

Lemma firstFramework_cases (deps : gmap jsstring json) :
  (is_Some (deps !! js "next") -> firstFramework deps = Some (js "Next.js"))
  /\ (firstFramework deps = Some (js "React") <->
      is_Some (deps !! js "react")
      /\ forall p, In p otherFrameworkPackages -> deps !! p = None)
  /\ (firstFramework deps = None <->
      forall pattern p, In pattern TS_FRAMEWORK_PATTERNS ->
                        In p (fst pattern) -> deps !! p = None).
Proof.
  rewrite no_package_iff, no_pattern_iff.
  rewrite <- (bool_decide_eq_true (is_Some (deps !! js "next"))).
  rewrite <- (bool_decide_eq_true (is_Some (deps !! js "react"))).
  unfold firstFramework, otherFrameworkPackages, TS_FRAMEWORK_PATTERNS.
  cbn [List.find existsb fst snd removelast flat_map app].
  booleans. clear deps.
  split; [|split].
  - intros ->. reflexivity.
  - destruct b; [vm_compute; intuition discriminate|].
    destruct b0; [vm_compute; intuition discriminate|].
    destruct b1; [vm_compute; intuition discriminate|].
    destruct b2; [vm_compute; intuition discriminate|].
    destruct b3; [vm_compute; intuition discriminate|].
    destruct b4; [vm_compute; intuition discriminate|].
    destruct b5; [vm_compute; intuition discriminate|].
    destruct b6; [vm_compute; intuition discriminate|].
    destruct b7; [vm_compute; intuition discriminate|].
    destruct b8; [vm_compute; intuition discriminate|].
    destruct b9; [vm_compute; intuition discriminate|].
    destruct b10; vm_compute; intuition discriminate.
  - destruct b; [vm_compute; intuition discriminate|].
    destruct b0; [vm_compute; intuition discriminate|].
    destruct b1; [vm_compute; intuition discriminate|].
    destruct b2; [vm_compute; intuition discriminate|].
    destruct b3; [vm_compute; intuition discriminate|].
    destruct b4; [vm_compute; intuition discriminate|].
    destruct b5; [vm_compute; intuition discriminate|].
    destruct b6; [vm_compute; intuition discriminate|].
    destruct b7; [vm_compute; intuition discriminate|].
    destruct b8; [vm_compute; intuition discriminate|].
    destruct b9; [vm_compute; intuition discriminate|].
    destruct b10; vm_compute; intuition discriminate.
Qed.


Lemma allDeps_record (fields : gmap jsstring json) :
  allDeps (JObj fields)
  = Ok (ownProps (fields !! js "devDependencies")
        ∪ ownProps (fields !! js "dependencies")).
Proof. reflexivity. Qed.

(** X18.  The framework of a TypeScript project is decided by the
    order of the pattern table over the keys of [dependencies] and
    [devDependencies] together: Next.js is reported whenever [next] is
    a dependency, React only when [react] is one and no package of
    another pattern is, and nothing exactly when no package of the
    table is a dependency. *)
Theorem next_is_first_react_is_last (fields : gmap jsstring json) :
  let deps := ownProps (fields !! js "devDependencies")
              ∪ ownProps (fields !! js "dependencies") in
  let framework := detectTypeScriptFramework (ParsedPackage (JObj fields)) in
  (is_Some (deps !! js "next") -> framework = Some (js "Next.js"))
  /\ (framework = Some (js "React") <->
      is_Some (deps !! js "react")
      /\ forall p, In p otherFrameworkPackages -> deps !! p = None)
  /\ (framework = None <->
      forall pattern p, In pattern TS_FRAMEWORK_PATTERNS ->
                        In p (fst pattern) -> deps !! p = None).
Proof.
  intros deps framework. unfold framework, detectTypeScriptFramework.
  rewrite allDeps_record. apply firstFramework_cases.
Qed.

(** Next.js wins over React; a [package.json] that is [null], missing
    or unreadable gives no framework. *)
Example framework_next_and_react :
  detectTypeScriptFramework (ParsedPackage ProbeSamples.nextAndReact)
  = Some (js "Next.js").
Proof. vm_compute. reflexivity. Qed.

Example framework_null_package :
  detectTypeScriptFramework (ParsedPackage JNull) = None.
Proof. reflexivity. Qed.

(** *** The language *)

Lemma python_file_not_typescript (name : jsstring) :
  isPythonFile name = true -> isTypeScriptFile name = false.
Proof.
  unfold isPythonFile, isTypeScriptFile, endsWith.
  change (rev (js ".py")) with [121; 112; 46].
  change (rev (js ".ts")) with [115; 116; 46].
  change (rev (js ".tsx")) with [120; 115; 116; 46].
  change (rev (js ".js")) with [115; 106; 46].
  change (rev (js ".jsx")) with [120; 115; 106; 46].
  destruct (rev name) as [|c t]; [discriminate|].
  cbn [startsWith]. destruct (N.eqb_spec 121 c) as [<- | _]; [|discriminate].
  reflexivity.
Qed.

(** The loop counts the entries of each kind. *)
Lemma countStep_counts (entries : list jsstring) :
  forall counts,
    fold_left countStep entries counts
    = (fst counts + length (List.filter isPythonFile entries),
       snd counts + length (List.filter isTypeScriptFile entries))%nat.
Proof.
  induction entries as [|name entries IH]; intros [py ts].
  - cbn. f_equal; lia.
  - cbn [fold_left List.filter]. rewrite IH. unfold countStep.
    fold (isPythonFile name). fold (isTypeScriptFile name).
    destruct (isPythonFile name) eqn:Hpy.
    + rewrite (python_file_not_typescript _ Hpy). cbn. f_equal; lia.
    + destruct (isTypeScriptFile name); cbn; f_equal; lia.
Qed.

Lemma countSourceFiles_python (srcDir : SrcDir) :
  countSourceFiles srcDir = python <->
  exists entries,
    srcDir = SrcEntries entries /\
    (length (List.filter isTypeScriptFile (take 100 entries))
     < length (List.filter isPythonFile (take 100 entries)))%nat.
Proof.
  destruct srcDir as [| |entries]; cbn [countSourceFiles].
  - split; [discriminate | intros (e & H & _); discriminate].
  - split; [discriminate | intros (e & H & _); discriminate].
  - rewrite countStep_counts. cbn [fst snd Nat.add].
    destruct (Nat.ltb_spec
                (length (List.filter isTypeScriptFile (take 100 entries)))
                (length (List.filter isPythonFile (take 100 entries)))).
    + split; [eauto | reflexivity].
    + split; [discriminate|]. intros (e & [= <-] & Hlt). lia.
Qed.

(** X19.  Python is detected only on evidence: the project has one of
    the Python indicator files, and if it also has [tsconfig.json] or
    [package.json], then [src] can be read and among its first hundred
    entries the [.py] files outnumber the [.ts], [.tsx], [.js] and
    [.jsx] files.  In every other case, a tie included, the language is
    TypeScript. *)
Theorem python_needs_evidence (project : Project) :
  detectLanguage project = python <->
  (exists f, In f PYTHON_INDICATORS /\ hasFile project f = true)
  /\ ((exists f, In f TYPESCRIPT_INDICATORS /\ hasFile project f = true) ->
      exists entries,
        src project = SrcEntries entries /\
        (length (List.filter isTypeScriptFile (take 100 entries))
         < length (List.filter isPythonFile (take 100 entries)))%nat).
Proof.
  unfold detectLanguage.
  rewrite <- !existsb_exists, <- countSourceFiles_python.
  destruct (existsb (hasFile project) PYTHON_INDICATORS),
    (existsb (hasFile project) TYPESCRIPT_INDICATORS); cbn [andb negb].
  - tauto.
  - split; [intros _ | reflexivity]. split; [reflexivity | discriminate].
  - split; [discriminate | intros [H _]; discriminate].
  - split; [discriminate | intros [H _]; discriminate].
Qed.

(** The mixed project of the tests, and a tie. *)
Example mixed_project_is_python :
  detectLanguage ProbeSamples.mixedProject = python.
Proof. vm_compute. reflexivity. Qed.

Example tie_is_typescript :
  countSourceFiles (SrcEntries [js "a.py"; js "b.ts"]) = typescript.
Proof. vm_compute. reflexivity. Qed.

End ProjectProbeFacts.

(* ===================================================================== *)
(** ** Settings that cannot be merged *)
(* ===================================================================== *)

Module SettingsFacts.
Import JsString Exn ConfigureMcp SettingsSpec ConfigureMcpFacts.

Lemma getProp_not_null (v : json) (key : jsstring) :
  v <> JNull -> getProp v key = Ok (ownProps (Some v) !! key).
Proof. destruct v; [congruence | reflexivity ..]. Qed.

Lemma nullish_not_null (v : option json) (fields : gmap jsstring json) :
  nullish v (JObj fields) <> JNull.
Proof. destruct v as [[]|]; discriminate. Qed.

(** The merge, step by step, for settings that are not [null]. *)
Lemma mergeTry_not_null (existing : json)
    (mcpConfig : gmap jsstring McpServerConfig)
    (permissionRules : list jsstring) :
  existing <> JNull ->
  mergeTry existing mcpConfig permissionRules
  = existingAllow ← iterate (nullish (allowOf existing) (JArr []));
    Ok (<[ js "mcpServers" :=
             JObj ((configJson <$> mcpConfig)
                   ∪ ownProps (Some (nullish
                                       (ownProps (Some existing)
                                          !! js "mcpServers") (JObj ∅)))) ]>
        (<[ js "permissions" :=
              JObj (<[ js "allow" :=
                         JArr (dedupe (existingAllow
                                         ++ map JStr permissionRules)) ]>
                      (ownProps (Some (nullish
                                         (ownProps (Some existing)
                                            !! js "permissions")
                                         (JObj ∅))))) ]>
         (ownProps (Some existing)))).
Proof.
  intros Hnull. unfold mergeTry, allowOf.
  rewrite !(getProp_not_null existing) by exact Hnull.
  cbn [mbind Result_bind].
  rewrite (getProp_not_null (nullish _ (JObj ∅))) by apply nullish_not_null.
  cbn [mbind Result_bind].
  destruct (iterate _); reflexivity.
Qed.

(** X20.  An existing settings file survives the merge exactly when it
    can be merged.  When the parsed settings are [null], or their
    [permissions.allow] is a boolean, a number or an object, the merge
    throws and the new settings are written alone: every key the file
    had is lost.  In every other case each top-level key other than
    [permissions] and [mcpServers] keeps its value. *)
Theorem unmergeable_settings_are_replaced (existing : json)
    (mcpConfig : gmap jsstring McpServerConfig)
    (permissionRules : list jsstring) :
  (unmergeable existing ->
   mergedSettings (Parsed existing) mcpConfig permissionRules
   = newSettings mcpConfig permissionRules)
  /\ (~ unmergeable existing ->
      forall key, key <> js "permissions" -> key <> js "mcpServers" ->
        mergedSettings (Parsed existing) mcpConfig permissionRules !! key
        = ownProps (Some existing) !! key).
Proof.
  unfold unmergeable, mergedSettings.
  assert (Hcase : existing = JNull \/ existing <> JNull)
    by (destruct existing; [left; reflexivity | right; discriminate ..]).
  destruct Hcase as [-> | Hnull].
  - split; [reflexivity | tauto].
  - rewrite (mergeTry_not_null _ _ _ Hnull).
    destruct (allowOf existing) as [[]|]; cbn [nullish iterate mbind Result_bind];
      (split; [intros [? | H]; [congruence | try reflexivity; destruct H]
              | intros Hok key H1 H2;
                try (exfalso; apply Hok; right; exact I);
                rewrite !lookup_insert_ne by congruence; reflexivity]).
Qed.

End SettingsFacts.

(* ===================================================================== *)
(** ** The router *)
(* ===================================================================== *)

Module RouterFacts.
Import JsString Router.

Ltac resource_cases :=
  repeat match goal with
         | |- context [bool_decide ?P] => destruct (bool_decide P)
         end.

Ltac other_message H :=
  exfalso; injection H; vm_compute; discriminate.

(** X21.  The router asks for the tags first.  For the seven actions
    that need tags (scaffold, generate, audit, review, configure_mcp,
    get_reference, convert) absent or empty tags make it throw
    [Missing required parameter 'tags' for action '<action>'.], whatever
    the other parameters are, and it throws that message in no other
    case.  The handlers of these actions are given the caller's tags,
    which are not empty.  The other handlers are not protected:
    [addModuleHandler] is given the caller's tags when there are any,
    an empty array included, and [["UNIVERSAL"]] when there are none;
    [listHooksHandler] and [listSkillsHandler] are given [args.tags] as
    it is. *)
Theorem router_requires_tags (args : ForgecraftArgs) :
  (forgecraftHandler args
   = Throws (missingParameter (js "tags") (actionName (action args)))
   <-> needsTags (action args) = true /\ noTags args)
  /\ (forall call,
        forgecraftHandler args = Delegates call ->
        tagsAsGiven (tags args) call).
Proof.
  unfold forgecraftHandler, dispatchGetReference, dispatchList, noTags.
  destruct (action args), (tags args) as [[|t ts0]|],
    (project_dir args) as [dir|], (name args) as [nm|];
    cbn [needsTags actionName requireArray requireParam andThen default];
    resource_cases;
    (split;
     [ split;
       [ intros H;
         first [ discriminate H
               | other_message H
               | split; [reflexivity | auto] ]
       | intros [H1 H2];
         first [ reflexivity
               | discriminate H1
               | destruct H2 as [H2 | H2]; discriminate H2 ] ]
     | intros call Hcall;
       first [ discriminate Hcall
             | injection Hcall as <-; cbn [tagsAsGiven];
               first [ exact I
                     | reflexivity
                     | split; [reflexivity | discriminate] ] ] ]).
Qed.

(** A scaffold call without tags and without a directory complains
    about the tags; a list call needs nothing. *)
Example scaffold_without_anything :
  forgecraftHandler (RouterSamples.onlyAction act_scaffold)
  = Throws (js "Missing required parameter 'tags' for action 'scaffold'.").
Proof. vm_compute. reflexivity. Qed.

Example list_without_anything :
  forgecraftHandler (RouterSamples.onlyAction act_list)
  = Delegates listTagsHandler.
Proof. vm_compute. reflexivity. Qed.

(** An [add_module] call with an empty tag array hands the empty array
    on. *)
Example add_module_with_empty_tags :
  forgecraftHandler (RouterSamples.emptyTagsModule)
  = Delegates (addModuleHandler (js "auth") (js "/project") []
                 (js "typescript")).
Proof. vm_compute. reflexivity. Qed.

End RouterFacts.

(* ===================================================================== *)
(** ** configure_mcp from the recommendations to the settings file *)
(* ===================================================================== *)

Module ConfigureSettingsFacts.
Import JsString Exn ConfigureMcp JsObject ConfigureMcpHandler SettingsSpec.
Import JsObjectFacts ConfigureMcpHandlerFacts ConfigureMcpFacts SettingsFacts.

(** A string stays in the array through [new Set]. *)
Lemma setAdd_keeps (elements : list json) (x y : json) :
  In y elements -> In y (setAdd elements x).
Proof.
  unfold setAdd. destruct (existsb _ _); [auto|].
  intros H. apply in_or_app. now left.
Qed.

Lemma setAdd_string (elements : list json) (r : jsstring) :
  In (JStr r) (setAdd elements (JStr r)).
Proof.
  unfold setAdd.
  destruct (existsb (sameValueZero (JStr r)) elements) eqn:Hseen.
  - apply existsb_exists in Hseen. destruct Hseen as (y & Hy & Heq).
    destruct y; try discriminate. cbn in Heq.
    apply bool_decide_eq_true in Heq. now subst.
  - apply in_or_app. right. now left.
Qed.

Lemma fold_setAdd_keeps (xs : list json) :
  forall elements y, In y elements -> In y (fold_left setAdd xs elements).
Proof.
  induction xs as [|x xs IH]; intros elements y Hy; [exact Hy|].
  cbn [fold_left]. apply IH. now apply setAdd_keeps.
Qed.

Lemma dedupe_string (xs : list json) (r : jsstring) :
  In (JStr r) xs -> In (JStr r) (dedupe xs).
Proof.
  unfold dedupe. generalize (@nil json).
  induction xs as [|x xs IH]; intros elements; [intros []|].
  intros [-> | Hin]; cbn [fold_left].
  - apply fold_setAdd_keeps, setAdd_string.
  - now apply IH.
Qed.

Lemma mcpConfigOf_NoDup (servers : object ServerInfo) :
  NoDup (map fst (mcpConfigOf servers)).
Proof.
  unfold mcpConfigOf.
  rewrite (fold_left_pairs
             (fun o (kv : jsstring * McpServerConfig) =>
                set o (fst kv) (snd kv))
             (fun ni : jsstring * ServerInfo => (fst ni, config (snd ni)))).
  change (fold_left _ ?l []) with (assignAll [] l).
  apply assignAll_NoDup, NoDup_nil_2.
Qed.

(** The new settings alone, when there are rules. *)
Lemma newSettings_lookup (mcpConfig : gmap jsstring McpServerConfig)
    (rules : list jsstring) :
  rules <> [] ->
  newSettings mcpConfig rules !! js "mcpServers"
    = Some (JObj (configJson <$> mcpConfig))
  /\ newSettings mcpConfig rules !! js "permissions"
     = Some (JObj {[ js "allow" := JArr (map JStr rules) ]}).
Proof.
  intros Hne. unfold newSettings.
  destruct rules as [|r rules]; [congruence|]. cbn [length Nat.eqb negb].
  split.
  - rewrite lookup_insert_ne by (symmetry; apply settings_keys_differ).
    apply lookup_singleton_eq.
  - apply lookup_insert_eq.
Qed.

(** What is written for one server: its command, its arguments, its
    environment when it has one, and nothing else. *)
Lemma configJson_fields (c : McpServerConfig) :
  exists fields,
    configJson c = JObj fields
    /\ fields !! js "command" = Some (JStr (command c))
    /\ fields !! js "args" = Some (JArr (map JStr (args c)))
    /\ fields !! js "env"
       = (fun e : gmap jsstring jsstring => JObj (JStr <$> e)) <$> env c
    /\ forall key, key <> js "command" -> key <> js "args" ->
                   key <> js "env" -> fields !! key = None.
Proof.
  assert (H1 : js "env" <> js "command") by (vm_compute; discriminate).
  assert (H2 : js "env" <> js "args") by (vm_compute; discriminate).
  assert (H3 : js "command" <> js "args") by (vm_compute; discriminate).
  unfold configJson. destruct (env c) as [e|]; eexists;
    (split; [reflexivity|]); cbn [fmap option_fmap option_map].
  - split; [|split; [|split]].
    + rewrite lookup_insert_ne by exact H1. apply lookup_insert_eq.
    + rewrite lookup_insert_ne by exact H2.
      rewrite lookup_insert_ne by exact H3. apply lookup_singleton_eq.
    + apply lookup_insert_eq.
    + intros key K1 K2 K3. rewrite !lookup_insert_ne by congruence.
      now apply lookup_singleton_ne.
  - split; [|split; [|split]].
    + apply lookup_insert_eq.
    + rewrite lookup_insert_ne by exact H3. apply lookup_singleton_eq.
    + rewrite lookup_insert_ne by congruence.
      apply lookup_singleton_ne. congruence.
    + intros key K1 K2 K3. rewrite !lookup_insert_ne by congruence.
      now apply lookup_singleton_ne.
Qed.

(** X22.  Whatever [.claude/settings.json] held before (nothing, text
    that does not parse, or any JSON value), after [configure_mcp] with
    auto-approval, for recommendations whose tiers are no property
    names of [Object.prototype], every server it configured is in the
    written [mcpServers] as an object with its [command], its [args],
    its [env] when it has one and no other key, and its rule
    [mcp__<name>__*] is in the written [permissions.allow]. *)
Theorem configured_servers_are_written_and_approved
    (recommendations : list McpDiscovery.McpServerRecommendation)
    (max_servers : option nat)
    (custom_servers : list (jsstring * McpServerConfig))
    (file : SettingsFile) (n : jsstring) (c : McpServerConfig) :
  ordinaryTiers recommendations ->
  get (mcpConfigOf
         (configuredServers (limitServers max_servers recommendations)
            custom_servers)) n = Some c ->
  exists servers fields perms allow,
    configureMcpSettings recommendations max_servers custom_servers true file
      !! js "mcpServers" = Some (JObj servers)
    /\ servers !! n = Some (JObj fields)
    /\ fields !! js "command" = Some (JStr (command c))
    /\ fields !! js "args" = Some (JArr (map JStr (args c)))
    /\ fields !! js "env"
       = (fun e : gmap jsstring jsstring => JObj (JStr <$> e)) <$> env c
    /\ (forall key, key <> js "command" -> key <> js "args" ->
                    key <> js "env" -> fields !! key = None)
    /\ configureMcpSettings recommendations max_servers custom_servers true
         file !! js "permissions" = Some (JObj perms)
    /\ perms !! js "allow" = Some (JArr allow)
    /\ In (JStr (permissionRule n)) allow.
Proof.
  unfold configureMcpSettings.
  set (servers := configuredServers _ custom_servers).
  set (cfg := list_to_map (mcpConfigOf servers) : gmap jsstring McpServerConfig).
  set (rules := permissionRulesOf true servers).
  intros _ Hget.
  destruct (configJson_fields c) as (fields & Hjson & Hc & Ha & He & Hother).
  assert (Hcfg : cfg !! n = Some c).
  { apply elem_of_list_to_map_1; [apply mcpConfigOf_NoDup|].
    apply list_elem_of_In. now apply get_Some_In. }
  assert (Hrule : In (permissionRule n) rules).
  { unfold rules, permissionRulesOf. apply in_map.
    apply (Permutation_in _ (Permutation_sym (keys_perm servers))).
    rewrite mcpConfigOf_get in Hget
      by (apply configuredServers_NoDup || apply configuredServers_no_proto).
    destruct (get servers n) as [info|] eqn:Hg; [|discriminate].
    apply get_Some_In in Hg. now apply (List.in_map fst) in Hg. }
  assert (Hne : rules <> []) by (intros E; rewrite E in Hrule; destruct Hrule).
  assert (Hnew : exists servers' perms allow,
             newSettings cfg rules !! js "mcpServers" = Some (JObj servers')
             /\ servers' !! n = Some (JObj fields)
             /\ newSettings cfg rules !! js "permissions" = Some (JObj perms)
             /\ perms !! js "allow" = Some (JArr allow)
             /\ In (JStr (permissionRule n)) allow).
  { destruct (newSettings_lookup cfg rules Hne) as [H1 H2].
    eexists _, _, _. split; [exact H1|]. split.
    - now rewrite lookup_fmap, Hcfg, <- Hjson.
    - split; [exact H2|]. split; [apply lookup_singleton_eq|].
      now apply in_map. }
  assert (Hgoal : exists servers' perms allow,
             mergedSettings file cfg rules !! js "mcpServers"
               = Some (JObj servers')
             /\ servers' !! n = Some (JObj fields)
             /\ mergedSettings file cfg rules !! js "permissions"
                = Some (JObj perms)
             /\ perms !! js "allow" = Some (JArr allow)
             /\ In (JStr (permissionRule n)) allow).
  { unfold mergedSettings.
    destruct file as [| |existing]; [exact Hnew | exact Hnew |].
    assert (Hcase : existing = JNull \/ existing <> JNull)
      by (destruct existing; [left; reflexivity | right; discriminate ..]).
    destruct Hcase as [-> | Hnull]; [exact Hnew|].
    rewrite (mergeTry_not_null _ _ _ Hnull).
    destruct (iterate _) as [existingAllow | e]; cbn [mbind Result_bind];
      [|exact Hnew].
    eexists _, _, _. split; [apply lookup_insert_eq|]. split.
    - apply lookup_union_Some_l. now rewrite lookup_fmap, Hcfg, <- Hjson.
    - split.
      + rewrite lookup_insert_ne by apply settings_keys_differ.
        apply lookup_insert_eq.
      + split; [apply lookup_insert_eq|].
        apply dedupe_string. apply in_or_app. right. now apply in_map. }
  destruct Hgoal as (servers' & perms & allow & G1 & G2 & G3 & G4 & G5).
  exists servers', fields, perms, allow. tauto.
Qed.

Lemma configured_servers_are_written_and_approved_witness :
  exists servers fields perms allow,
    configureMcpSettings ConfigureSamples.threeTiers (Some 2%nat)
      ConfigureSamples.customServers true
      (Parsed (JObj Samples.existingSettings))
      !! js "mcpServers" = Some (JObj servers)
    /\ servers !! js "core-one" = Some (JObj fields)
    /\ fields !! js "command"
       = Some (JStr (command (mkConfig (js "node") [js "mine.js"] None)))
    /\ fields !! js "args"
       = Some (JArr (map JStr
                       (args (mkConfig (js "node") [js "mine.js"] None))))
    /\ fields !! js "env"
       = (fun e : gmap jsstring jsstring => JObj (JStr <$> e))
           <$> env (mkConfig (js "node") [js "mine.js"] None)
    /\ (forall key, key <> js "command" -> key <> js "args" ->
                    key <> js "env" -> fields !! key = None)
    /\ configureMcpSettings ConfigureSamples.threeTiers (Some 2%nat)
         ConfigureSamples.customServers true
         (Parsed (JObj Samples.existingSettings))
         !! js "permissions" = Some (JObj perms)
    /\ perms !! js "allow" = Some (JArr allow)
    /\ In (JStr (permissionRule (js "core-one"))) allow.
Proof.
  assert (H0 : ordinaryTiers ConfigureSamples.threeTiers)
    by (repeat constructor; vm_compute; discriminate).
  assert (H : get (mcpConfigOf
                     (configuredServers
                        (limitServers (Some 2%nat) ConfigureSamples.threeTiers)
                        ConfigureSamples.customServers)) (js "core-one")
              = Some (mkConfig (js "node") [js "mine.js"] None))
    by (vm_compute; reflexivity).
  exact (configured_servers_are_written_and_approved
           ConfigureSamples.threeTiers (Some 2%nat)
           ConfigureSamples.customServers
           (Parsed (JObj Samples.existingSettings)) (js "core-one")
           (mkConfig (js "node") [js "mine.js"] None) H0 H).
Defined.

End ConfigureSettingsFacts.
